(** * Amazon FBA image toolkit: slugging, image canvas, metadata derivation

    A shallow embedding of [download_images_by_product.py],
    [export_product_metadata.py] and [sheet_reader.py], and the properties
    their specification states about them.

    Python values are modelled as follows.
    - [int] is [Z].
    - [str] is a list of Unicode code points, each a [Z] (the value of
      [ord]).  ASCII literals are written [u "text"].
    - Character classes follow CPython: [str.strip], [str.split] and the
      regular-expression class [\s] use [Py_UNICODE_ISSPACE]; [\w] is
      [Py_UNICODE_ISALNUM] or an underscore.  On ASCII these are written out;
      beyond ASCII the alphanumeric test, lowercasing and the decimal digit
      value come from the interpreter's Unicode database.  These, and the
      [repr] of a float, are fields of a [runtime] that every definition
      using them takes as an argument.
    - [float] is an IEEE 754 binary64 value ([spec_float]); parsing
      and formatting round as [strtod] and [format] do.
    - Dictionaries whose key order is observable are association lists;
      a sheet record is a finite map where it is read by key only, and
      the list of its items where it is walked.
    - The file system and the spreadsheet are explicit states; the
      HTTP client, the imaging library's decoder and resampling filter
      and the text of a path are fields of a [services] record.  The
      size computed by the imaging library's [thumbnail] is written out
      with the binary64 arithmetic it is computed in. *)

From Stdlib Require Import ZArith List Bool Lia String Ascii.
From Stdlib Require Import Floats.SpecFloat.
From Stdlib Require Import DecimalN.
From stdpp Require Import base gmap sets list.

Open Scope Z_scope.

(** ** Strings as code points *)

Abbreviation str := (list Z).

Fixpoint u (s : string) : str :=
  match s with
  | EmptyString => []
  | String a s' => Z.of_N (N_of_ascii a) :: u s'
  end.
Arguments u s%_string_scope.

Definition in_range (lo hi c : Z) : bool := (lo <=? c) && (c <=? hi).

Definition is_ascii (c : Z) : bool := in_range 0 127 c.
Definition ascii_isupper (c : Z) : bool := in_range 65 90 c.
Definition ascii_islower (c : Z) : bool := in_range 97 122 c.
Definition ascii_isdigit (c : Z) : bool := in_range 48 57 c.
Definition ascii_isalnum (c : Z) : bool :=
  ascii_isupper c || ascii_islower c || ascii_isdigit c.
Definition ascii_lower (c : Z) : Z := if ascii_isupper c then c + 32 else c.

(** [Py_UNICODE_ISSPACE]: the code points [str.isspace] accepts. *)
Definition isspace (c : Z) : bool :=
  in_range 0x09 0x0D c || in_range 0x1C 0x20 c
  || (c =? 0x85) || (c =? 0xA0) || (c =? 0x1680)
  || in_range 0x2000 0x200A c || (c =? 0x2028) || (c =? 0x2029)
  || (c =? 0x202F) || (c =? 0x205F) || (c =? 0x3000).

(** What is taken from the interpreter as given: the part of its Unicode
    database the scripts reach through [re], [str.lower] and [float] for
    code points above ASCII, and the shortest round-trip [repr] of a
    float. *)
Record runtime := {
  ucd_isalnum : Z -> bool;        (* Py_UNICODE_ISALNUM *)
  ucd_lower : str -> str;         (* str.lower() of a string that is not pure ASCII *)
  ucd_decimal : Z -> option Z;    (* Py_UNICODE_TODECIMAL *)
  float_repr : spec_float -> str  (* repr(x) of a float *)
}.

(** A runtime whose Unicode database stops at the Latin-1 supplement
    (U+0080..U+00FF), for evaluations on concrete text; such evaluations
    never print a float through [repr]. *)
Definition latin1_isalnum (c : Z) : bool :=
  (c =? 0xAA) || (c =? 0xB2) || (c =? 0xB3) || (c =? 0xB5) || (c =? 0xB9)
  || (c =? 0xBA) || in_range 0xBC 0xBE c
  || in_range 0xC0 0xD6 c || in_range 0xD8 0xF6 c || in_range 0xF8 0xFF c.
Definition latin1_lower_char (c : Z) : Z :=
  if ascii_isupper c || in_range 0xC0 0xD6 c || in_range 0xD8 0xDE c
  then c + 32 else c.
Definition latin1_runtime : runtime :=
  {| ucd_isalnum := latin1_isalnum;
     ucd_lower := map latin1_lower_char;
     ucd_decimal := fun _ => None;
     float_repr := fun _ => [] |}.

(** ** Python string primitives *)

Fixpoint lstrip_with (p : Z -> bool) (s : str) : str :=
  match s with
  | [] => []
  | c :: r => if p c then lstrip_with p r else s
  end.

Fixpoint rstrip_with (p : Z -> bool) (s : str) : str :=
  match s with
  | [] => []
  | c :: r =>
      match rstrip_with p r with
      | [] => if p c then [] else [c]
      | r' => c :: r'
      end
  end.

Definition strip_with (p : Z -> bool) (s : str) : str :=
  rstrip_with p (lstrip_with p s).

(** [s.strip()] *)
Definition py_strip (s : str) : str := strip_with isspace s.

(** membership of a character in the argument of [strip(chars)] *)
Definition char_in (chars : str) (c : Z) : bool := existsb (Z.eqb c) chars.

(** [s.split(sep)] for a one-character separator *)
Fixpoint split_on (sep : Z) (s : str) : list str :=
  match s with
  | [] => [[]]
  | c :: r =>
      if c =? sep then [] :: split_on sep r
      else match split_on sep r with
           | w :: ws => (c :: w) :: ws
           | [] => [[c]]
           end
  end.

(** [s.split()]: the maximal runs of non-whitespace characters *)
Fixpoint split_ws (s : str) : list str :=
  match s with
  | [] => []
  | c :: r =>
      if isspace c then split_ws r
      else match r with
           | [] => [[c]]
           | d :: _ =>
               if isspace d then [c] :: split_ws r
               else match split_ws r with
                    | w :: ws => (c :: w) :: ws
                    | [] => [[c]]
                    end
           end
  end.

(** [sep.join(ws)] *)
Fixpoint join (sep : str) (ws : list str) : str :=
  match ws with
  | [] => []
  | [w] => w
  | w :: rest => w ++ sep ++ join sep rest
  end.

(** [l[:n]], with Python's reading of a negative bound *)
Definition slice_to {A} (n : Z) (l : list A) : list A :=
  if n <? 0 then take (length l - Z.to_nat (- n)) l
  else take (Z.to_nat n) l.

(** [s.lower()]: CPython lowers a pure-ASCII string byte by byte and
    otherwise goes through the Unicode database. *)
Definition str_lower (U : runtime) (s : str) : str :=
  if forallb is_ascii s then map ascii_lower s else ucd_lower U s.

(** [s.startswith(p)] *)
Fixpoint startswith (p s : str) : bool :=
  match p, s with
  | [], _ => true
  | _ :: _, [] => false
  | a :: p', b :: s' => (a =? b) && startswith p' s'
  end.

(** ** Regular expressions used by the scripts *)

(** [\w] of a [str] pattern *)
Definition is_word (U : runtime) (c : Z) : bool :=
  (if is_ascii c then ascii_isalnum c else ucd_isalnum U c) || (c =? 95).

(** What [re.sub(r"X{min,}", rep, s)] replaces a maximal run of [X] by:
    [rep] when the run is long enough to match, the run itself otherwise.
    [run] holds the pending run, latest character first. *)
Definition flush_run (min : nat) (rep run : str) : str :=
  match run with
  | [] => []
  | _ => if (min <=? length run)%nat then rep else rev run
  end.

(** [re.sub(r"X{min,}", rep, s)] for a one-character class [X] (given as
    the test [p]) and [min >= 1]: the leftmost greedy matches are exactly
    the maximal runs of [X] of length at least [min]. *)
Fixpoint re_sub_runs (p : Z -> bool) (min : nat) (rep run s : str) : str :=
  match s with
  | [] => flush_run min rep run
  | c :: r =>
      if p c then re_sub_runs p min rep (c :: run) r
      else flush_run min rep run ++ c :: re_sub_runs p min rep [] r
  end.

Definition is_dash (c : Z) : bool := c =? 45.

(** ** download_images_by_product.py *)

Definition TARGET_W : Z := 800.
Definition TARGET_H : Z := 800.

(** [short_title_slug(title, max_words, max_len)]: first the value of
    [slug] when the last line is reached, then [slug or "product"] *)
Definition cleaned_slug (U : runtime) (title : str)
    (max_words max_len : Z) : str :=
  let title := py_strip title in
  (* re.sub(r"[^\w\s-]", "", title, flags=re.UNICODE) *)
  let title := List.filter (fun c => is_word U c || isspace c || is_dash c) title in
  (* re.sub(r"\s+", " ", title).strip() *)
  let title := py_strip (re_sub_runs isspace 1 (u " ") [] title) in
  let words := slice_to max_words (split_on 32 title) in
  let slug := str_lower U (join (u "-") words) in
  (* re.sub(r"-{2,}", "-", slug).strip("-") *)
  let slug := strip_with is_dash (re_sub_runs is_dash 2 (u "-") [] slug) in
  rstrip_with is_dash (slice_to max_len slug).

Definition short_title_slug_with (U : runtime) (title : str)
    (max_words max_len : Z) : str :=
  match cleaned_slug U title max_words max_len with
  | [] => u "product"
  | slug => slug
  end.

(** the call with the default arguments [max_words=6, max_len=48] *)
Definition short_title_slug (U : runtime) (title : str) : str :=
  short_title_slug_with U title 6 48.

(** ** Exceptions *)

Inductive exn :=
| ValueError | OverflowError | KeyError | AttributeError
| FileExistsError | NotADirectoryError | IsADirectoryError
| UnicodeDecodeError
| HTTPError | DecodeError.

Inductive result (A : Type) :=
| Ok (a : A)
| Raise (e : exn).
Arguments Ok {A} a.
Arguments Raise {A} e.

#[global] Instance result_ret : MRet result := fun _ a => Ok a.
#[global] Instance result_bind : MBind result := fun _ _ k r =>
  match r with
  | Ok a => k a
  | Raise e => Raise e
  end.

(** ** Numbers as text *)

Fixpoint uint_digits (d : Decimal.uint) : str :=
  match d with
  | Decimal.Nil => []
  | Decimal.D0 d => 48 :: uint_digits d
  | Decimal.D1 d => 49 :: uint_digits d
  | Decimal.D2 d => 50 :: uint_digits d
  | Decimal.D3 d => 51 :: uint_digits d
  | Decimal.D4 d => 52 :: uint_digits d
  | Decimal.D5 d => 53 :: uint_digits d
  | Decimal.D6 d => 54 :: uint_digits d
  | Decimal.D7 d => 55 :: uint_digits d
  | Decimal.D8 d => 56 :: uint_digits d
  | Decimal.D9 d => 57 :: uint_digits d
  end.

(** decimal digits of a natural number, without sign *)
Definition digits_of (n : Z) : str := uint_digits (N.to_uint (Z.to_N n)).

(** [str(n)] for an [int] *)
Definition str_of_int (n : Z) : str :=
  if n <? 0 then 45 :: digits_of (- n) else digits_of n.

(** zero-padding on the left up to [width] characters *)
Definition zfill (width : nat) (s : str) : str :=
  replicate (width - length s) 48 ++ s.

(** [f"{n:03d}"]: sign-aware zero padding to width 3 *)
Definition fmt_03d (n : Z) : str :=
  if n <? 0 then 45 :: zfill 2 (digits_of (- n)) else zfill 3 (digits_of n).

(** ** Floats

    A Python [float] is an IEEE 754 binary64 value, here a [spec_float]
    with precision 53 and maximal exponent 1024. *)

Definition prec64 : Z := 53.
Definition emax64 : Z := 1024.

(** the binary64 nearest to [m * 10^e10] (ties to even), as [strtod]
    computes it *)
Definition decimal_to_double (neg : bool) (m e10 : Z) : spec_float :=
  if m =? 0 then S754_zero neg
  else
    let num := m * 10 ^ Z.max e10 0 in
    let den := 10 ^ Z.max (- e10) 0 in
    let '(q, e', loc) := SFdiv_core_binary prec64 emax64 num 0 den 0 in
    binary_round_aux prec64 emax64 neg q e' loc.

(** [float(n)] for an [int]: nearest binary64, [OverflowError] beyond
    the finite range *)
Definition float_of_int (n : Z) : result spec_float :=
  match binary_normalize prec64 emax64 n 0 false with
  | S754_infinity _ => Raise OverflowError
  | f => Ok f
  end.

Fixpoint take_digits (s : str) : str * str :=
  match s with
  | [] => ([], [])
  | c :: r =>
      if ascii_isdigit c then let '(d, rest) := take_digits r in (c :: d, rest)
      else ([], s)
  end.

Definition digits_value (d : str) : Z :=
  fold_left (fun acc c => 10 * acc + (c - 48)) d 0.

Definition take_sign (s : str) : bool * str :=
  match s with
  | 45 :: r => (true, r)
  | 43 :: r => (false, r)
  | _ => (false, s)
  end.

(** the optional exponent part [[eE][+-]?[0-9]+]; when it is malformed
    nothing is consumed *)
Definition take_exponent (s : str) : Z * str :=
  match s with
  | c :: r =>
      if (c =? 101) || (c =? 69) then
        let '(neg, r1) := take_sign r in
        let '(d, r2) := take_digits r1 in
        match d with
        | [] => (0, s)
        | _ => ((if neg then - digits_value d else digits_value d), r2)
        end
      else (0, s)
  | [] => (0, s)
  end.

(** [_PyOS_ascii_strtod] demanding that the whole text is consumed:
    a sign, then [inf], [infinity] or [nan] in any case, or a decimal
    literal with an optional exponent. *)
Definition strtod_full (s : str) : option spec_float :=
  let '(neg, r) := take_sign s in
  let low := map ascii_lower r in
  if bool_decide (low = u "inf") || bool_decide (low = u "infinity")
  then Some (S754_infinity neg)
  else if bool_decide (low = u "nan") then Some S754_nan
  else
    let '(ip, r1) := take_digits r in
    let '(fp, r2) :=
      match r1 with
      | 46 :: r1' => take_digits r1'
      | _ => ([], r1)
      end in
    match ip ++ fp with
    | [] => None
    | mant =>
        let '(ex, r3) := take_exponent r2 in
        match r3 with
        | [] => Some (decimal_to_double neg (digits_value mant)
                        (ex - Z.of_nat (length fp)))
        | _ => None
        end
    end.

(** Underscores of a numeric literal: each must stand between two
    digits; they are dropped. [prev] is the previous character. *)
Fixpoint drop_underscores (prev : Z) (s : str) : option str :=
  match s with
  | [] => if prev =? 95 then None else Some []
  | c :: r =>
      if c =? 95 then
        if ascii_isdigit prev then drop_underscores c r else None
      else if (prev =? 95) && negb (ascii_isdigit c) then None
      else option_map (cons c) (drop_underscores c r)
  end.

(** [_PyUnicode_TransformDecimalAndSpaceToASCII] on a string that is not
    pure ASCII; the text is cut after the first character that is
    neither a space nor a decimal digit. *)
Fixpoint transform_decimal_and_space (U : runtime) (s : str) : str :=
  match s with
  | [] => []
  | c :: r =>
      if c <? 127 then c :: transform_decimal_and_space U r
      else if isspace c then 32 :: transform_decimal_and_space U r
      else match ucd_decimal U c with
           | Some d => (48 + d) :: transform_decimal_and_space U r
           | None => [63]
           end
  end.

(** [Py_ISSPACE] *)
Definition ascii_isspace (c : Z) : bool := in_range 9 13 c || (c =? 32).

(** [float(s)] for a [str]; [None] stands for [ValueError] *)
Definition float_of_str (U : runtime) (s : str) : option spec_float :=
  let a := if forallb is_ascii s then s else transform_decimal_and_space U s in
  let a := strip_with ascii_isspace a in
  if existsb (Z.eqb 95) a then
    match drop_underscores 0 a with
    | Some a' => strtod_full a'
    | None => None
    end
  else strtod_full a.

(** the nearest integer to [num / den], ties to even, for [den > 0] *)
Definition div_round_half_even (num den : Z) : Z :=
  let q := num / den in
  let r := num mod den in
  if (2 * r >? den) || ((2 * r =? den) && Z.odd q) then q + 1 else q.

(** [d+.dd] for the non-negative number of hundredths [n] *)
Definition fixed2 (n : Z) : str :=
  digits_of (n / 100) ++ [46] ++ zfill 2 (digits_of (n mod 100)).

(** [format(x, ".2f")]: the exact binary value rounded to hundredths,
    ties to even *)
Definition format_2f (x : spec_float) : str :=
  match x with
  | S754_nan => u "nan"
  | S754_infinity s => if s then u "-inf" else u "inf"
  | S754_zero s => (if s then [45] else []) ++ fixed2 0
  | S754_finite s m e =>
      let n := if 0 <=? e then Z.pos m * 2 ^ e * 100
               else div_round_half_even (Z.pos m * 100) (2 ^ (- e)) in
      (if s then [45] else []) ++ fixed2 n
  end.

(** ** export_product_metadata.py *)

(** The values a sheet record holds: [record.get] gives [None] for an
    absent column, a cell is text or, when numeric, an [int] or [float]. *)
Inductive pyval :=
| PNone
| PStr (s : str)
| PInt (n : Z)
| PFloat (x : spec_float).

(** truth value of a Python object *)
Definition truthy (v : pyval) : bool :=
  match v with
  | PNone => false
  | PStr s => negb (bool_decide (s = []))
  | PInt n => negb (n =? 0)
  | PFloat (S754_zero _) => false
  | PFloat _ => true
  end.

Definition ELLIPSIS : Z := 0x2026.
Definition POUND : Z := 0xA3.

(** the loop of [trim_to_length] *)
Fixpoint trim_words (limit : Z) (words trimmed : list str) (total : Z)
    : list str :=
  match words with
  | [] => trimmed
  | word :: rest =>
      let extra :=
        match trimmed with
        | [] => Z.of_nat (length word)
        | _ => Z.of_nat (length word) + 1
        end in
      if total + extra >? limit - 1 then trimmed
      else trim_words limit rest (trimmed ++ [word]) (total + extra)
  end.

Definition trim_to_length (text : str) (limit : Z) : str :=
  let text := py_strip text in
  if Z.of_nat (length text) <=? limit then text
  else
    let trimmed := trim_words limit (split_ws text) [] 0 in
    rstrip_with (char_in (u ",.;:-")) (join (u " ") trimmed) ++ [ELLIPSIS].

(** [normalise_price(value)]; a huge [int] cannot be formatted as a
    float and raises *)
Definition normalise_price (U : runtime) (value : pyval) : result str :=
  if negb (truthy value) then Ok []
  else
    match value with
    | PInt n => x ← float_of_int n; Ok (POUND :: format_2f x)
    | PFloat x => Ok (POUND :: format_2f x)
    | PNone => Ok []
    | PStr s =>
        let value := py_strip s in
        match value with
        | [] => Ok []
        | _ =>
            if startswith [POUND] value then Ok value
            else match float_of_str U value with
                 | Some x => Ok (POUND :: format_2f x)
                 | None => Ok value
                 end
        end
    end.

Definition STOP_WORDS : gset str :=
  list_to_set
    [u "the"; u "and"; u "with"; u "for"; u "from"; u "into"; u "your";
     u "this"; u "that"; u "a"; u "an"; u "of"; u "to"; u "on"; u "ml";
     u "pack"; u "set"].

Definition GENDER_KEYWORDS : list (str * str) :=
  [(u "women", u "Women"); (u "woman", u "Women"); (u "ladies", u "Women");
   (u "female", u "Women"); (u "girls", u "Women"); (u "men", u "Men");
   (u "man's", u "Men"); (u "male", u "Men"); (u "boys", u "Men");
   (u "kids", u "Unisex"); (u "children", u "Unisex");
   (u "unisex", u "Unisex")].

(** [re.findall(r"X+", s)] for a one-character class [X]: the maximal
    runs of [X]; [run] holds the pending run, latest character first. *)
Definition emit_run (run : str) : list str :=
  match run with
  | [] => []
  | _ => [rev run]
  end.

Fixpoint findall_runs (p : Z -> bool) (run s : str) : list str :=
  match s with
  | [] => emit_run run
  | c :: r =>
      if p c then findall_runs p (c :: run) r
      else emit_run run ++ findall_runs p [] r
  end.

(** the class [[A-Za-z0-9']] *)
Definition is_token_char (c : Z) : bool := ascii_isalnum c || (c =? 39).

(** the loop of [build_keywords] over the tokens *)
Fixpoint keywords_loop (U : runtime) (tokens keywords : list str)
    (seen : gset str) : list str :=
  match tokens with
  | [] => keywords
  | token :: rest =>
      let normalised := str_lower U token in
      if bool_decide (normalised ∈ STOP_WORDS)
         || (length normalised <=? 2)%nat
      then keywords_loop U rest keywords seen
      else if bool_decide (normalised ∉ seen)
      then keywords_loop U rest (keywords ++ [normalised])
             ({[normalised]} ∪ seen)
      else keywords_loop U rest keywords seen
  end.

(** the list [keywords[:15]] that [build_keywords] joins *)
Definition build_keywords_list (U : runtime) (title brand category : str)
    : list str :=
  let tokens :=
    findall_runs is_token_char []
      (brand ++ u " " ++ title ++ u " " ++ category) in
  slice_to 15 (keywords_loop U tokens [] ∅).

Definition build_keywords (U : runtime) (title brand category : str) : str :=
  join (u ", ") (build_keywords_list U title brand category).

(** [\w] at an optional position; outside the text there is no word
    character *)
Definition word_at (U : runtime) (o : option Z) : bool :=
  match o with
  | Some c => is_word U c
  | None => false
  end.

(** [\b] between the character before and the character after *)
Definition boundary (U : runtime) (before after : option Z) : bool :=
  xorb (word_at U before) (word_at U after).

(** matching the literal [pat] at the head of [s]: the last character
    consumed (or [before] when [pat] is empty) and the rest of [s] *)
Fixpoint match_literal (pat : str) (before : option Z) (s : str)
    : option (option Z * str) :=
  match pat with
  | [] => Some (before, s)
  | a :: pat' =>
      match s with
      | b :: s' => if a =? b then match_literal pat' (Some b) s' else None
      | [] => None
      end
  end.

(** does [\b pat \b] match where [s] starts, [before] coming just before *)
Definition word_match_here (U : runtime) (pat : str) (before : option Z)
    (s : str) : bool :=
  boundary U before (head s)
  && match match_literal pat before s with
     | Some (last, rest) => boundary U last (head rest)
     | None => false
     end.

(** [re.search(rf"\b{re.escape(token)}\b", s)] found a match: some
    position of [s] matches *)
Fixpoint word_search_from (U : runtime) (pat : str) (before : option Z)
    (s : str) : bool :=
  word_match_here U pat before s
  || match s with
     | [] => false
     | c :: r => word_search_from U pat (Some c) r
     end.

Definition word_search (U : runtime) (token s : str) : bool :=
  word_search_from U token None s.

(** the loop of [detect_gender] over the keyword table *)
Fixpoint detect_gender_loop (U : runtime) (table : list (str * str))
    (lower : str) : str :=
  match table with
  | [] => u "Unisex"
  | (token, gender) :: rest =>
      if word_search U token lower then gender
      else detect_gender_loop U rest lower
  end.

Definition detect_gender (U : runtime) (title : str) : str :=
  detect_gender_loop U GENDER_KEYWORDS (str_lower U title).

Definition str_nonempty (s : str) : bool :=
  match s with
  | [] => false
  | _ => true
  end.

(** [a or b] on text *)
Definition str_or (a b : str) : str := if str_nonempty a then a else b.

Definition compose_short_description (title brand category price : str)
    : str :=
  let parts :=
    [py_strip (brand ++ u " " ++ title);
     py_strip (category ++ u " essential")] in
  let parts :=
    if str_nonempty price then parts ++ [u "Priced at " ++ price]
    else parts in
  join (u " | ") (List.filter str_nonempty parts).

Definition EM_DASH : Z := 0x2014.

Definition compose_long_description (U : runtime)
    (title brand category rating asin : str) : str :=
  let lines :=
    [u "Experience " ++ title ++ u " from " ++ brand ++ [EM_DASH]
       ++ u "a trusted " ++ str_lower U category ++ u " favourite."] in
  let lines :=
    if str_nonempty rating
    then lines ++ [u "Customers rate it " ++ rating
                     ++ u " out of 5 for quality and results."]
    else lines in
  let lines :=
    lines ++ [u "Perfect for Amazon FBA listings with reliable performance data."] in
  let lines := if str_nonempty asin then lines ++ [u "ASIN: " ++ asin] else lines in
  join (u " ") lines.

(** a sheet record: column name to cell value *)
Abbreviation record := (gmap str pyval).

(** [record.get(key)] *)
Definition record_get (r : record) (key : str) : pyval :=
  default PNone (r !! key).

(** [record.get(key, "")] *)
Definition record_get_str (r : record) (key : str) : pyval :=
  default (PStr []) (r !! key).

Definition KEY_BUY_BOX : str := u "Buy Box " ++ [0x1F69A] ++ u ": Current".

(** [best_price]: the first non-empty normalised price, evaluated left
    to right *)
Definition best_price (U : runtime) (r : record) : result str :=
  a ← normalise_price U (record_get r KEY_BUY_BOX);
  if str_nonempty a then Ok a
  else
    b ← normalise_price U (record_get r (u "New: Current"));
    if str_nonempty b then Ok b
    else normalise_price U (record_get r (u "List Price: Current")).

(** the non-empty trimmed entries of a semicolon-separated field *)
Definition nonempty_parts (raw : str) : list str :=
  List.filter str_nonempty (map py_strip (split_on 59 raw)).

(** [extract_main_image]; a numeric cell has no [split] *)
Definition extract_main_image (r : record) : result str :=
  let raw := record_get_str r (u "Image") in
  if negb (truthy raw) then Ok []
  else
    match raw with
    | PStr s => Ok (default [] (head (nonempty_parts s)))
    | _ => Raise AttributeError
    end.

Definition _as_str (U : runtime) (value : pyval) : str :=
  match value with
  | PNone => []
  | PStr s => s
  | PInt n => str_of_int n
  | PFloat x => float_repr U x
  end.

(** an output row: the dictionary literal of [build_rows], in
    construction order *)
Abbreviation row := (list (str * str)).

Definition make_row (U : runtime) (title brand category price rating asin
    slug main_image_url : str) : row :=
  [(u "Product Title", title);
   (u "SEO Title (<=60)", trim_to_length title 60);
   (u "Meta Description (<=160)",
     trim_to_length
       (u "Shop " ++ title ++ u " by " ++ brand ++ u ", a standout in "
          ++ str_lower U category ++ u " on Amazon. "
          ++ u "Great choice for FBA sellers seeking steady demand.") 160);
   (u "Short Description",
     compose_short_description title brand category price);
   (u "Long Description",
     compose_long_description U title brand category rating asin);
   (u "Keywords", build_keywords U title brand category);
   (u "Category (Suggested)", category);
   (u "Target Gender", detect_gender U title);
   (u "Brand", brand);
   (u "Image Folder", u "images/" ++ slug);
   (u "Main Image File", u "1.webp");
   (u "Price", price);
   (u "Main Image Source", main_image_url)].

(** the body of the loop of [build_rows] for a record with a title *)
Definition build_row (U : runtime) (r : record) (title : str) : result row :=
  let brand :=
    str_or (py_strip (_as_str U (record_get_str r (u "Brand")))) (u "Unknown") in
  let category :=
    str_or (py_strip (_as_str U (record_get_str r (u "Categories: Root"))))
      (u "General") in
  price ← best_price U r;
  let rating := py_strip (_as_str U (record_get_str r (u "Reviews: Rating"))) in
  let asin := py_strip (_as_str U (record_get_str r (u "ASIN"))) in
  let slug := short_title_slug U title in
  main_image_url ← extract_main_image r;
  Ok (make_row U title brand category price rating asin slug main_image_url).

Fixpoint build_rows (U : runtime) (records : list record) : result (list row) :=
  match records with
  | [] => Ok []
  | r :: rest =>
      let title := py_strip (_as_str U (record_get_str r (u "Title"))) in
      if str_nonempty title then
        x ← build_row U r title;
        rows ← build_rows U rest;
        Ok (x :: rows)
      else build_rows U rest
  end.

(** *** The spreadsheet *)

Record worksheet := {
  ws_rows : Z;
  ws_cols : Z;
  ws_cells : list (list str)
}.

(** the calls made on the spreadsheet service *)
Inductive api_call :=
| CallWorksheet (title : str)
| CallAddWorksheet (title : str) (rows cols : Z)
| CallClear (title : str)
| CallResize (title : str) (rows cols : Z)
| CallUpdate (title : str) (range : str) (data : list (list str)).

Record spreadsheet := {
  ss_sheets : gmap str worksheet;
  ss_calls : list api_call
}.

Definition OUTPUT_WORKSHEET_NAME : str := u "Product Metadata".

Definition log_call (c : api_call) (ss : spreadsheet) : spreadsheet :=
  {| ss_sheets := ss_sheets ss; ss_calls := ss_calls ss ++ [c] |}.

Definition set_sheet (title : str) (ws : worksheet) (ss : spreadsheet)
    : spreadsheet :=
  {| ss_sheets := <[title := ws]> (ss_sheets ss); ss_calls := ss_calls ss |}.

(** [worksheet.clear()] *)
Definition ws_clear (ws : worksheet) : worksheet :=
  {| ws_rows := ws_rows ws; ws_cols := ws_cols ws; ws_cells := [] |}.

(** [worksheet.resize(rows, cols)] *)
Definition ws_resize (rows cols : Z) (ws : worksheet) : worksheet :=
  {| ws_rows := rows; ws_cols := cols;
     ws_cells := map (take (Z.to_nat cols)) (take (Z.to_nat rows) (ws_cells ws)) |}.

(** writing a grid over the cells from the top-left corner *)
Fixpoint overlay (data cells : list (list str)) : list (list str) :=
  match data with
  | [] => cells
  | r :: data' =>
      match cells with
      | [] => r :: overlay data' []
      | c :: cells' => (r ++ drop (length r) c) :: overlay data' cells'
      end
  end.

(** [worksheet.update("A1", data)] *)
Definition ws_update_A1 (data : list (list str)) (ws : worksheet) : worksheet :=
  {| ws_rows := ws_rows ws; ws_cols := ws_cols ws;
     ws_cells := overlay data (ws_cells ws) |}.

(** [row[h]] on a dictionary *)
Fixpoint dict_get (d : row) (key : str) : result str :=
  match d with
  | [] => Raise KeyError
  | (k, v) :: d' => if bool_decide (k = key) then Ok v else dict_get d' key
  end.

(** [[row[h] for h in headers]] *)
Definition row_values (headers : list str) (d : row) : result (list str) :=
  mapM (dict_get d) headers.

(** [push_to_sheet], the service calls themselves succeeding; the
    spreadsheet comes back with the outcome *)
Definition push_to_sheet (ss : spreadsheet) (rows : list row)
    : spreadsheet * result unit :=
  match rows with
  | [] => (ss, Raise ValueError)
  | first :: _ =>
      let headers := map fst first in
      match mapM (row_values headers) rows with
      | Raise e => (ss, Raise e)
      | Ok body =>
          let data := headers :: body in
          let name := OUTPUT_WORKSHEET_NAME in
          let ss := log_call (CallWorksheet name) ss in
          let '(ss, ws) :=
            match ss_sheets ss !! name with
            | Some ws => (ss, ws)
            | None =>
                let rows := Z.of_nat (length data) + 20 in
                let cols := Z.of_nat (length headers) + 5 in
                let ws := {| ws_rows := rows; ws_cols := cols; ws_cells := [] |} in
                (set_sheet name ws (log_call (CallAddWorksheet name rows cols) ss), ws)
            end in
          let ws := ws_clear ws in
          let ss := set_sheet name ws (log_call (CallClear name) ss) in
          let rows := Z.of_nat (length data) in
          let cols := Z.of_nat (length headers) in
          let ws := ws_resize rows cols ws in
          let ss := set_sheet name ws (log_call (CallResize name rows cols) ss) in
          let ws := ws_update_A1 data ws in
          let ss := set_sheet name ws (log_call (CallUpdate name (u "A1") data) ss) in
          (ss, Ok tt)
      end
  end.

(** ** download_images_by_product.py: images and folders *)

Definition rgb : Type := Z * Z * Z.
Definition WHITE : rgb := (255, 255, 255).

(** an image in memory: its size and its pixels *)
Record image := {
  im_width : Z;
  im_height : Z;
  im_px : Z -> Z -> rgb
}.

(** The collaborators outside the repository: the HTTP client, the
    decoder and the resampling filter of the imaging library, the text
    of an exception, and the text of a path, which depends on where the
    script is installed and on the platform. *)
Record services := {
  download_bytes : str -> result (list Z);             (* requests.get, raise_for_status, .content *)
  decode_rgb : list Z -> result image;           (* Image.open(BytesIO(b)).convert("RGB") *)
  resample : image -> Z -> Z -> Z -> Z -> rgb;   (* pixels of the resize to (w, h) that thumbnail(..., LANCZOS) performs *)
  describe : exn -> str;                         (* str(e) *)
  path_str : list str -> str                     (* str(BASE_DIR / p) for the components p *)
}.

(** [math.ceil(a / b)] for integers, [b > 0] *)
Definition ceil_div (a b : Z) : Z := - ((- a) / b).

(** *** Binary64 arithmetic of [Image.thumbnail]

    [Image.thumbnail] computes the new size in floats.  Every finite
    binary64 number is an integer multiple of 2^-1074; a float that is
    not negative is held here as that multiple, so that [B64_UNIT] is
    the float 1.0, and comparing two floats is comparing the integers.
    No quotient formed below leaves the finite range of binary64, a
    side of an image being below 2^31. *)
Definition B64_UNIT : Z := 2 ^ 1074.

(** the binary64 nearest to [p / q] units, a tie going to the even
    mantissa, for [p >= 0] and [q > 0]: around a value whose leading bit
    is 2^l units the binary64 numbers are 2^(l - 52) units apart, and one
    unit apart below 2^52 units *)
Definition b64_round (p q : Z) : Z :=
  let g := Z.max (Z.log2 (p / q) - 52) 0 in
  div_round_half_even p (q * 2 ^ g) * 2 ^ g.

(** [float(n)] *)
Definition b64_of_int (n : Z) : Z := b64_round (n * B64_UNIT) 1.
(** [a / b] for two [int], which Python rounds once *)
Definition b64_int_div (a b : Z) : Z := b64_round (a * B64_UNIT) b.
(** [x * y] and [x / y] for two floats *)
Definition b64_mul (x y : Z) : Z := b64_round (x * y) B64_UNIT.
Definition b64_div (x y : Z) : Z := b64_round (x * B64_UNIT) y.
(** [abs(x - y)] *)
Definition b64_dist (x y : Z) : Z := b64_round (Z.abs (x - y)) 1.
(** [math.floor(x)] and [math.ceil(x)] *)
Definition b64_floor (x : Z) : Z := x / B64_UNIT.
Definition b64_ceil (x : Z) : Z := ceil_div x B64_UNIT.

(** [round_aspect(number, key)] of [Image.thumbnail]:
    [max(min(math.floor(number), math.ceil(number), key=key), 1)];
    [min] keeps the floor unless the key of the ceiling is smaller *)
Definition round_aspect (number : Z) (key : Z -> Z) : Z :=
  let lo := b64_floor number in
  let hi := b64_ceil number in
  Z.max (if key hi <? key lo then hi else lo) 1.

(** The size [Image.thumbnail((x, y))] gives an image of size [w] by
    [h], after Pillow's [preserve_aspect_ratio]: [None] when the image
    already fits; else, with [aspect = w / h], the width becomes
    [round_aspect(y * aspect, key=lambda n: abs(aspect - n / y))] when
    [x / y >= aspect] and otherwise the height becomes
    [round_aspect(x / aspect,
                  key=lambda n: 0 if n == 0 else abs(aspect - x / n))]. *)
Definition thumbnail_size (w h x y : Z) : option (Z * Z) :=
  if (x >=? w) && (y >=? h) then None
  else
    let aspect := b64_int_div w h in
    if b64_int_div x y >=? aspect then
      Some (round_aspect (b64_mul (b64_of_int y) aspect)
              (fun n => b64_dist aspect (b64_int_div n y)), y)
    else
      Some (x, round_aspect (b64_div (b64_of_int x) aspect)
                 (fun n => if n =? 0 then 0
                           else b64_dist aspect (b64_int_div x n))).

(** [img.thumbnail((x, y), Image.LANCZOS)] *)
Definition thumbnail (S : services) (img : image) (x y : Z) : image :=
  match thumbnail_size (im_width img) (im_height img) x y with
  | None => img
  | Some (w', h') =>
      if (w' =? im_width img) && (h' =? im_height img) then img
      else {| im_width := w'; im_height := h'; im_px := resample S img w' h' |}
  end.

(** [Image.new("RGB", (w, h), colour)] *)
Definition new_image (w h : Z) (colour : rgb) : image :=
  {| im_width := w; im_height := h; im_px := fun _ _ => colour |}.

(** [canvas.paste(img, (x, y))] *)
Definition paste (canvas img : image) (x y : Z) : image :=
  {| im_width := im_width canvas;
     im_height := im_height canvas;
     im_px := fun i j =>
       if in_range x (x + im_width img - 1) i
          && in_range y (y + im_height img - 1) j
       then im_px img (i - x) (j - y)
       else im_px canvas i j |}.

(** where [to_exact_canvas_webp] pastes an image of size [w] by [h] *)
Definition paste_offset (w h : Z) : Z * Z :=
  ((TARGET_W - w) / 2, (TARGET_H - h) / 2).

(** the canvas [to_exact_canvas_webp] saves for a decoded image *)
Definition compose_canvas (S : services) (decoded : image) : image :=
  let img := thumbnail S decoded TARGET_W TARGET_H in
  let canvas := new_image TARGET_W TARGET_H WHITE in
  let '(x, y) := paste_offset (im_width img) (im_height img) in
  paste canvas img x y.

(** *** The file system *)

(** a path is its list of components below the script directory *)
Abbreviation path := (list str).

Inductive node :=
| Dir
| File (content : image).

Abbreviation filesystem := (gmap path node).

(** [root / name] *)
Definition joinpath (root : path) (name : str) : path := root ++ [name].

(** [p.parent] *)
Definition parent (p : path) : path := removelast p.

(** [p.exists()] *)
Definition path_exists (fs : filesystem) (p : path) : bool :=
  bool_decide (is_Some (fs !! p)).

(** the POSIX text of a relative path *)
Definition path_text (p : path) : str := join (u "/") p.

(** [p.mkdir(parents=True, exist_ok=True)]: [made] is the prefix already
    walked *)
Fixpoint mkdir_from (fs : filesystem) (made todo : path) : result filesystem :=
  match todo with
  | [] => Ok fs
  | c :: rest =>
      let p := made ++ [c] in
      match fs !! p with
      | Some (File _) =>
          Raise (match rest with [] => FileExistsError | _ => NotADirectoryError end)
      | Some Dir => mkdir_from fs p rest
      | None => mkdir_from (<[p := Dir]> fs) p rest
      end
  end.

Definition mkdir_p (fs : filesystem) (p : path) : result filesystem :=
  mkdir_from fs [] p.

(** [canvas.save(dest_path, "WEBP", quality=85)]; the stored file is
    represented by the canvas it encodes *)
Definition save_image (fs : filesystem) (dest : path) (canvas : image)
    : result filesystem :=
  match fs !! dest with
  | Some Dir => Raise IsADirectoryError
  | _ => Ok (<[dest := File canvas]> fs)
  end.

Definition to_exact_canvas_webp (S : services) (fs : filesystem)
    (img_bytes : list Z) (dest_path : path) : result filesystem :=
  decoded ← decode_rgb S img_bytes;
  let canvas := compose_canvas S decoded in
  fs ← mkdir_p fs (parent dest_path);
  save_image fs dest_path canvas.

(** the [while] loop of [ensure_unique_folder]; [None] when it has not
    stopped within [fuel] probes *)
Fixpoint probe (fuel : nat) (fs : filesystem) (root : path) (base_slug : str)
    (attempt : Z) (candidate : path) : option path :=
  match fuel with
  | O => None
  | S fuel' =>
      if path_exists fs candidate then
        let attempt := attempt + 1 in
        probe fuel' fs root base_slug attempt
          (joinpath root (base_slug ++ u "-" ++ str_of_int attempt))
      else Some candidate
  end.

(** [ensure_unique_folder(root, base_slug)] on the file system [fs]:
    one probe more than there are paths always suffices *)
Definition ensure_unique_folder (fs : filesystem) (root : path)
    (base_slug : str) : option path :=
  probe (S (size fs)) fs root base_slug 1 (joinpath root base_slug).

(** *** Processing the input lines *)

Definition OUT_ROOT : path := [u "images"].

(** what the run can observe and change: the files, and what was printed *)
Record world := {
  w_fs : filesystem;
  w_out : list str
}.

Definition print (msg : str) (w : world) : world :=
  {| w_fs := w_fs w; w_out := w_out w ++ [msg] |}.

Definition with_fs (fs : filesystem) (w : world) : world :=
  {| w_fs := fs; w_out := w_out w |}.

(** [line.split("\t", 1)] when the separator occurs *)
Fixpoint split_first (sep : Z) (s : str) : option (str * str) :=
  match s with
  | [] => None
  | c :: r =>
      if c =? sep then Some ([], r)
      else match split_first sep r with
           | Some (a, b) => Some (c :: a, b)
           | None => None
           end
  end.

(** the two halves of an input line *)
Definition parse_line (line : str) (idx : Z) : str * str :=
  match split_first 9 line with
  | Some (urls_part, title) => (urls_part, title)
  | None => (line, u "product-" ++ fmt_03d idx)
  end.

(** the body of the [try] for one URL *)
Definition fetch_one (S : services) (fs : filesystem) (out_dir : path)
    (i : Z) (url : str) : result (filesystem * path) :=
  img_bytes ← download_bytes S url;
  let webp_path := joinpath out_dir (str_of_int i ++ u ".webp") in
  fs ← to_exact_canvas_webp S fs img_bytes webp_path;
  Ok (fs, webp_path).

(** the [for] loop over the URLs, from index [i]; every exception of
    the body is caught and reported *)
Fixpoint fetch_all (S : services) (w : world) (out_dir : path) (i : Z)
    (urls : list str) : world :=
  match urls with
  | [] => w
  | url :: rest =>
      let w :=
        match fetch_one S (w_fs w) out_dir i url with
        | Ok (fs, webp_path) =>
            print ([0x2705] ++ u " " ++ path_str S webp_path) (with_fs fs w)
        | Raise e =>
            print ([0x274C] ++ u " " ++ url ++ u " -> " ++ describe S e) w
        end in
      fetch_all S w out_dir (i + 1) rest
  end.

(** the warning for a line without URLs *)
Definition no_urls_warning (idx : Z) : str :=
  [0x26A0; 0xFE0F] ++ u "  Line " ++ str_of_int idx
    ++ u ": no URLs found, skipping.".

(** [process_line(line, idx)]: the world afterwards and whether the call
    returned or raised; [None] if probing for a folder has not stopped *)
Definition process_line (S : services) (U : runtime) (w : world)
    (line : str) (idx : Z) : option (world * result unit) :=
  let '(urls_part, title) := parse_line line idx in
  let slug := short_title_slug U title in
  match ensure_unique_folder (w_fs w) OUT_ROOT slug with
  | None => None
  | Some out_dir =>
      let urls := nonempty_parts urls_part in
      match urls with
      | [] =>
          Some (print (no_urls_warning idx) w, Ok tt)
      | _ =>
          let w :=
            print (u (String "010" "") ++ [0x1F4E6] ++ u " " ++ py_strip title
                     ++ u "  " ++ [0x2192] ++ u "  " ++ default [] (last out_dir)
                     ++ u "  (" ++ str_of_int (Z.of_nat (length urls))
                     ++ u " image(s))") w in
          match mkdir_p (w_fs w) out_dir with
          | Raise e => Some (w, Raise e)
          | Ok fs => Some (fetch_all S (with_fs fs w) out_dir 1 urls, Ok tt)
          end
      end
  end.

(** the [for] loop of [main] over the lines, from index [idx]; an
    exception leaving [process_line] ends the run *)
Fixpoint process_lines (S : services) (U : runtime) (w : world)
    (lines : list str) (idx : Z) : option (world * result unit) :=
  match lines with
  | [] => Some (w, Ok tt)
  | line :: rest =>
      match process_line S U w line idx with
      | None => None
      | Some (w, Raise e) => Some (w, Raise e)
      | Some (w, Ok _) => process_lines S U w rest (idx + 1)
      end
  end.


(** *** Reading the input file *)


(** what is found at the path of the input file when something is *)
Inductive input_node :=
| InputDir
| InputBytes (content : list Z).

(** a continuation byte of UTF-8 *)
Definition utf8_cont (b : Z) : bool := in_range 0x80 0xBF b.

(** the range of the second byte after the lead byte [b0] of a sequence
    of three or four bytes: overlong forms, surrogates and code points
    above U+10FFFF are refused *)
Definition utf8_second (b0 b1 : Z) : bool :=
  if b0 =? 0xE0 then in_range 0xA0 0xBF b1
  else if b0 =? 0xED then in_range 0x80 0x9F b1
  else if b0 =? 0xF0 then in_range 0x90 0xBF b1
  else if b0 =? 0xF4 then in_range 0x80 0x8F b1
  else utf8_cont b1.

(** [bytes.decode("utf-8")], strict; [None] stands for
    [UnicodeDecodeError] *)
Fixpoint utf8_decode (b : list Z) : option str :=
  match b with
  | [] => Some []
  | b0 :: r0 =>
      if in_range 0 0x7F b0 then cons b0 <$> utf8_decode r0
      else
        match r0 with
        | [] => None
        | b1 :: r1 =>
            if in_range 0xC2 0xDF b0 then
              if utf8_cont b1
              then cons ((b0 - 0xC0) * 64 + (b1 - 0x80)) <$> utf8_decode r1
              else None
            else
              match r1 with
              | [] => None
              | b2 :: r2 =>
                  if in_range 0xE0 0xEF b0 then
                    if utf8_second b0 b1 && utf8_cont b2
                    then cons ((b0 - 0xE0) * 4096 + (b1 - 0x80) * 64
                               + (b2 - 0x80)) <$> utf8_decode r2
                    else None
                  else
                    match r2 with
                    | [] => None
                    | b3 :: r3 =>
                        if in_range 0xF0 0xF4 b0 && utf8_second b0 b1
                           && utf8_cont b2 && utf8_cont b3
                        then cons ((b0 - 0xF0) * 262144 + (b1 - 0x80) * 4096
                                   + (b2 - 0x80) * 64 + (b3 - 0x80))
                               <$> utf8_decode r3
                        else None
                    end
              end
        end
  end.

(** the translation of line ends a file opened in text mode applies:
    [\r\n] and a lone [\r] become [\n] *)
Fixpoint universal_newlines (s : str) : str :=
  match s with
  | [] => []
  | c :: r =>
      if c =? 13 then
        match r with
        | d :: r' =>
            if d =? 10 then 10 :: universal_newlines r'
            else 10 :: universal_newlines r
        | [] => [10]
        end
      else c :: universal_newlines r
  end.

(** the lines the iteration over a text file yields, each with its line
    end when it has one *)
Fixpoint file_lines (s : str) : list str :=
  match s with
  | [] => []
  | c :: r =>
      if c =? 10 then [10] :: file_lines r
      else match file_lines r with
           | [] => [[c]]
           | l :: ls => (c :: l) :: ls
           end
  end.

(** [open(INPUT_FILE, "r", encoding="utf-8")] and the iteration over
    it *)
Definition read_lines (node : input_node) : result (list str) :=
  match node with
  | InputDir => Raise IsADirectoryError
  | InputBytes content =>
      match utf8_decode content with
      | None => Raise UnicodeDecodeError
      | Some text => Ok (file_lines (universal_newlines text))
      end
  end.


(** ** sheet_reader.py *)

(** a record as the reader walks it: the items of the [dict], in column
    order *)
Abbreviation sheet_record := (list (str * pyval)).

(** [row.get(key, "")] *)
Fixpoint items_get_str (row : sheet_record) (key : str) : pyval :=
  match row with
  | [] => PStr []
  | (k, v) :: rest =>
      if bool_decide (k = key) then v else items_get_str rest key
  end.

(** [v.strip()]; only text has a [strip] *)
Definition val_strip (v : pyval) : result str :=
  match v with
  | PStr s => Ok (py_strip s)
  | _ => Raise AttributeError
  end.

(** [key.lower().startswith("url")] *)
Definition url_column (U : runtime) (key : str) : bool :=
  startswith (u "url") (str_lower U key).

(** the loop over [row.items()] *)
Fixpoint row_urls (U : runtime) (items : sheet_record) : result (list str) :=
  match items with
  | [] => Ok []
  | (key, value) :: rest =>
      if url_column U key && truthy value then
        url ← val_strip value;
        urls ← row_urls U rest;
        Ok (url :: urls)
      else row_urls U rest
  end.

(** the body of the loop over the records: the line a record gives,
    [None] when the record is skipped *)
Definition row_line (U : runtime) (row : sheet_record) : result (option str) :=
  title ← val_strip (items_get_str row (u "Title"));
  urls ← row_urls U row;
  match urls, title with
  | [], _ | _, [] => Ok None
  | _, _ => Ok (Some (join (u ";") urls ++ [9] ++ title))
  end.

(** [load_sheet_rows], from the records the worksheet returned *)
Fixpoint load_sheet_rows (U : runtime) (records : list sheet_record)
    : result (list str) :=
  match records with
  | [] => Ok []
  | row :: rest =>
      line ← row_line U row;
      lines ← load_sheet_rows U rest;
      Ok (match line with Some l => l :: lines | None => lines end)
  end.

(** * Vocabulary of the properties *)

(** no two neighbouring characters of the class [p] *)
Fixpoint no_double (p : Z → bool) (s : str) : Prop :=
  match s with
  | a :: (b :: _) as r => ¬ (p a = true ∧ p b = true) ∧ no_double p r
  | _ => True
  end.

(** a character of the class [[a-z0-9-]] *)
Definition slug_char (c : Z) : bool :=
  ascii_islower c || ascii_isdigit c || is_dash c.

(** the text matches [[a-z0-9-]+] *)
Definition matches_slug_pattern (s : str) : bool :=
  str_nonempty s && forallb slug_char s.

(** the text splits into the tokens: separators without a character of
    the class, then a maximal non-empty run of the class, and so on *)
Inductive token_runs (p : Z → bool) : str → list str → Prop :=
| token_runs_end sep :
    Forall (λ c, p c = false) sep → token_runs p sep []
| token_runs_next sep tok rest toks :
    Forall (λ c, p c = false) sep →
    tok ≠ [] → Forall (λ c, p c = true) tok →
    (∀ c, head rest = Some c → p c = false) →
    token_runs p rest toks →
    token_runs p (sep ++ tok ++ rest) (tok :: toks).

(** deduplication keeping the first occurrence of each element, in the
    order of these first occurrences *)
Fixpoint dedup_first (l : list str) : list str :=
  match l with
  | [] => []
  | x :: r => x :: List.filter (λ y, negb (bool_decide (y = x))) (dedup_first r)
  end.

(** a normalised token that is neither a stop word nor shorter than 3 *)
Definition keep_keyword (k : str) : bool :=
  negb (bool_decide (k ∈ STOP_WORDS)) && (3 <=? length k)%nat.

(** the last character of [l], or [before] when [l] is empty *)
Definition last_or (before : option Z) (l : str) : option Z :=
  match last l with
  | Some c => Some c
  | None => before
  end.

(** [token] occurs in [s] as a whole word: [s] splits around an
    occurrence with a word boundary on either side of it *)
Definition whole_word_in (U : runtime) (token s : str) : Prop :=
  ∃ pre post,
    s = pre ++ token ++ post
    ∧ boundary U (last pre) (head (token ++ post)) = true
    ∧ boundary U (last (pre ++ token)) (head post) = true.

(** the float is a number: neither an infinity nor a NaN *)
Definition is_finite (x : spec_float) : bool :=
  match x with
  | S754_zero _ | S754_finite _ _ _ => true
  | _ => false
  end.

(** the text is an optional minus sign, at least one digit, a point and
    exactly two digits *)
Definition two_decimals (t : str) : bool :=
  let t := match t with 45 :: r => r | _ => t end in
  let '(ip, r) := take_digits t in
  str_nonempty ip
  && match r with
     | [46; d1; d2] => ascii_isdigit d1 && ascii_isdigit d2
     | _ => false
     end.

(** two digits for every number below one hundred *)
Definition two_digits_ok (m : nat) : bool :=
  match zfill 2 (digits_of (Z.of_nat m)) with
  | [a; b] => ascii_isdigit a && ascii_isdigit b
  | _ => false
  end.

(** the folder of the [k]-th product with the slug [base_slug]: the
    slug itself for the first, the slug with the suffix [-k] after *)
Definition numbered_folder (root : path) (base_slug : str) (k : Z) : path :=
  if k =? 1 then joinpath root base_slug
  else joinpath root (base_slug ++ u "-" ++ str_of_int k).

(** the file system after [n] earlier products with the slug: each was
    given its folder by [ensure_unique_folder] and the folder was made *)
Fixpoint after_products (n : nat) (fs : filesystem) (root : path)
    (base_slug : str) : option filesystem :=
  match n with
  | O => Some fs
  | S n' =>
      match after_products n' fs root base_slug with
      | Some fs' =>
          match ensure_unique_folder fs' root base_slug with
          | Some p => Some (<[p := Dir]> fs')
          | None => None
          end
      | None => None
      end
  end.

(** the candidate of the [i]-th test of the loop entered with the
    counter [attempt] and the candidate [c] *)
Definition probe_candidate (root : path) (base_slug : str) (attempt : Z)
    (c : path) (i : nat) : path :=
  match i with
  | O => c
  | S _ => joinpath root (base_slug ++ u "-" ++ str_of_int (attempt + Z.of_nat i))
  end.

(** services for evaluations: the body of a URL is its own text, a
    two-byte body decodes to a black image of that size, and resampling
    takes the nearest pixel *)
Definition sample_services : services :=
  {| download_bytes := λ url, Ok url;
     decode_rgb := λ b,
       match b with
       | [w; h] =>
           if (1 <=? w) && (1 <=? h) then Ok (new_image w h (0, 0, 0))
           else Raise DecodeError
       | _ => Raise DecodeError
       end;
     resample := λ img w h i j,
       im_px img (i * im_width img / w) (j * im_height img / h);
     describe := λ _, u "error";
     path_str := λ p, u "/srv/toolkit/" ++ path_text p |}.

(** every record carries the keys of the first one *)
Definition uniform_rows (rows : list row) : Prop :=
  ∀ first rest, rows = first :: rest →
    Forall (λ d, Forall (λ h, ∃ v, dict_get d h = Ok v) (map fst first)) rows.

(** the title [build_rows] works with *)
Definition record_title (U : runtime) (r : record) : str :=
  py_strip (_as_str U (record_get_str r (u "Title"))).

Definition has_title (U : runtime) (r : record) : bool :=
  str_nonempty (record_title U r).

(** the keys of every row, in construction order *)
Definition ROW_KEYS : list str :=
  [u "Product Title"; u "SEO Title (<=60)"; u "Meta Description (<=160)";
   u "Short Description"; u "Long Description"; u "Keywords";
   u "Category (Suggested)"; u "Target Gender"; u "Brand"; u "Image Folder";
   u "Main Image File"; u "Price"; u "Main Image Source"].

(** a character of the class [[a-z0-9_-]] *)
Definition folder_char (c : Z) : bool :=
  ascii_islower c || ascii_isdigit c || is_dash c || (c =? 95).

(** a cell without a price: [None], zero, empty or blank text *)
Definition blank_cell (v : pyval) : bool :=
  match v with
  | PStr s => negb (str_nonempty (py_strip s))
  | _ => negb (truthy v)
  end.

Definition SPREADSHEET_ID : str := u "1JUn34EdZ98LQznxNswvFTpMTqZrr4Qj0-3hBkfrNqVo".

(** [main()] of [export_product_metadata.py] once [fetch_records] has
    returned the records and the spreadsheet: the spreadsheet
    afterwards, and the line printed or the exception *)
Definition export_main (U : runtime) (ss : spreadsheet)
    (records : list record) : spreadsheet * result str :=
  match build_rows U records with
  | Raise e => (ss, Raise e)
  | Ok rows =>
      match push_to_sheet ss rows with
      | (ss', Raise e) => (ss', Raise e)
      | (ss', Ok _) =>
          (ss',
           Ok ([0x2705] ++ u " Exported " ++ str_of_int (Z.of_nat (length rows))
                 ++ u " product rows to worksheet '" ++ OUTPUT_WORKSHEET_NAME
                 ++ u "' in spreadsheet " ++ SPREADSHEET_ID))
      end
  end.

(** the file the [i]-th image of a product is saved as *)
Definition webp_path (out_dir : path) (i : Z) : path :=
  joinpath out_dir (str_of_int i ++ u ".webp").

(** the decoded image of a URL, or the exception of the download or of
    the decoder *)
Definition fetch_image (S : services) (url : str) : result image :=
  img_bytes ← download_bytes S url; decode_rgb S img_bytes.

(** the line [process_line] prints for the [i]-th URL *)
Definition url_report (S : services) (out_dir : path) (i : Z) (url : str) : str :=
  match fetch_image S url with
  | Ok _ => [0x2705] ++ u " " ++ path_str S (webp_path out_dir i)
  | Raise e => [0x274C] ++ u " " ++ url ++ u " -> " ++ describe S e
  end.

(** the folder [p] and all its ancestors exist as directories *)
Definition dir_chain (fs : filesystem) (p : path) : Prop :=
  ∀ k, (1 ≤ k ≤ length p)%nat → fs !! take k p = Some Dir.

(** nothing exists below a path that does not exist; the empty path is
    the working directory, which has no entry of its own *)
Definition fs_closed (fs : filesystem) : Prop :=
  ∀ p a, p ≠ [] → fs !! p = None → fs !! (p ++ [a]) = None.

(** the title the reader takes from a record *)
Definition row_title (row : sheet_record) : str :=
  match items_get_str row (u "Title") with
  | PStr t => py_strip t
  | _ => []
  end.

(** the URLs the reader takes from a record whose URL cells are text *)
Definition url_cells (U : runtime) (row : sheet_record) : list str :=
  omap (λ kv : str * pyval,
          if url_column U kv.1 && truthy kv.2 then
            match kv.2 with PStr s => Some (py_strip s) | _ => None end
          else None) row.

(** a cell the reader can take: not a filled URL cell, or text without a
    tab or a semicolon inside *)
Definition url_cell_ok (U : runtime) (kv : str * pyval) : bool :=
  negb (url_column U kv.1 && truthy kv.2)
  || match kv.2 with
     | PStr s => forallb (λ c, negb (c =? 9) && negb (c =? 59)) (py_strip s)
     | _ => false
     end.

Definition text_row (U : runtime) (row : sheet_record) : bool :=
  match items_get_str row (u "Title") with PStr _ => true | _ => false end
  && forallb (url_cell_ok U) row.

(** the line of a record of text *)
Definition reader_line (U : runtime) (row : sheet_record) : option str :=
  match url_cells U row, row_title row with
  | [], _ | _, [] => None
  | urls, title => Some (join (u ";") urls ++ [9] ++ title)
  end.

(** * Properties *)

(** ** Stripping, slicing, splitting and joining *)

Lemma lstrip_with_suffix p s : ∃ t, s = t ++ lstrip_with p s.
Proof.
  induction s as [|c r [t IH]]; simpl.
  - by exists [].
  - destruct (p c); [exists (c :: t); simpl; congruence | by exists []].
Qed.

Lemma lstrip_with_head p s c : head (lstrip_with p s) = Some c → p c = false.
Proof.
  induction s as [|a r IH]; simpl; [done|].
  destruct (p a) eqn:E; [done|]. simpl. congruence.
Qed.

Lemma rstrip_with_prefix p s : ∃ t, s = rstrip_with p s ++ t.
Proof.
  induction s as [|c r [t IH]]; simpl.
  - by exists [].
  - destruct (rstrip_with p r) as [|a r'] eqn:E.
    + destruct (p c); [by exists (c :: r)|]. exists t. simpl in *. congruence.
    + exists t. simpl in *. congruence.
Qed.

Lemma rstrip_with_last p s c : last (rstrip_with p s) = Some c → p c = false.
Proof.
  induction s as [|a r IH]; simpl; [done|].
  destruct (rstrip_with p r) as [|b r'] eqn:E.
  - destruct (p a) eqn:Ea; simpl; [done|]. congruence.
  - intros H. apply IH. by rewrite last_cons_cons in H.
Qed.

Lemma rstrip_with_head p s c :
  head (rstrip_with p s) = Some c → head s = Some c.
Proof.
  destruct s as [|a r]; simpl; [done|].
  destruct (rstrip_with p r); [destruct (p a)|]; simpl; congruence.
Qed.

Lemma Forall_lstrip_with (P : Z → Prop) p s :
  Forall P s → Forall P (lstrip_with p s).
Proof.
  destruct (lstrip_with_suffix p s) as [t E]. intros H.
  rewrite E in H. by apply Forall_app in H as [_ H].
Qed.

Lemma Forall_rstrip_with (P : Z → Prop) p s :
  Forall P s → Forall P (rstrip_with p s).
Proof.
  destruct (rstrip_with_prefix p s) as [t E]. intros H.
  rewrite E in H. by apply Forall_app in H as [H _].
Qed.

Lemma Forall_strip_with (P : Z → Prop) p s :
  Forall P s → Forall P (strip_with p s).
Proof. intros. by apply Forall_rstrip_with, Forall_lstrip_with. Qed.

Lemma length_rstrip_with p s : (length (rstrip_with p s) ≤ length s)%nat.
Proof.
  destruct (rstrip_with_prefix p s) as [t E].
  rewrite E at 2. rewrite length_app. lia.
Qed.

Lemma slice_to_prefix {A} n (l : list A) : ∃ t, l = slice_to n l ++ t.
Proof.
  unfold slice_to. destruct (n <? 0); eexists; symmetry; apply take_drop.
Qed.

Lemma Forall_slice_to {A} (P : A → Prop) n l :
  Forall P l → Forall P (slice_to n l).
Proof.
  destruct (slice_to_prefix n l) as [t E]. intros H.
  rewrite E in H. by apply Forall_app in H as [H _].
Qed.

Lemma length_slice_to {A} n (l : list A) :
  0 ≤ n → (length (slice_to n l) ≤ Z.to_nat n)%nat.
Proof.
  intros Hn. unfold slice_to.
  destruct (n <? 0) eqn:E; [lia|]. rewrite length_take. lia.
Qed.

Lemma head_slice_to {A} n (l : list A) c :
  head (slice_to n l) = Some c → head l = Some c.
Proof.
  destruct (slice_to_prefix n l) as [t E]. rewrite E at 2.
  destruct (slice_to n l); simpl; [done|congruence].
Qed.

Lemma split_on_nonempty sep s : split_on sep s ≠ [].
Proof.
  destruct s as [|c r]; simpl; [done|].
  destruct (c =? sep); [done|]. by destruct (split_on sep r).
Qed.

Lemma Forall_split_on (P : Z → Prop) sep s :
  Forall P s → Forall (Forall (λ c, P c ∧ c ≠ sep)) (split_on sep s).
Proof.
  induction 1 as [|c r Hc Hr IH]; simpl.
  - repeat constructor.
  - destruct (Z.eqb_spec c sep) as [->|Hne].
    + by constructor.
    + destruct (split_on sep r) as [|w ws]; [repeat constructor; done|].
      apply Forall_cons in IH as [Hw Hws]. constructor; [|done].
      by constructor.
Qed.

Lemma Forall_join (P : Z → Prop) sep ws :
  Forall P sep → Forall (Forall P) ws → Forall P (join sep ws).
Proof.
  intros Hsep. induction 1 as [|w rest Hw Hrest IH]; simpl; [done|].
  destruct rest; [done|]. rewrite !Forall_app. auto.
Qed.

(** ** Regular-expression substitution *)

Lemma Forall_flush_run (P : Z → Prop) min rep run :
  Forall P rep → Forall P run → Forall P (flush_run min rep run).
Proof.
  intros Hrep Hrun. unfold flush_run. destruct run; [done|].
  destruct (min <=? _)%nat; [done|]. by apply Forall_rev.
Qed.

Lemma Forall_re_sub_runs (P : Z → Prop) p min rep run s :
  Forall P rep → Forall P run → Forall P s →
  Forall P (re_sub_runs p min rep run s).
Proof.
  intros Hrep Hrun Hs. revert run Hrun.
  induction Hs as [|c r Hc Hr IH]; intros run Hrun; simpl.
  - by apply Forall_flush_run.
  - destruct (p c).
    + apply IH. by constructor.
    + rewrite Forall_app. split; [by apply Forall_flush_run|].
      constructor; [done|]. by apply IH.
Qed.

(** With [min = 1] every character of the class is replaced: what is
    left is the replacement and the characters outside the class. *)
Lemma Forall_re_sub_runs_all (P : Z → Prop) p rep run s :
  Forall P rep → Forall (λ c, p c = false → P c) s →
  Forall P (re_sub_runs p 1 rep run s).
Proof.
  intros Hrep Hs. revert run.
  induction Hs as [|c r Hc Hr IH]; intros run; simpl.
  - unfold flush_run. destruct run; [done|]. simpl. done.
  - destruct (p c) eqn:E; [apply IH|].
    rewrite Forall_app. split.
    + unfold flush_run. destruct run; [done|]. simpl. done.
    + constructor; [by apply Hc|]. apply IH.
Qed.

Lemma no_double_app_l p s t : no_double p (s ++ t) → no_double p s.
Proof.
  induction s as [|a [|b r] IH]; simpl; try done.
  intros [H1 H2]. split; [done|]. by apply IH.
Qed.

Lemma no_double_app_r p s t : no_double p (s ++ t) → no_double p t.
Proof.
  induction s as [|a r IH]; simpl; [done|].
  destruct r as [|b r]; simpl in *.
  - destruct t; [done|]. by intros [_ H].
  - intros [_ H]. by apply IH.
Qed.

Lemma no_double_cons p a s :
  (∀ b, head s = Some b → ¬ (p a = true ∧ p b = true)) →
  no_double p s → no_double p (a :: s).
Proof. destruct s; simpl; [done|]. intros H ?. split; [by apply H|done]. Qed.

(** Collapsing runs of at least two: a pending run comes out as one
    character of the class followed by one outside it, so no two
    neighbours of the class remain. *)
Lemma re_sub_runs_2_shape p d run s :
  p d = true → Forall (λ c, p c = true) run →
  let out := re_sub_runs p 2 [d] run s in
  no_double p out
  ∧ (run ≠ [] → ∃ c t, out = c :: t ∧ p c = true
                 ∧ ∀ b, head t = Some b → p b = false).
Proof.
  intros Hd. revert run. induction s as [|c r IH]; intros run Hrun; simpl.
  - unfold flush_run. destruct run as [|a [|b run']]; simpl.
    + done.
    + apply Forall_cons in Hrun as [Ha _].
      split; [done|]. intros _. exists a, []. done.
    + split; [done|]. intros _. exists d, []. done.
  - destruct (p c) eqn:Ec.
    + destruct (IH (c :: run)) as (H1 & H2); [by constructor|].
      split; [done|]. intros _. by apply H2.
    + destruct (IH []) as (H1 & _); [done|].
      assert (Hcons : no_double p (c :: re_sub_runs p 2 [d] [] r)).
      { apply no_double_cons; [|done]. intros b _ [Hc _]. congruence. }
      assert (Hfl : flush_run 2 [d] run = [] ∧ run = []
                    ∨ ∃ a, flush_run 2 [d] run = [a] ∧ p a = true ∧ run ≠ []).
      { unfold flush_run. destruct run as [|a [|b run']]; simpl.
        - by left.
        - right. exists a. apply Forall_cons in Hrun as [Ha _]. done.
        - right. by exists d. }
      destruct Hfl as [[-> ->]|(a & -> & Ha & Hne)]; simpl.
      * done.
      * split; [split; [|done]; intros [_ ?]; congruence|].
        intros _. exists a, (c :: re_sub_runs p 2 [d] [] r).
        split; [done|]. split; [done|]. simpl. intros b Hb. congruence.
Qed.

Lemma no_double_collapse_dashes s :
  no_double is_dash (re_sub_runs is_dash 2 (u "-") [] s).
Proof. by apply (re_sub_runs_2_shape is_dash 45 [] s). Qed.

(** ** The slug *)

Lemma Forall_List_filter {A} (P : A → Prop) f l :
  Forall P l → Forall (λ c, P c ∧ f c = true) (List.filter f l).
Proof.
  induction 1 as [|c r Hc Hr IH]; simpl; [done|].
  destruct (f c) eqn:E; [by constructor|done].
Qed.

Lemma slug_tail_shape X max_len :
  let s := rstrip_with is_dash (slice_to max_len
             (strip_with is_dash (re_sub_runs is_dash 2 (u "-") [] X))) in
  no_double is_dash s ∧ head s ≠ Some 45 ∧ last s ≠ Some 45.
Proof.
  set (R := re_sub_runs is_dash 2 (u "-") [] X).
  set (A := strip_with is_dash R). set (T := slice_to max_len A). intros s.
  split; [|split].
  - pose proof (no_double_collapse_dashes X) as H. fold R in H.
    destruct (lstrip_with_suffix is_dash R) as [t1 E1].
    rewrite E1 in H. apply no_double_app_r in H.
    destruct (rstrip_with_prefix is_dash (lstrip_with is_dash R)) as [t2 E2].
    rewrite E2 in H. apply no_double_app_l in H.
    change (no_double is_dash A) in H.
    destruct (slice_to_prefix max_len A) as [t3 E3].
    rewrite E3 in H. apply no_double_app_l in H.
    destruct (rstrip_with_prefix is_dash T) as [t4 E4]. fold T in H.
    rewrite E4 in H. by apply no_double_app_l in H.
  - intros H. apply rstrip_with_head, head_slice_to, rstrip_with_head in H.
    by apply lstrip_with_head in H.
  - intros H. by apply rstrip_with_last in H.
Qed.

Lemma ascii_lower_slug_char c :
  ascii_isalnum c = true ∨ is_dash c = true → slug_char (ascii_lower c) = true.
Proof.
  unfold slug_char, ascii_lower, ascii_isalnum, ascii_isupper, ascii_islower,
    ascii_isdigit, is_dash, in_range.
  intros H. destruct ((65 <=? c) && (c <=? 90)) eqn:E; lia.
Qed.

Lemma cleaned_slug_ascii U title max_words max_len :
  Forall (λ c, c ≠ 95 ∧ (is_ascii c = true ∨ ucd_isalnum U c = false)) title →
  Forall (λ c, slug_char c = true) (cleaned_slug U title max_words max_len).
Proof.
  intros Ht. unfold cleaned_slug.
  set (Q5 := λ c, is_ascii c = true ∧ (ascii_isalnum c = true ∨ is_dash c = true)).
  set (Q3 := λ c, c = 32 ∨ Q5 c).
  apply Forall_rstrip_with, Forall_slice_to, Forall_strip_with.
  apply Forall_re_sub_runs; [by repeat constructor|done|].
  match goal with |- Forall _ (str_lower U ?j) => assert (Hj : Forall Q5 j) end.
  { apply Forall_join; [by repeat constructor|].
    apply Forall_slice_to.
    eapply Forall_impl; [apply (Forall_split_on Q3)|].
    - apply Forall_strip_with, Forall_re_sub_runs_all; [by repeat constructor; left|].
      eapply Forall_impl;
        [apply Forall_List_filter, Forall_strip_with, Ht|].
      intros c [[Hu Ha] Hf] Hs.
      unfold is_word in Hf. rewrite Hs in Hf.
      destruct (Z.eqb_spec c 95); [done|].
      rewrite !orb_false_r in Hf. apply orb_true_iff in Hf as [Hf|Hf].
      * destruct (is_ascii c) eqn:Ec.
        -- right. split; [done|]. by left.
        -- destruct Ha as [?|Ha]; [done|]. by rewrite Ha in Hf.
      * right. unfold is_dash in Hf. apply Z.eqb_eq in Hf as ->.
        split; [done|]. by right.
    - intros w Hw. eapply Forall_impl; [exact Hw|].
      by intros c [[->|H] Hne]. }
  unfold str_lower.
  replace (forallb is_ascii _) with true.
  - apply Forall_map. eapply Forall_impl; [exact Hj|].
    intros c [_ H]. by apply ascii_lower_slug_char.
  - symmetry. apply forallb_forall. intros c Hc.
    rewrite Forall_forall in Hj. apply list_elem_of_In in Hc. by apply Hj.
Qed.

(** C2 (as amended). With the default arguments the slug is never empty,
    has at most 48 characters, no two dashes in a row and no dash at
    either end; the fallback ["product"] is returned exactly when the
    cleaning steps leave nothing; and for a title without an underscore
    and without a letter or digit from outside ASCII the slug matches
    [[a-z0-9-]+], whatever other characters the title holds. *)
Theorem short_title_slug_shape (U : runtime) (title : str) :
  let s := short_title_slug U title in
  s ≠ []
  ∧ (length s ≤ 48)%nat
  ∧ no_double is_dash s
  ∧ head s ≠ Some 45
  ∧ last s ≠ Some 45
  ∧ (cleaned_slug U title 6 48 = [] → s = u "product")
  ∧ (cleaned_slug U title 6 48 ≠ [] → s = cleaned_slug U title 6 48)
  ∧ (Forall (λ c, c ≠ 95 ∧ (is_ascii c = true ∨ ucd_isalnum U c = false))
            title →
     matches_slug_pattern s = true).
Proof.
  unfold short_title_slug, short_title_slug_with.
  pose proof (cleaned_slug_ascii U title 6 48) as Hascii.
  assert (Hlen : (length (cleaned_slug U title 6 48) ≤ 48)%nat).
  { unfold cleaned_slug. etrans; [apply length_rstrip_with|].
    etrans; [apply length_slice_to; lia|]. lia. }
  assert (Hshape : no_double is_dash (cleaned_slug U title 6 48)
                   ∧ head (cleaned_slug U title 6 48) ≠ Some 45
                   ∧ last (cleaned_slug U title 6 48) ≠ Some 45)
    by apply slug_tail_shape.
  destruct (cleaned_slug U title 6 48) as [|c r] eqn:E; cbv zeta.
  - repeat split; try done; simpl; lia.
  - destruct Hshape as (H1 & H2 & H3).
    split; [done|]. split; [done|]. split; [done|]. split; [done|].
    split; [done|]. split; [done|]. split; [done|].
    intros Ht. unfold matches_slug_pattern.
    apply andb_true_iff. split; [done|].
    apply forallb_forall. intros x Hx.
    specialize (Hascii Ht). rewrite Forall_forall in Hascii.
    apply Hascii. by apply list_elem_of_In.
Qed.

Lemma short_title_slug_shape_witness :
  matches_slug_pattern
    (short_title_slug latin1_runtime
       (u " Blue" ++ [0xAE; 0xA0] ++ u "Cotton T-Shirt (Large)!" ++ [0xA0]))
  = true.
Proof.
  apply (short_title_slug_shape latin1_runtime
           (u " Blue" ++ [0xAE; 0xA0] ++ u "Cotton T-Shirt (Large)!" ++ [0xA0])).
  repeat (apply Forall_cons_2;
          [split; [discriminate|first [by left|by right]]|]).
  apply Forall_nil_2.
Defined.

(** C2 as stated fails: an underscore survives the cleaning, and so does
    a letter outside ASCII, and neither is in [[a-z0-9-]]. *)
Lemma short_title_slug_pattern_counterexample :
  short_title_slug latin1_runtime (u "a_b") = u "a_b"
  ∧ matches_slug_pattern (short_title_slug latin1_runtime (u "a_b")) = false
  ∧ short_title_slug latin1_runtime [0xC9; 0x74; 0xE9] = [0xE9; 0x74; 0xE9]
  ∧ matches_slug_pattern (short_title_slug latin1_runtime [0xC9; 0x74; 0xE9]) = false.
Proof. repeat split; reflexivity. Qed.

(** ** Trimming text *)

Lemma length_join_snoc sep l w :
  length (join sep (l ++ [w]))
  = match l with
    | [] => length w
    | _ => (length (join sep l) + length sep + length w)%nat
    end.
Proof.
  induction l as [|a r IH]; [done|].
  destruct r as [|b r].
  - simpl. rewrite !length_app. lia.
  - change (join sep ((a :: b :: r) ++ [w]))
      with (a ++ sep ++ join sep ((b :: r) ++ [w])).
    change (join sep (a :: b :: r)) with (a ++ sep ++ join sep (b :: r)).
    rewrite !length_app, IH, ?length_app. lia.
Qed.

(** The loop keeps the longest run of leading words that, joined by
    single spaces after what is already kept, stays within [limit - 1]
    characters. *)
Lemma trim_words_spec sep limit words : length sep = 1%nat →
  ∀ trimmed total,
  total = Z.of_nat (length (join sep trimmed)) →
  total ≤ limit - 1 →
  ∃ k, (k ≤ length words)%nat
    ∧ trim_words limit words trimmed total = trimmed ++ take k words
    ∧ Z.of_nat (length (join sep (trimmed ++ take k words))) ≤ limit - 1
    ∧ ((k < length words)%nat →
       limit - 1 < Z.of_nat (length (join sep (trimmed ++ take (S k) words)))).
Proof.
  intros Hsep.
  induction words as [|w rest IH]; intros trimmed total Htot Hle.
  - exists 0%nat. cbn [take length trim_words]. rewrite app_nil_r.
    split; [lia|]. split; [done|]. split; [lia|lia].
  - cbn [trim_words].
    set (extra := match trimmed with
                  | [] => Z.of_nat (length w)
                  | _ :: _ => Z.of_nat (length w) + 1
                  end).
    assert (Hsnoc : Z.of_nat (length (join sep (trimmed ++ [w]))) = total + extra).
    { rewrite length_join_snoc. subst extra total.
      destruct trimmed; [done|]. lia. }
    destruct (total + extra >? limit - 1) eqn:E.
    + exists 0%nat. cbn [take length]. rewrite app_nil_r.
      split; [lia|]. split; [done|]. split; [lia|].
      intros _. rewrite take_0. lia.
    + destruct (IH (trimmed ++ [w]) (total + extra)) as (k & Hk & E1 & E2 & E3);
        [done|lia|].
      exists (S k). cbn [take length]. rewrite <- !app_assoc in *.
      cbn [app] in *.
      split; [lia|]. split; [done|]. split; [done|].
      intros Hlt. apply E3. lia.
Qed.



(** The example of the specification: ten characters, cut after the
    second word. *)
Lemma trim_to_length_example :
  trim_to_length (u "The quick brown fox") 10 = u "The quick" ++ [ELLIPSIS].
Proof. reflexivity. Qed.


(** ** Keywords *)

Lemma token_runs_sep p c s toks :
  p c = false → token_runs p s toks → token_runs p (c :: s) toks.
Proof.
  intros Hc H. destruct H as [sep Hsep|sep tok rest toks Hsep Hne Htok Hh Hr].
  - constructor. by constructor.
  - change (c :: sep ++ tok ++ rest) with ((c :: sep) ++ tok ++ rest).
    constructor; [by constructor|done..].
Qed.

Lemma token_runs_tok p tok rest toks :
  tok ≠ [] → Forall (λ c, p c = true) tok →
  (∀ c, head rest = Some c → p c = false) →
  token_runs p rest toks → token_runs p (tok ++ rest) (tok :: toks).
Proof. intros. by apply (token_runs_next p []). Qed.

Lemma rev_cons_nonempty {A} (a : A) l : rev (a :: l) ≠ [].
Proof. intros E. apply (f_equal length) in E. by rewrite length_rev in E. Qed.

Lemma findall_runs_spec p s : ∀ run,
  Forall (λ c, p c = true) run →
  token_runs p (rev run ++ s) (findall_runs p run s).
Proof.
  induction s as [|c r IH]; intros run Hrun.
  - cbn [findall_runs]. destruct run as [|a run'].
    + by constructor.
    + cbn [emit_run].
      apply token_runs_tok;
        [apply rev_cons_nonempty|by apply Forall_rev|done|by constructor].
  - cbn [findall_runs]. destruct (p c) eqn:Ec.
    + replace (rev run ++ c :: r) with (rev (c :: run) ++ r)
        by (cbn [rev]; by rewrite <- app_assoc).
      apply IH. by constructor.
    + pose proof (token_runs_sep p c r _ Ec (IH [] ltac:(done))) as Hr.
      destruct run as [|a run']; [done|].
      cbn [emit_run app].
      apply token_runs_tok;
        [apply rev_cons_nonempty|by apply Forall_rev| |done].
      intros b Hb. cbn in Hb. congruence.
Qed.

Lemma token_runs_Forall p s toks :
  token_runs p s toks → Forall (Forall (λ c, p c = true)) toks.
Proof. induction 1; by constructor. Qed.

Lemma is_token_char_ascii c : is_token_char c = true → is_ascii c = true.
Proof.
  unfold is_token_char, ascii_isalnum, ascii_isupper, ascii_islower,
    ascii_isdigit, is_ascii, in_range. lia.
Qed.

Lemma str_lower_ascii U s :
  Forall (λ c, is_ascii c = true) s → str_lower U s = map ascii_lower s.
Proof.
  intros H. unfold str_lower. replace (forallb is_ascii s) with true; [done|].
  symmetry. apply forallb_forall. intros c Hc.
  rewrite Forall_forall in H. apply H. by apply list_elem_of_In.
Qed.

Lemma ascii_lower_not_upper c : ascii_isupper (ascii_lower c) = false.
Proof.
  unfold ascii_lower, ascii_isupper, in_range.
  destruct ((65 <=? c) && (c <=? 90)) eqn:E; lia.
Qed.

Lemma List_filter_filter {A} (f g : A → bool) l :
  List.filter f (List.filter g l) = List.filter (λ x, g x && f x) l.
Proof.
  induction l as [|a r IH]; simpl; [done|].
  destruct (g a); simpl; [destruct (f a)|]; by rewrite ?IH.
Qed.

Lemma List_filter_all {A} (f : A → bool) l :
  (∀ x, f x = true) → List.filter f l = l.
Proof.
  intros H. induction l as [|a r IH]; simpl; [done|]. by rewrite H, IH.
Qed.

Lemma sublist_List_filter {A} (f : A → bool) l : sublist (List.filter f l) l.
Proof.
  induction l as [|a r IH]; simpl; [done|].
  destruct (f a); [by apply sublist_skip|by apply sublist_cons].
Qed.

Lemma elem_of_List_filter {A} (f : A → bool) l x :
  x ∈ List.filter f l ↔ x ∈ l ∧ f x = true.
Proof. rewrite !list_elem_of_In. apply filter_In. Qed.

Lemma dedup_first_sublist l : sublist (dedup_first l) l.
Proof.
  induction l as [|x r IH]; simpl; [done|].
  apply sublist_skip. etrans; [apply sublist_List_filter|done].
Qed.

Lemma elem_of_dedup_first l x : x ∈ dedup_first l ↔ x ∈ l.
Proof.
  induction l as [|a r IH]; simpl; [done|].
  rewrite !elem_of_cons, elem_of_List_filter, IH.
  destruct (decide (x = a)) as [->|Hne]; [tauto|].
  rewrite negb_true_iff, bool_decide_eq_false. tauto.
Qed.

Lemma NoDup_dedup_first l : NoDup (dedup_first l).
Proof.
  induction l as [|a r IH]; simpl; [constructor|].
  constructor.
  - rewrite elem_of_List_filter, negb_true_iff, bool_decide_eq_false. tauto.
  - eapply sublist_NoDup; [exact IH|apply sublist_List_filter].
Qed.

(** The loop with its [seen] set computes the first-occurrence
    deduplication of the kept normalised tokens, after what it holds. *)
Lemma keywords_loop_refines U tokens : ∀ keywords (seen : gset str),
  (∀ x, x ∈ seen ↔ x ∈ keywords) →
  keywords_loop U tokens keywords seen
  = keywords
    ++ List.filter (λ y, negb (bool_decide (y ∈ keywords)))
         (dedup_first (List.filter keep_keyword (map (str_lower U) tokens))).
Proof.
  induction tokens as [|t rest IH]; intros kw seen Hseen; cbn [keywords_loop].
  - by rewrite app_nil_r.
  - cbn [map List.filter]. set (n := str_lower U t).
    assert (Hkeep : keep_keyword n
                    = negb (bool_decide (n ∈ STOP_WORDS) || (length n <=? 2)%nat)).
    { unfold keep_keyword. rewrite negb_orb. f_equal.
      destruct (Nat.leb_spec 3 (length n)), (Nat.leb_spec (length n) 2);
        simpl; try done; lia. }
    rewrite Hkeep.
    destruct (bool_decide (n ∈ STOP_WORDS) || (length n <=? 2)%nat); cbn [negb].
    { by apply IH. }
    cbn [dedup_first List.filter].
    destruct (bool_decide_reflect (n ∉ seen)) as [Hn|Hn].
    + assert (n ∉ kw) by (by rewrite <- Hseen).
      rewrite bool_decide_eq_false_2 by done. cbn [negb].
      rewrite IH.
      * rewrite <- app_assoc. cbn [app]. do 2 f_equal.
        rewrite List_filter_filter. apply filter_ext. intros y.
        destruct (decide (y = n)) as [->|Hne].
        -- rewrite (bool_decide_eq_true_2 (n = n)) by done.
           rewrite bool_decide_eq_true_2; [done|].
           apply elem_of_app. right. by apply list_elem_of_singleton.
        -- rewrite (bool_decide_eq_false_2 (y = n)) by done. cbn [negb andb].
           f_equal. apply bool_decide_ext.
           rewrite elem_of_app, list_elem_of_singleton. tauto.
      * intros x.
        rewrite elem_of_union, elem_of_singleton, Hseen, elem_of_app,
          list_elem_of_singleton. tauto.
    + assert (n ∈ kw) by (rewrite <- Hseen; by apply dec_stable).
      rewrite bool_decide_eq_true_2 by done. cbn [negb].
      rewrite IH by done. f_equal.
      rewrite List_filter_filter. apply filter_ext_in. intros y _.
      destruct (decide (y = n)) as [->|Hne].
      * rewrite (bool_decide_eq_true_2 (n ∈ kw)) by done. cbn [negb].
        by rewrite andb_false_r.
      * by rewrite (bool_decide_eq_false_2 (y = n)) by done.
Qed.

(** C6. [build_keywords] joins with [", "] the first 15 entries of the
    first-occurrence deduplication of the lowercased tokens that are
    neither stop words nor shorter than 3 characters, the tokens being
    the maximal runs of [[A-Za-z0-9']] in ["brand title category"]; so
    the keywords are at most 15, pairwise different, in the order of
    the text, lowercase, long enough and not stop words. *)
Theorem build_keywords_spec (U : runtime) (title brand category : str) :
  let text := brand ++ u " " ++ title ++ u " " ++ category in
  let tokens := findall_runs is_token_char [] text in
  let normalised := List.filter keep_keyword (map (map ascii_lower) tokens) in
  let kws := build_keywords_list U title brand category in
  token_runs is_token_char text tokens
  ∧ build_keywords U title brand category = join (u ", ") kws
  ∧ kws = take 15 (dedup_first normalised)
  ∧ (length kws ≤ 15)%nat
  ∧ NoDup kws
  ∧ sublist kws normalised
  ∧ Forall (λ k, Forall (λ c, ascii_isupper c = false) k
                 ∧ (k ∉ STOP_WORDS) ∧ (3 ≤ length k)%nat) kws
  ∧ build_keywords U (u "Super Pack") (u "BrandX") (u "Tools")
    = u "brandx, super, tools".
Proof.
  intros text tokens normalised kws.
  assert (Hruns : token_runs is_token_char text tokens)
    by (apply (findall_runs_spec is_token_char text []); constructor).
  assert (Hmap : map (str_lower U) tokens = map (map ascii_lower) tokens).
  { apply map_ext_in. intros t Ht. apply str_lower_ascii.
    apply token_runs_Forall in Hruns. rewrite Forall_forall in Hruns.
    eapply Forall_impl; [apply Hruns; by apply list_elem_of_In|].
    apply is_token_char_ascii. }
  assert (Hkws : kws = take 15 (dedup_first normalised)).
  { subst kws. unfold build_keywords_list. fold text. fold tokens.
    rewrite keywords_loop_refines
      by (intros x; split; [intros []%not_elem_of_empty|intros []%not_elem_of_nil]).
    rewrite Hmap. cbn [app].
    unfold slice_to. change (15 <? 0) with false. cbv iota.
    change (Z.to_nat 15) with 15%nat. fold normalised. f_equal.
    apply List_filter_all. intros y.
    by rewrite bool_decide_eq_false_2 by apply not_elem_of_nil. }
  assert (Hsub : sublist kws normalised).
  { rewrite Hkws. etrans; [apply sublist_take|apply dedup_first_sublist]. }
  split; [done|]. split; [done|]. split; [done|].
  split; [rewrite Hkws, length_take; lia|].
  split.
  { rewrite Hkws. eapply sublist_NoDup; [apply NoDup_dedup_first|apply sublist_take]. }
  split; [done|]. split; [|by vm_compute].
  apply Forall_forall. intros k Hk.
  assert (Hin : k ∈ normalised) by (eapply elem_of_sublist; eauto).
  apply elem_of_List_filter in Hin as [Hin Hkeep].
  unfold keep_keyword in Hkeep. apply andb_true_iff in Hkeep as [H1 H2].
  apply negb_true_iff, bool_decide_eq_false in H1. apply Nat.leb_le in H2.
  split; [|done].
  apply list_elem_of_fmap in Hin as (t & -> & _).
  apply Forall_map, Forall_forall. intros c _. apply ascii_lower_not_upper.
Qed.

(** ** Gender detection *)

Lemma last_or_cons before c l : last_or before (c :: l) = last_or (Some c) l.
Proof.
  unfold last_or. destruct l as [|d l]; [done|]. rewrite last_cons_cons.
  by destruct (last (d :: l)) eqn:E; [|apply last_None in E].
Qed.

Lemma last_or_None l : last_or None l = last l.
Proof. unfold last_or. by destruct (last l). Qed.

Lemma match_literal_spec pat : ∀ before s l rest,
  match_literal pat before s = Some (l, rest)
  ↔ s = pat ++ rest ∧ l = last_or before pat.
Proof.
  induction pat as [|a pat IH]; intros before s l rest; cbn [match_literal].
  - cbn. split; [intros [= -> ->]; done|intros [-> ->]; done].
  - destruct s as [|b s']; [split; [done|intros [[=] _]]|].
    rewrite last_or_cons. destruct (Z.eqb_spec a b) as [->|Hne].
    + rewrite IH. cbn. split; intros [E ->]; split; congruence.
    + split; [done|]. intros [[=] _]. done.
Qed.

Lemma word_search_from_spec U pat s : ∀ before,
  word_search_from U pat before s = true
  ↔ ∃ pre post,
      s = pre ++ pat ++ post
      ∧ boundary U (last_or before pre) (head (pat ++ post)) = true
      ∧ boundary U (last_or before (pre ++ pat)) (head post) = true.
Proof.
  assert (Hhere : ∀ before s,
    word_match_here U pat before s = true
    ↔ ∃ post, s = pat ++ post
        ∧ boundary U before (head (pat ++ post)) = true
        ∧ boundary U (last_or before pat) (head post) = true).
  { intros before s0. unfold word_match_here. rewrite andb_true_iff. split.
    - intros [H1 H2].
      destruct (match_literal pat before s0) as [[l rest]|] eqn:E; [|done].
      apply match_literal_spec in E as [-> ->]. by exists rest.
    - intros (post & -> & H1 & H2). split; [done|].
      pose proof (proj2 (match_literal_spec pat before (pat ++ post)
                           (last_or before pat) post) (conj eq_refl eq_refl)) as E.
      by rewrite E. }
  induction s as [|c r IH]; intros before; cbn [word_search_from];
    rewrite orb_true_iff, Hhere.
  - split.
    + intros [(post & E & H1 & H2)|]; [|done]. by exists [], post.
    + intros (pre & post & E & H1 & H2). left.
      destruct pre; [|done]. by exists post.
  - rewrite IH. split.
    + intros [(post & E & H1 & H2)|(pre & post & E & H1 & H2)].
      * by exists [], post.
      * exists (c :: pre), post. cbn [app]. rewrite !last_or_cons, E. done.
    + intros (pre & post & E & H1 & H2). destruct pre as [|d pre].
      * left. by exists post.
      * right. cbn [app] in E, H2. injection E as -> ->.
        rewrite !last_or_cons in *. by exists pre, post.
Qed.

Lemma word_search_spec U token s :
  word_search U token s = true ↔ whole_word_in U token s.
Proof.
  unfold word_search, whole_word_in. rewrite word_search_from_spec.
  by setoid_rewrite last_or_None.
Qed.

Lemma detect_gender_loop_first U lower table : ∀ i token gender,
  table !! i = Some (token, gender) →
  whole_word_in U token lower →
  (∀ j t g, (j < i)%nat → table !! j = Some (t, g) → ¬ whole_word_in U t lower) →
  detect_gender_loop U table lower = gender.
Proof.
  induction table as [|[t0 g0] rest IH]; intros i token gender Hi Hw Hbefore;
    [done|]. cbn [detect_gender_loop].
  destruct i as [|i]; cbn in Hi.
  - injection Hi as -> ->. by rewrite (proj2 (word_search_spec U token lower) Hw).
  - destruct (word_search U t0 lower) eqn:E.
    + apply word_search_spec in E. by destruct (Hbefore 0%nat t0 g0); [lia| |].
    + apply (IH i token); [done|done|].
      intros j t g Hj Hl. apply (Hbefore (S j) t g); [lia|done].
Qed.

Lemma detect_gender_loop_default U lower table :
  (∀ t g, (t, g) ∈ table → ¬ whole_word_in U t lower) →
  detect_gender_loop U table lower = u "Unisex".
Proof.
  induction table as [|[t0 g0] rest IH]; intros H; [done|].
  cbn [detect_gender_loop]. destruct (word_search U t0 lower) eqn:E.
  - apply word_search_spec in E. destruct (H t0 g0); [constructor|done].
  - apply IH. intros t g Hin. apply (H t g). by constructor.
Qed.

(** C7. [detect_gender] answers with the label of the first keyword of
    the table, in table order, that occurs as a whole word in the
    lowercased title, and with ["Unisex"] when none does. *)
Theorem detect_gender_spec (U : runtime) (title : str) :
  let lower := str_lower U title in
  (∀ i token gender,
     GENDER_KEYWORDS !! i = Some (token, gender) →
     whole_word_in U token lower →
     (∀ j t g, (j < i)%nat → GENDER_KEYWORDS !! j = Some (t, g) →
               ¬ whole_word_in U t lower) →
     detect_gender U title = gender)
  ∧ ((∀ t g, (t, g) ∈ GENDER_KEYWORDS → ¬ whole_word_in U t lower) →
     detect_gender U title = u "Unisex")
  ∧ detect_gender U (u "Women's Running Shoes") = u "Women"
  ∧ detect_gender U (u "Kids Backpack") = u "Unisex"
  ∧ detect_gender U (u "Wireless Mouse") = u "Unisex".
Proof.
  intros lower. split; [|split].
  - intros i token gender. apply detect_gender_loop_first.
  - apply detect_gender_loop_default.
  - by vm_compute.
Qed.

Lemma detect_gender_spec_witness :
  detect_gender latin1_runtime (u "Running shoes for men, size 9") = u "Men".
Proof.
  apply (detect_gender_spec latin1_runtime (u "Running shoes for men, size 9"))
    with (i := 5%nat) (token := u "men").
  - reflexivity.
  - exists (u "running shoes for "), (u ", size 9"). by vm_compute.
  - intros j t g Hj Hl Hw. apply word_search_spec in Hw.
    do 5 (destruct j as [|j]; [injection Hl as <- <-; vm_compute in Hw; congruence|]).
    lia.
Defined.

(** ** Prices *)

Lemma uint_digits_digit d : Forall (λ c, ascii_isdigit c = true) (uint_digits d).
Proof. induction d; simpl; by constructor. Qed.

Lemma uint_digits_nonempty d : d ≠ Decimal.Nil → uint_digits d ≠ [].
Proof. by destruct d. Qed.

Lemma digits_of_digit n : Forall (λ c, ascii_isdigit c = true) (digits_of n).
Proof. apply uint_digits_digit. Qed.

Lemma digits_of_nonempty n : digits_of n ≠ [].
Proof.
  unfold digits_of. apply uint_digits_nonempty.
  destruct (Z.to_N n); [done|]. apply DecimalPos.Unsigned.to_uint_nonnil.
Qed.

Lemma take_digits_app d r :
  Forall (λ c, ascii_isdigit c = true) d →
  (∀ c, head r = Some c → ascii_isdigit c = false) →
  take_digits (d ++ r) = (d, r).
Proof.
  intros Hd Hr. induction Hd as [|c d Hc Hd IH]; cbn [app take_digits].
  - destruct r as [|c r]; [done|]. cbn [take_digits]. by rewrite Hr.
  - by rewrite Hc, IH.
Qed.

Lemma zfill_two_digits m :
  0 ≤ m < 100 →
  ∃ a b, zfill 2 (digits_of m) = [a; b]
         ∧ ascii_isdigit a = true ∧ ascii_isdigit b = true.
Proof.
  intros Hm.
  assert (Hall : forallb two_digits_ok (seq 0 100) = true) by by vm_compute.
  rewrite forallb_forall in Hall.
  specialize (Hall (Z.to_nat m)). unfold two_digits_ok in Hall.
  rewrite Z2Nat.id in Hall by lia.
  destruct (zfill 2 (digits_of m)) as [|a [|b [|c r]]];
    try (discriminate Hall; apply in_seq; lia).
  exists a, b. split; [done|]. apply andb_true_iff, Hall, in_seq. lia.
Qed.

Lemma fixed2_two_decimals n sign :
  sign = [] ∨ sign = [45] → two_decimals (sign ++ fixed2 n) = true.
Proof.
  intros Hsign. unfold fixed2.
  destruct (zfill_two_digits (n mod 100)) as (a & b & -> & Ha & Hb);
    [apply Z.mod_pos_bound; lia|].
  pose proof (digits_of_digit (n / 100)) as Hd.
  pose proof (digits_of_nonempty (n / 100)) as Hne.
  assert (Hbody : ∀ t, t = digits_of (n / 100) ++ [46] ++ [a; b] →
            (let '(ip, r) := take_digits t in
             str_nonempty ip
             && match r with
                | [46; d1; d2] => ascii_isdigit d1 && ascii_isdigit d2
                | _ => false
                end) = true).
  { intros t ->. rewrite take_digits_app; [|done|by intros c [= <-]].
    cbn [app]. rewrite Ha, Hb. by destruct (digits_of (n / 100)). }
  unfold two_decimals. destruct Hsign as [-> | ->]; cbn [app].
  - destruct (digits_of (n / 100)) as [|c r] eqn:E; [done|].
    apply Forall_cons in Hd as [Hc _]. cbn [app].
    assert (c ≠ 45) by (intros ->; done).
    rewrite <- E in Hbody.
    specialize (Hbody _ eq_refl). rewrite E in Hbody. cbn [app] in Hbody.
    destruct c as [|p|p]; try done.
    repeat (destruct p as [p|p|]; try done).
  - by apply Hbody.
Qed.

Lemma format_2f_two_decimals x :
  is_finite x = true → two_decimals (format_2f x) = true.
Proof.
  destruct x as [s| | |s m e]; try done; intros _; cbn [format_2f];
    apply fixed2_two_decimals; destruct s; auto.
Qed.

(** C4 (as amended). A text that after stripping starts with the pound
    sign comes back stripped; a number that is not zero and a text that
    parses as a float give the pound sign and the float in fixed
    notation, which for a finite float has exactly two decimals; a text
    that does not parse comes back stripped; [None] and blank text give
    the empty string. *)
Theorem normalise_price_spec (U : runtime) :
  (∀ s, startswith [POUND] (py_strip s) = true →
        normalise_price U (PStr s) = Ok (py_strip s))
  ∧ (∀ n x, n ≠ 0 → float_of_int n = Ok x →
        normalise_price U (PInt n) = Ok (POUND :: format_2f x)
        ∧ (is_finite x = true → two_decimals (format_2f x) = true))
  ∧ (∀ x, truthy (PFloat x) = true →
        normalise_price U (PFloat x) = Ok (POUND :: format_2f x)
        ∧ (is_finite x = true → two_decimals (format_2f x) = true))
  ∧ (∀ s x, startswith [POUND] (py_strip s) = false →
        float_of_str U (py_strip s) = Some x → py_strip s ≠ [] →
        normalise_price U (PStr s) = Ok (POUND :: format_2f x)
        ∧ (is_finite x = true → two_decimals (format_2f x) = true))
  ∧ (∀ s, startswith [POUND] (py_strip s) = false →
        float_of_str U (py_strip s) = None →
        normalise_price U (PStr s) = Ok (py_strip s))
  ∧ normalise_price U PNone = Ok []
  ∧ (∀ s, py_strip s = [] → normalise_price U (PStr s) = Ok [])
  ∧ normalise_price U (PStr (u "19.99")) = Ok (POUND :: u "19.99")
  ∧ normalise_price U (PStr (POUND :: u "5")) = Ok (POUND :: u "5")
  ∧ normalise_price U (PStr (u "")) = Ok (u "")
  ∧ normalise_price U (PStr (u "abc")) = Ok (u "abc").
Proof.
  assert (Hstr : ∀ s, py_strip s ≠ [] → truthy (PStr s) = true).
  { intros s Hs. cbn. destruct s; [done|]. by rewrite bool_decide_eq_false_2. }
  assert (Hblank : ∀ s, py_strip s = [] → normalise_price U (PStr s) = Ok []).
  { intros s Hs. unfold normalise_price.
    destruct (truthy (PStr s)); cbv beta iota zeta delta [negb];
      [by rewrite Hs|done]. }
  split; [|split; [|split; [|split; [|split; [|split; [|split]]]]]].
  - intros s Hs. unfold normalise_price.
    destruct (py_strip s) as [|c r] eqn:E in Hs; [done|].
    rewrite Hstr by (rewrite E; done). cbv beta iota zeta delta [negb].
    rewrite E. cbv beta iota. by rewrite Hs.
  - intros n x Hn Hx. split; [|apply format_2f_two_decimals].
    unfold normalise_price. cbn [truthy].
    rewrite (proj2 (Z.eqb_neq n 0) Hn). cbv beta iota zeta delta [negb].
    by rewrite Hx.
  - intros x Hx. split; [|apply format_2f_two_decimals].
    unfold normalise_price. by rewrite Hx.
  - intros s x Hs Hx Hne. split; [|apply format_2f_two_decimals].
    unfold normalise_price. rewrite Hstr by done.
    cbv beta iota zeta delta [negb].
    rewrite Hs, Hx. by destruct (py_strip s).
  - intros s Hs Hx. destruct (py_strip s) as [|c r] eqn:E in Hs;
      [by rewrite E; apply Hblank|].
    unfold normalise_price. rewrite Hstr by (rewrite E; done).
    cbv beta iota zeta delta [negb]. rewrite Hx, E. cbv beta iota.
    by rewrite Hs.
  - done.
  - exact Hblank.
  - by vm_compute.
Qed.

Lemma normalise_price_spec_witness :
  normalise_price latin1_runtime (PStr (u " 7.5 ")) = Ok (POUND :: u "7.50")
  ∧ normalise_price latin1_runtime (PStr ([POUND] ++ u "12 ")) = Ok ([POUND] ++ u "12")
  ∧ normalise_price latin1_runtime (PInt 3) = Ok (POUND :: u "3.00")
  ∧ normalise_price latin1_runtime (PStr (u " n/a ")) = Ok (u "n/a").
Proof.
  destruct (normalise_price_spec latin1_runtime)
    as (H1 & H2 & _ & H4 & H5 & _).
  split; [|split; [|split]].
  - refine (proj1 (H4 (u " 7.5 ") (S754_finite false 8444249301319680 (-50)) _ _ _));
      by vm_compute.
  - apply (H1 ([POUND] ++ u "12 ")). by vm_compute.
  - refine (proj1 (H2 3 (S754_finite false 6755399441055744 (-51)) _ _));
      by vm_compute.
  - apply (H5 (u " n/a ")); by vm_compute.
Defined.

(** C4 as stated fails: the number zero gives the empty string, not a
    price; ["inf"] parses as a float and is not printed with two
    decimals; and text is returned stripped, not unchanged. *)
Lemma normalise_price_counterexample :
  normalise_price latin1_runtime (PInt 0) = Ok []
  ∧ normalise_price latin1_runtime (PStr (u "inf")) = Ok (POUND :: u "inf")
  ∧ two_decimals (u "inf") = false
  ∧ normalise_price latin1_runtime (PStr (u "abc ")) = Ok (u "abc")
  ∧ u "abc" ≠ u "abc ".
Proof. repeat split; by vm_compute. Qed.

(** ** Unique folders *)

Lemma uint_digits_inj d1 d2 : uint_digits d1 = uint_digits d2 → d1 = d2.
Proof.
  revert d2. induction d1; destruct d2; simpl; try discriminate;
    try done; intros [= H]; f_equal; auto.
Qed.

Lemma digits_of_inj a b : 0 ≤ a → 0 ≤ b → digits_of a = digits_of b → a = b.
Proof.
  intros Ha Hb H. apply uint_digits_inj, DecimalN.Unsigned.to_uint_inj in H.
  lia.
Qed.

Lemma str_of_int_inj a b : 0 ≤ a → 0 ≤ b → str_of_int a = str_of_int b → a = b.
Proof.
  unfold str_of_int. intros Ha Hb.
  rewrite (proj2 (Z.ltb_ge a 0) Ha), (proj2 (Z.ltb_ge b 0) Hb).
  by apply digits_of_inj.
Qed.

Lemma numbered_folder_inj root base a b :
  1 ≤ a → 1 ≤ b → numbered_folder root base a = numbered_folder root base b →
  a = b.
Proof.
  unfold numbered_folder, joinpath. intros Ha Hb H.
  destruct (Z.eqb_spec a 1) as [->|Ha1], (Z.eqb_spec b 1) as [->|Hb1];
    [done|..]; apply app_inv_head in H; injection H as H.
  - apply (f_equal length) in H. rewrite length_app in H. cbn in H. lia.
  - apply (f_equal length) in H. rewrite length_app in H. cbn in H. lia.
  - apply app_inv_head in H. injection H as H.
    apply str_of_int_inj in H; lia.
Qed.

Lemma probe_candidate_numbered root base i :
  probe_candidate root base 1 (joinpath root base) i
  = numbered_folder root base (1 + Z.of_nat i).
Proof.
  unfold numbered_folder. destruct i as [|i]; [done|].
  cbn [probe_candidate]. by rewrite (proj2 (Z.eqb_neq _ 1)) by lia.
Qed.

Lemma probe_candidate_step root base attempt c i :
  probe_candidate root base attempt c (S i)
  = probe_candidate root base (attempt + 1)
      (joinpath root (base ++ u "-" ++ str_of_int (attempt + 1))) i.
Proof.
  destruct i as [|i]; cbn [probe_candidate]; do 4 f_equal; lia.
Qed.

(** When the loop stops, it stops at the first candidate that does not
    exist. *)
Lemma probe_Some fuel fs root base : ∀ attempt c p,
  probe fuel fs root base attempt c = Some p →
  ∃ i, (i < fuel)%nat
    ∧ p = probe_candidate root base attempt c i
    ∧ path_exists fs p = false
    ∧ ∀ j, (j < i)%nat →
           path_exists fs (probe_candidate root base attempt c j) = true.
Proof.
  induction fuel as [|fuel IH]; intros attempt c p H; [done|].
  cbn [probe] in H. destruct (path_exists fs c) eqn:Ec.
  - apply IH in H as (i & Hi & -> & Hp & Hbefore).
    exists (S i). rewrite probe_candidate_step.
    split; [lia|]. split; [done|]. split; [done|].
    intros [|j] Hj; [done|]. rewrite probe_candidate_step. apply Hbefore. lia.
  - injection H as <-. exists 0%nat. split; [lia|]. split; [done|].
    split; [done|]. intros j Hj. lia.
Qed.

(** When the fuel runs out, every candidate tested exists. *)
Lemma probe_None fuel fs root base : ∀ attempt c,
  probe fuel fs root base attempt c = None →
  ∀ i, (i < fuel)%nat →
       path_exists fs (probe_candidate root base attempt c i) = true.
Proof.
  induction fuel as [|fuel IH]; intros attempt c H i Hi; [lia|].
  cbn [probe] in H. destruct (path_exists fs c) eqn:Ec; [|done].
  destruct i as [|i]; [done|].
  rewrite probe_candidate_step. apply (IH _ _ H). lia.
Qed.

(** The loop of [ensure_unique_folder] stops: the candidates are
    pairwise different, so they cannot all be among the finitely many
    existing paths. *)
Lemma ensure_unique_folder_total fs root base :
  ∃ p, ensure_unique_folder fs root base = Some p.
Proof.
  unfold ensure_unique_folder.
  destruct (probe (S (size fs)) fs root base 1 (joinpath root base))
    as [p|] eqn:E; [by exists p|].
  exfalso. pose proof (probe_None _ _ _ _ _ _ E) as Hall.
  set (cand := λ i : nat, numbered_folder root base (1 + Z.of_nat i)).
  set (L := cand <$> seq 0 (S (size fs))).
  assert (Hnd : NoDup L).
  { apply NoDup_fmap_2; [|apply NoDup_seq].
    intros i j Hij. apply numbered_folder_inj in Hij; lia. }
  assert (Hsub : (list_to_set L : gset path) ⊆ dom fs).
  { intros x Hx. apply elem_of_list_to_set, list_elem_of_fmap in Hx
      as (i & -> & Hi). apply elem_of_seq in Hi.
    specialize (Hall i ltac:(lia)). rewrite probe_candidate_numbered in Hall.
    apply elem_of_dom. by apply bool_decide_eq_true in Hall. }
  apply subseteq_size in Hsub.
  rewrite size_list_to_set, size_dom in Hsub by done.
  subst L. rewrite length_fmap, length_seq in Hsub. lia.
Qed.

(** The folder returned is the first of the numbered folders that does
    not exist. *)
Lemma ensure_unique_folder_first_free fs root base N :
  0 ≤ N →
  (∀ k, 1 ≤ k ≤ N → path_exists fs (numbered_folder root base k) = true) →
  path_exists fs (numbered_folder root base (N + 1)) = false →
  ensure_unique_folder fs root base = Some (numbered_folder root base (N + 1)).
Proof.
  intros HN Hex Hfree.
  destruct (ensure_unique_folder_total fs root base) as [p Hp].
  pose proof Hp as Hfirst. unfold ensure_unique_folder in Hfirst.
  apply probe_Some in Hfirst as (i & _ & Ei & Hnew & Hbefore).
  rewrite probe_candidate_numbered in Ei. rewrite Hp. f_equal.
  assert (Z.of_nat i = N) as Hi.
  { destruct (Z.lt_trichotomy (Z.of_nat i) N) as [Hlt|[Heq|Hgt]]; [|done|].
    - specialize (Hex (1 + Z.of_nat i) ltac:(lia)). congruence.
    - specialize (Hbefore (Z.to_nat N) ltac:(lia)).
      rewrite probe_candidate_numbered, Z2Nat.id in Hbefore by lia.
      rewrite Z.add_comm in Hbefore. congruence. }
  rewrite Ei, Hi. f_equal. lia.
Qed.

Lemma ensure_unique_folder_fresh fs root base p :
  ensure_unique_folder fs root base = Some p → path_exists fs p = false.
Proof.
  unfold ensure_unique_folder. intros H.
  by apply probe_Some in H as (_ & _ & _ & H & _).
Qed.

Lemma path_exists_insert (fs : filesystem) p q n :
  path_exists (<[p := n]> fs) q = bool_decide (p = q) || path_exists fs q.
Proof.
  unfold path_exists. destruct (decide (p = q)) as [->|Hne].
  - rewrite lookup_insert_eq.
    rewrite (bool_decide_eq_true_2 (is_Some (Some n))) by (by eexists).
    by rewrite (bool_decide_eq_true_2 (q = q)).
  - rewrite lookup_insert_ne by done. by rewrite (bool_decide_eq_false_2 (p = q)).
Qed.

(** After [n] products with the slug on a file system that had none of
    its numbered folders, exactly the first [n] of them exist. *)
Lemma after_products_numbered n fs root base :
  (∀ k, 1 ≤ k → path_exists fs (numbered_folder root base k) = false) →
  ∃ fs', after_products n fs root base = Some fs'
    ∧ ∀ k, 1 ≤ k →
           path_exists fs' (numbered_folder root base k) = (k <=? Z.of_nat n).
Proof.
  intros Hnone. induction n as [|n (fs' & E & Hfs')]; cbn [after_products].
  - exists fs. split; [done|]. intros k Hk. rewrite Hnone by done.
    symmetry. apply Z.leb_gt. lia.
  - rewrite E.
    rewrite (ensure_unique_folder_first_free fs' root base (Z.of_nat n));
      [|lia|intros k Hk; rewrite Hfs' by lia; apply Z.leb_le; lia
       |rewrite Hfs' by lia; apply Z.leb_gt; lia].
    eexists. split; [done|]. intros k Hk.
    rewrite path_exists_insert, Hfs' by done.
    destruct (decide (k = Z.of_nat n + 1)) as [->|Hne].
    + rewrite bool_decide_eq_true_2 by done. symmetry. apply Z.leb_le. lia.
    + rewrite bool_decide_eq_false_2
        by (intros H; apply numbered_folder_inj in H; lia).
      cbn [orb]. destruct (Z.leb_spec k (Z.of_nat n)).
      * symmetry. apply Z.leb_le. lia.
      * symmetry. apply Z.leb_gt. lia.
Qed.

(** C3. [ensure_unique_folder] returns a path, and one that does not
    exist; when [root/base_slug] does not exist it is returned; when
    the folders of [N] earlier products with this slug exist
    ([root/base_slug], [root/base_slug-2], ..., [root/base_slug-N]) and
    the next one does not, [root/base_slug-(N+1)] is returned; and so
    it is after [n] products with the slug have been given their
    folders on a file system that had none of them. *)
Theorem ensure_unique_folder_spec (fs : filesystem) (root : path)
    (base_slug : str) :
  (∃ p, ensure_unique_folder fs root base_slug = Some p
        ∧ path_exists fs p = false)
  ∧ (path_exists fs (joinpath root base_slug) = false →
     ensure_unique_folder fs root base_slug = Some (joinpath root base_slug))
  ∧ (∀ N, 1 ≤ N →
       (∀ k, 1 ≤ k ≤ N →
             path_exists fs (numbered_folder root base_slug k) = true) →
       path_exists fs (numbered_folder root base_slug (N + 1)) = false →
       ensure_unique_folder fs root base_slug
       = Some (joinpath root (base_slug ++ u "-" ++ str_of_int (N + 1))))
  ∧ (∀ n : nat,
       (1 ≤ n)%nat →
       (∀ k, 1 ≤ k →
             path_exists fs (numbered_folder root base_slug k) = false) →
       ∃ fs', after_products n fs root base_slug = Some fs'
         ∧ ensure_unique_folder fs' root base_slug
           = Some (joinpath root
                     (base_slug ++ u "-" ++ str_of_int (Z.of_nat n + 1)))).
Proof.
  assert (Hnum : ∀ N, 1 ≤ N →
            numbered_folder root base_slug (N + 1)
            = joinpath root (base_slug ++ u "-" ++ str_of_int (N + 1))).
  { intros N HN. unfold numbered_folder.
    by rewrite (proj2 (Z.eqb_neq _ 1)) by lia. }
  split; [|split; [|split]].
  - destruct (ensure_unique_folder_total fs root base_slug) as [p Hp].
    exists p. split; [done|]. by eapply ensure_unique_folder_fresh.
  - intros Hfree.
    apply (ensure_unique_folder_first_free fs root base_slug 0);
      [lia|intros k Hk; lia|done].
  - intros N HN Hex Hfree. rewrite <- Hnum by done.
    apply ensure_unique_folder_first_free; [lia|done|done].
  - intros n Hn Hnone.
    destruct (after_products_numbered n fs root base_slug Hnone)
      as (fs' & E & Hfs').
    exists fs'. split; [done|]. rewrite <- Hnum by lia.
    apply ensure_unique_folder_first_free;
      [lia|intros k Hk; rewrite Hfs' by lia; apply Z.leb_le; lia
      |rewrite Hfs' by lia; apply Z.leb_gt; lia].
Qed.

Lemma ensure_unique_folder_spec_witness :
  ensure_unique_folder
    {[ [u "images"; u "mug"] := Dir; [u "images"; u "mug-2"] := Dir ]}
    [u "images"] (u "mug")
  = Some [u "images"; u "mug-3"]
  ∧ ensure_unique_folder ∅ [u "images"] (u "mug") = Some [u "images"; u "mug"].
Proof.
  split.
  - apply (ensure_unique_folder_spec
             {[ [u "images"; u "mug"] := Dir; [u "images"; u "mug-2"] := Dir ]}
             [u "images"] (u "mug")) with (N := 2).
    + lia.
    + intros k Hk. assert (k = 1 ∨ k = 2) as [-> | ->] by lia; by vm_compute.
    + by vm_compute.
  - apply (ensure_unique_folder_spec ∅ [u "images"] (u "mug")). by vm_compute.
Defined.

(** ** The canvas *)

Lemma floor_bounds a b : 0 < b → (a / b) * b ≤ a < (a / b + 1) * b.
Proof.
  intros Hb. pose proof (Z.div_mod a b ltac:(lia)).
  pose proof (Z.mod_pos_bound a b Hb). nia.
Qed.

Lemma ceil_bounds a b : 0 < b → (ceil_div a b - 1) * b < a ≤ ceil_div a b * b.
Proof.
  intros Hb. unfold ceil_div. pose proof (floor_bounds (- a) b Hb). nia.
Qed.

Lemma floor_le_ceil a b : 0 < b → a / b ≤ ceil_div a b.
Proof.
  intros Hb. pose proof (floor_bounds a b Hb). pose proof (ceil_bounds a b Hb).
  nia.
Qed.

(** *** Rounding to an integer and to binary64 *)

Lemma div_round_half_even_bounds n d :
  0 < d → 2 * Z.abs (div_round_half_even n d * d - n) ≤ d.
Proof.
  intros Hd. unfold div_round_half_even.
  pose proof (Z.div_mod n d ltac:(lia)) as E.
  pose proof (Z.mod_pos_bound n d Hd) as Hr.
  set (q := n / d) in *. set (r := n mod d) in *.
  destruct (2 * r >? d) eqn:E1; cbn [orb].
  - lia.
  - destruct (2 * r =? d) eqn:E2; cbn [andb]; [destruct (Z.odd q)|]; lia.
Qed.

Lemma div_ratio p q p' q' :
  0 < q → 0 < q' → p * q' = p' * q → p / q = p' / q'.
Proof.
  intros Hq Hq' E.
  pose proof (Z.div_mod p q ltac:(lia)) as E1.
  pose proof (Z.mod_pos_bound p q Hq) as Hr.
  apply (Z.div_unique_pos p' q' (p / q) (p' - q' * (p / q))); [|lia].
  set (a := p / q) in *. set (r := p mod q) in *. nia.
Qed.

Lemma div_round_half_even_ratio n d n' d' :
  0 < d → 0 < d' → n * d' = n' * d →
  div_round_half_even n d = div_round_half_even n' d'.
Proof.
  intros Hd Hd' E. unfold div_round_half_even.
  rewrite <- (div_ratio n d n' d' Hd Hd' E).
  pose proof (Z.div_mod n d ltac:(lia)) as E1.
  pose proof (Z.div_mod n' d' ltac:(lia)) as E2.
  rewrite <- (div_ratio n d n' d' Hd Hd' E) in E2.
  pose proof (Z.mod_pos_bound n d Hd) as Hr.
  pose proof (Z.mod_pos_bound n' d' Hd') as Hr'.
  set (q := n / d) in *. set (r := n mod d) in *. set (r' := n' mod d') in *.
  assert (Er : r * d' = r' * d) by nia.
  assert (E3 : (2 * r >? d) = (2 * r' >? d')).
  { destruct (Z.gtb_spec (2 * r) d), (Z.gtb_spec (2 * r') d'); try done; nia. }
  assert (E4 : (2 * r =? d) = (2 * r' =? d')).
  { destruct (Z.eqb_spec (2 * r) d), (Z.eqb_spec (2 * r') d'); try done; nia. }
  by rewrite E3, E4.
Qed.

Lemma div_round_half_even_ge n d :
  0 < d → n / d ≤ div_round_half_even n d.
Proof.
  intros Hd. unfold div_round_half_even.
  destruct (_ || _); lia.
Qed.

Lemma b64_round_ratio p q p' q' :
  0 < q → 0 < q' → p * q' = p' * q → b64_round p q = b64_round p' q'.
Proof.
  intros Hq Hq' E. unfold b64_round.
  rewrite <- (div_ratio p q p' q' Hq Hq' E).
  set (g := Z.max (Z.log2 (p / q) - 52) 0).
  assert (0 < 2 ^ g) by (apply Z.pow_pos_nonneg; lia).
  f_equal. apply div_round_half_even_ratio; nia.
Qed.

Lemma b64_round_nonneg p q : 0 ≤ p → 0 < q → 0 ≤ b64_round p q.
Proof.
  intros Hp Hq. unfold b64_round.
  set (g := Z.max (Z.log2 (p / q) - 52) 0).
  assert (0 < 2 ^ g) by (apply Z.pow_pos_nonneg; lia).
  pose proof (div_round_half_even_ge p (q * 2 ^ g) ltac:(nia)).
  assert (0 ≤ p / (q * 2 ^ g)) by (apply Z.div_pos; nia).
  nia.
Qed.

Lemma b64_round_0 q : 0 < q → b64_round 0 q = 0.
Proof.
  intros Hq. unfold b64_round. rewrite Z.div_0_l by lia.
  change (Z.max (Z.log2 0 - 52) 0) with 0. rewrite Z.pow_0_r, Z.mul_1_r.
  unfold div_round_half_even. rewrite Z.div_0_l, Zmod_0_l by lia.
  rewrite Z.mul_1_r.
  destruct (Z.gtb_spec (2 * 0) q); [lia|].
  destruct (Z.eqb_spec (2 * 0) q); [lia|]. done.
Qed.

(** the scale and the leading bit of a value of at least one unit *)
Lemma b64_round_scale p q :
  0 < q → q ≤ p →
  let g := Z.max (Z.log2 (p / q) - 52) 0 in
  0 < 2 ^ g ∧ q * 2 ^ g ≤ p ∧ (q * 2 ^ 53 ≤ p → 2 ^ 52 * (q * 2 ^ g) ≤ p).
Proof.
  intros Hq Hp g.
  assert (Hg : 0 < 2 ^ g) by (apply Z.pow_pos_nonneg; lia).
  assert (H1 : 1 ≤ p / q) by (apply Z.div_le_lower_bound; lia).
  pose proof (Z.log2_spec (p / q) ltac:(lia)) as [Hl _].
  pose proof (Z.mul_div_le p q Hq) as Hm.
  pose proof (Z.log2_nonneg (p / q)) as Hl0.
  set (l := Z.log2 (p / q)) in *.
  assert (Hgl : 2 ^ g ≤ 2 ^ l) by (apply Z.pow_le_mono_r; lia).
  split; [done|]. split; [nia|].
  intros H53.
  assert (H2 : 2 ^ 53 ≤ p / q) by (apply Z.div_le_lower_bound; lia).
  assert (53 ≤ l).
  { subst l. rewrite <- (Z.log2_pow2 53) by lia. by apply Z.log2_le_mono. }
  assert (Eg : g = l - 52) by lia.
  assert (El : 2 ^ l = 2 ^ 52 * 2 ^ g).
  { rewrite Eg, <- Z.pow_add_r by lia. f_equal. lia. }
  nia.
Qed.

Lemma b64_round_pos p q : 0 < q → q ≤ p → 0 < b64_round p q.
Proof.
  intros Hq Hp. destruct (b64_round_scale p q Hq Hp) as (Hg & Hle & _).
  unfold b64_round. set (g := Z.max (Z.log2 (p / q) - 52) 0) in *.
  pose proof (div_round_half_even_ge p (q * 2 ^ g) ltac:(nia)).
  assert (1 ≤ p / (q * 2 ^ g)) by (apply Z.div_le_lower_bound; nia).
  nia.
Qed.

(** the relative error of rounding is at most 2^-53 *)
Lemma b64_round_error p q :
  0 < q → q * 2 ^ 53 ≤ p →
  2 ^ 53 * Z.abs (b64_round p q * q - p) ≤ p.
Proof.
  intros Hq Hp.
  destruct (b64_round_scale p q Hq ltac:(lia)) as (Hg & _ & H52).
  specialize (H52 Hp). unfold b64_round.
  set (g := Z.max (Z.log2 (p / q) - 52) 0) in *.
  pose proof (div_round_half_even_bounds p (q * 2 ^ g) ltac:(nia)) as Hb.
  set (m := div_round_half_even p (q * 2 ^ g)) in *.
  replace (m * 2 ^ g * q - p) with (m * (q * 2 ^ g) - p) by ring.
  change (2 ^ 53) with (2 * 2 ^ 52). lia.
Qed.

(** *** Floor, ceiling and the choice between them *)

Lemma B64_UNIT_big : 2 ^ 100 ≤ B64_UNIT.
Proof. apply Z.leb_le. by vm_compute. Qed.

Lemma b64_floor_spec x :
  b64_floor x * B64_UNIT ≤ x < (b64_floor x + 1) * B64_UNIT.
Proof.
  pose proof B64_UNIT_big. unfold b64_floor.
  pose proof (Z.mul_div_le x B64_UNIT ltac:(lia)).
  pose proof (Z.mul_succ_div_gt x B64_UNIT ltac:(lia)). lia.
Qed.

Lemma b64_ceil_spec x :
  (b64_ceil x - 1) * B64_UNIT < x ≤ b64_ceil x * B64_UNIT.
Proof.
  pose proof B64_UNIT_big. unfold b64_ceil, ceil_div.
  pose proof (Z.mul_div_le (- x) B64_UNIT ltac:(lia)).
  pose proof (Z.mul_succ_div_gt (- x) B64_UNIT ltac:(lia)). lia.
Qed.

(** strictly between two neighbouring integers, one of them is taken *)
Lemma round_aspect_between number key k :
  0 ≤ k → k * B64_UNIT < number < (k + 1) * B64_UNIT →
  round_aspect number key = Z.max k 1 ∨ round_aspect number key = k + 1.
Proof.
  intros Hk Hn. pose proof B64_UNIT_big.
  pose proof (b64_floor_spec number). pose proof (b64_ceil_spec number).
  unfold round_aspect.
  assert (b64_floor number = k) as -> by nia.
  assert (b64_ceil number = k + 1) as -> by nia.
  destruct (_ <? _); lia.
Qed.

(** next to an integer whose key is zero, that integer is taken *)
Lemma round_aspect_exact number key k :
  1 ≤ k → (k - 1) * B64_UNIT < number < (k + 1) * B64_UNIT →
  key k = 0 → (∀ n, 0 ≤ key n) →
  (number < k * B64_UNIT → 0 < key (k - 1) ∨ k = 1) →
  round_aspect number key = k.
Proof.
  intros Hk Hn Hkey Hpos Hlow. pose proof B64_UNIT_big.
  pose proof (b64_floor_spec number). pose proof (b64_ceil_spec number).
  unfold round_aspect.
  set (lo := b64_floor number) in *. set (hi := b64_ceil number) in *.
  assert (Hlo : lo = k ∨ (lo = k - 1 ∧ hi = k ∧ number < k * B64_UNIT)) by nia.
  destruct Hlo as [->|(-> & -> & Hlt)].
  - rewrite Hkey. pose proof (Hpos hi).
    destruct (Z.ltb_spec (key hi) 0); lia.
  - rewrite Hkey. destruct (Z.ltb_spec 0 (key (k - 1))); [lia|].
    destruct (Hlow Hlt); lia.
Qed.

(** *** The aspect ratio and the scaled side *)

Lemma b64_of_int_800 : b64_of_int 800 = 800 * B64_UNIT.
Proof. by vm_compute. Qed.

Lemma b64_int_div_same n : 0 < n → b64_int_div n n = B64_UNIT.
Proof.
  intros Hn. unfold b64_int_div.
  rewrite (b64_round_ratio (n * B64_UNIT) n B64_UNIT 1) by lia.
  by vm_compute.
Qed.

Lemma b64_dist_nonneg x y : 0 ≤ b64_dist x y.
Proof. apply b64_round_nonneg; lia. Qed.

Lemma b64_dist_same x : b64_dist x x = 0.
Proof. unfold b64_dist. rewrite Z.sub_diag. by apply b64_round_0. Qed.

Lemma b64_dist_pos x y : x ≠ y → 0 < b64_dist x y.
Proof. intros H. apply b64_round_pos; lia. Qed.

(** the quotient of two integers below 2^31, within the relative error
    of one rounding *)
Lemma b64_int_div_error a b :
  1 ≤ a < 2 ^ 31 → 1 ≤ b < 2 ^ 31 →
  (2 ^ 53 - 1) * (a * B64_UNIT) ≤ 2 ^ 53 * (b64_int_div a b * b)
  ∧ 2 ^ 53 * (b64_int_div a b * b) ≤ (2 ^ 53 + 1) * (a * B64_UNIT).
Proof.
  intros Ha Hb. pose proof B64_UNIT_big as HS.
  pose proof (b64_round_error (a * B64_UNIT) b ltac:(lia)) as H.
  unfold b64_int_div. set (S := B64_UNIT) in *.
  change (2 ^ 100) with 1267650600228229401496703205376 in HS.
  change (2 ^ 31) with 2147483648 in *.
  change (2 ^ 53) with 9007199254740992 in *.
  lapply H; [|nia]. lia.
Qed.

(** multiplying an inequality by a non-negative factor *)
Ltac mul_by c H :=
  let H' := fresh "Hm" in
  pose proof (Z.mul_le_mono_nonneg_r _ _ c ltac:(lia) H) as H'.

Section Aspect.
Variables w h : Z.
Hypothesis Hw : 1 ≤ w < 2 ^ 31.
Hypothesis Hh : 1 ≤ h < 2 ^ 31.

Local Abbreviation aspect := (b64_int_div w h).

Lemma aspect_le_one : aspect ≤ B64_UNIT → w ≤ h.
Proof.
  intros Ha. pose proof B64_UNIT_big as HS.
  destruct (b64_int_div_error w h Hw Hh) as [H1 _].
  set (a := aspect) in *. set (S := B64_UNIT) in *.
  change (2 ^ 100) with 1267650600228229401496703205376 in HS.
  change (2 ^ 31) with 2147483648 in *.
  change (2 ^ 53) with 9007199254740992 in *.
  destruct (Z.le_gt_cases w h) as [|Hlt]; [done|exfalso].
  mul_by h Ha.
  assert (Hwh : h + 1 ≤ w) by lia. mul_by S Hwh.
  assert (Hh' : h ≤ 2147483648) by lia. mul_by S Hh'.
  lia.
Qed.

Lemma aspect_gt_one : B64_UNIT < aspect → h < w.
Proof.
  intros Ha. pose proof B64_UNIT_big as HS.
  destruct (b64_int_div_error w h Hw Hh) as [_ H2].
  destruct (Z.lt_ge_cases h w) as [|Hle]; [done|exfalso].
  destruct (Z.eq_dec w h) as [->|Hne].
  { rewrite b64_int_div_same in Ha; lia. }
  set (a := aspect) in *. set (S := B64_UNIT) in *.
  change (2 ^ 100) with 1267650600228229401496703205376 in HS.
  change (2 ^ 31) with 2147483648 in *.
  change (2 ^ 53) with 9007199254740992 in *.
  assert (Ha' : S + 1 ≤ a) by lia. mul_by h Ha'.
  assert (Hwh : w ≤ h - 1) by lia. mul_by S Hwh.
  assert (Hh' : h ≤ 2147483648) by lia. mul_by S Hh'.
  lia.
Qed.

Lemma aspect_bounds : 2 ^ 53 ≤ aspect ≤ 2 ^ 32 * B64_UNIT.
Proof.
  pose proof B64_UNIT_big as HS.
  destruct (b64_int_div_error w h Hw Hh) as [H1 H2].
  assert (Ha0 : 0 ≤ aspect) by (apply b64_round_nonneg; lia).
  set (a := aspect) in *. set (S := B64_UNIT) in *.
  change (2 ^ 100) with 1267650600228229401496703205376 in HS.
  change (2 ^ 31) with 2147483648 in *.
  change (2 ^ 32) with 4294967296 in *.
  change (2 ^ 53) with 9007199254740992 in *.
  assert (Hw1 : 1 ≤ w) by lia. mul_by S Hw1.
  assert (Hw2 : w ≤ 2147483648) by lia. mul_by S Hw2.
  split.
  - destruct (Z.le_gt_cases 9007199254740992 a) as [|Hlt]; [done|exfalso].
    assert (Ha1 : a ≤ 9007199254740992) by lia. mul_by h Ha1.
    assert (Hh1 : h ≤ 2147483648) by lia.
    pose proof (Z.mul_le_mono_nonneg_l _ _ 9007199254740992 ltac:(lia) Hh1).
    lia.
  - assert (Hh1 : 1 ≤ h) by lia.
    pose proof (Z.mul_le_mono_nonneg_l _ _ a Ha0 Hh1). lia.
Qed.

(** the float [800 * aspect] lies on the same side of every integer as
    the exact [800 * w / h] *)
Lemma scaled_width_side k :
  let number := b64_mul (b64_of_int 800) aspect in
  (k * h < 800 * w → k * B64_UNIT < number)
  ∧ (800 * w < k * h → number < k * B64_UNIT).
Proof.
  intros number. pose proof B64_UNIT_big as HS.
  destruct (b64_int_div_error w h Hw Hh) as [H1 H2].
  pose proof aspect_bounds as [Ha _].
  assert (En : number = b64_round (800 * aspect) 1).
  { subst number. rewrite b64_of_int_800. unfold b64_mul.
    apply b64_round_ratio; lia. }
  pose proof (b64_round_error (800 * aspect) 1 ltac:(lia)) as H3.
  rewrite <- En in H3. clearbody number. clear En.
  set (a := aspect) in *. set (S := B64_UNIT) in *.
  change (2 ^ 100) with 1267650600228229401496703205376 in HS.
  change (2 ^ 31) with 2147483648 in *.
  change (2 ^ 53) with 9007199254740992 in *.
  lapply H3; [clear H3; intros H3|lia].
  assert (Hw2 : w ≤ 2147483648) by lia. mul_by S Hw2.
  split; intros Hk.
  - destruct (Z.lt_ge_cases (k * S) number) as [|Hle]; [done|exfalso].
    assert (H4 : 9007199254740991 * 800 * a ≤ 9007199254740992 * number)
      by lia.
    mul_by h H4. mul_by h Hle.
    assert (Hk' : k * h ≤ 800 * w - 1) by lia. mul_by S Hk'.
    lia.
  - destruct (Z.lt_ge_cases number (k * S)) as [|Hle]; [done|exfalso].
    assert (H4 : 9007199254740992 * number ≤ 9007199254740993 * 800 * a)
      by lia.
    mul_by h H4. mul_by h Hle.
    assert (Hk' : 800 * w + 1 ≤ k * h) by lia. mul_by S Hk'.
    lia.
Qed.

(** the float [800 / aspect] lies on the same side of every integer as
    the exact [800 * h / w] *)
Lemma scaled_height_side k :
  let number := b64_div (b64_of_int 800) aspect in
  (k * w < 800 * h → k * B64_UNIT < number)
  ∧ (800 * h < k * w → number < k * B64_UNIT).
Proof.
  intros number. pose proof B64_UNIT_big as HS.
  destruct (b64_int_div_error w h Hw Hh) as [H1 H2].
  pose proof aspect_bounds as [Ha Ha'].
  assert (Hn0 : 0 ≤ number).
  { subst number. rewrite b64_of_int_800. apply b64_round_nonneg; lia. }
  assert (H3 : 2 ^ 53 * Z.abs (number * aspect - 800 * B64_UNIT * B64_UNIT)
               ≤ 800 * B64_UNIT * B64_UNIT).
  { subst number. rewrite b64_of_int_800. unfold b64_div.
    apply b64_round_error; [lia|].
    change (2 ^ 100) with 1267650600228229401496703205376 in HS.
    change (2 ^ 32) with 4294967296 in *.
    change (2 ^ 53) with 9007199254740992 in *.
    assert (HS' : 4294967296 * 9007199254740992 ≤ 800 * B64_UNIT) by lia.
    mul_by B64_UNIT HS'. mul_by 9007199254740992 Ha'. lia. }
  clearbody number.
  set (a := aspect) in *. set (S := B64_UNIT) in *.
  change (2 ^ 100) with 1267650600228229401496703205376 in HS.
  change (2 ^ 31) with 2147483648 in *.
  change (2 ^ 32) with 4294967296 in *.
  change (2 ^ 53) with 9007199254740992 in *.
  assert (Hh2 : h ≤ 2147483648) by lia. mul_by S Hh2.
  split; intros Hk.
  - destruct (Z.lt_ge_cases (k * S) number) as [|Hle]; [done|exfalso].
    assert (Hk0 : 0 ≤ k).
    { destruct (Z.lt_ge_cases k 0) as [Hneg|]; [|done].
      pose proof (Z.mul_neg_pos k S Hneg ltac:(lia)). lia. }
    mul_by a Hle.
    assert (Hc : S * (9007199254740991 * 800 * S)
                 ≤ S * (9007199254740992 * (k * a))) by lia.
    apply Z.mul_le_mono_pos_l in Hc; [|lia].
    mul_by h Hc.
    pose proof (Z.mul_le_mono_nonneg_l _ _ k Hk0 H2) as H5.
    assert (Hk' : k * w ≤ 800 * h - 1) by lia. mul_by S Hk'.
    lia.
  - destruct (Z.lt_ge_cases number (k * S)) as [|Hle]; [done|exfalso].
    assert (Hk0 : 0 ≤ k).
    { destruct (Z.lt_ge_cases k 0) as [Hneg|]; [|done].
      pose proof (Z.mul_neg_pos k w Hneg ltac:(lia)). lia. }
    mul_by a Hle.
    assert (Hc : S * (9007199254740992 * (k * a))
                 ≤ S * (9007199254740993 * 800 * S)) by lia.
    apply Z.mul_le_mono_pos_l in Hc; [|lia].
    mul_by h Hc.
    pose proof (Z.mul_le_mono_nonneg_l _ _ k Hk0 H1) as H5.
    assert (Hk' : 800 * h + 1 ≤ k * w) by lia. mul_by S Hk'.
    lia.
Qed.

Lemma aspect_of_width k : 800 * w = k * h → b64_int_div k 800 = aspect.
Proof. intros E. apply b64_round_ratio; lia. Qed.

Lemma aspect_of_height k :
  1 ≤ k → 800 * h = k * w → b64_int_div 800 k = aspect.
Proof. intros Hk E. apply b64_round_ratio; lia. Qed.
End Aspect.

(** neighbouring widths and heights have different ratios *)
Lemma b64_int_div_800_lt k :
  2 ≤ k ≤ 800 → b64_int_div (k - 1) 800 < b64_int_div k 800.
Proof.
  intros Hk. pose proof B64_UNIT_big as HS.
  destruct (b64_int_div_error (k - 1) 800) as [_ H1]; [lia|lia|].
  destruct (b64_int_div_error k 800) as [H2 _]; [lia|lia|].
  set (x' := b64_int_div (k - 1) 800) in *. set (x := b64_int_div k 800) in *.
  set (S := B64_UNIT) in *.
  change (2 ^ 100) with 1267650600228229401496703205376 in HS.
  change (2 ^ 53) with 9007199254740992 in *.
  destruct (Z.lt_ge_cases x' x) as [|Hle]; [done|exfalso].
  assert (Hk' : k ≤ 800) by lia. mul_by S Hk'. lia.
Qed.

Lemma b64_int_div_800_gt k :
  2 ≤ k ≤ 800 → b64_int_div 800 k < b64_int_div 800 (k - 1).
Proof.
  intros Hk. pose proof B64_UNIT_big as HS.
  destruct (b64_int_div_error 800 (k - 1)) as [H1 _]; [lia|lia|].
  destruct (b64_int_div_error 800 k) as [H2 H3]; [lia|lia|].
  assert (Hy0 : 0 ≤ b64_int_div 800 k) by (apply b64_round_nonneg; lia).
  set (y' := b64_int_div 800 (k - 1)) in *. set (y := b64_int_div 800 k) in *.
  set (S := B64_UNIT) in *.
  change (2 ^ 100) with 1267650600228229401496703205376 in HS.
  change (2 ^ 53) with 9007199254740992 in *.
  destruct (Z.lt_ge_cases y y') as [|Hle]; [done|exfalso].
  mul_by (k - 1) Hle.
  assert (Hk' : k ≤ 800) by lia.
  pose proof (Z.mul_le_mono_nonneg_l _ _ y Hy0 Hk').
  lia.
Qed.

(** the width chosen for a tall image *)
Lemma round_aspect_width w h :
  1 ≤ w < 2 ^ 31 → 1 ≤ h < 2 ^ 31 → w ≤ h → 800 < h →
  let aspect := b64_int_div w h in
  let w' := round_aspect (b64_mul (b64_of_int 800) aspect)
              (λ n, b64_dist aspect (b64_int_div n 800)) in
  1 ≤ w' ≤ 800 ∧ w' ≤ w ∧ (w' - 1) * h < 800 * w < (w' + 1) * h.
Proof.
  intros Hw Hh Hwh H800 aspect w'. subst aspect.
  pose proof (Z.div_mod (800 * w) h ltac:(lia)) as Ediv.
  pose proof (Z.mod_pos_bound (800 * w) h ltac:(lia)) as Hmod.
  set (k := 800 * w / h) in *. set (r := (800 * w) mod h) in *.
  assert (Hk0 : 0 ≤ k) by (apply Z.div_pos; lia).
  assert (Hkw : k * h ≤ 800 * w) by lia.
  assert (Hk800 : r = 0 → k ≤ 800) by nia.
  assert (Hk799 : 0 < r → k < 800) by nia.
  assert (Hkw' : k < w) by nia.
  destruct (Z.eq_dec r 0) as [Er|Er].
  - assert (E : 800 * w = k * h) by lia.
    assert (Hk1 : 1 ≤ k) by nia.
    assert (Hw' : w' = k).
    { subst w'. apply round_aspect_exact.
      - done.
      - split.
        + apply (scaled_width_side w h Hw Hh (k - 1)). nia.
        + apply (scaled_width_side w h Hw Hh (k + 1)). nia.
      - cbv beta. rewrite (aspect_of_width w h Hh k E). apply b64_dist_same.
      - intros n. apply b64_dist_nonneg.
      - intros _. destruct (Z.eq_dec k 1) as [|Hne]; [by right|left].
        cbv beta. apply b64_dist_pos.
        rewrite <- (aspect_of_width w h Hh k E).
        pose proof (b64_int_div_800_lt k ltac:(lia)). lia. }
    rewrite Hw'. nia.
  - assert (Hlt : k * h < 800 * w < (k + 1) * h) by lia.
    assert (Hw' : w' = Z.max k 1 ∨ w' = k + 1).
    { subst w'. apply round_aspect_between; [done|]. split.
      - apply (scaled_width_side w h Hw Hh k). lia.
      - apply (scaled_width_side w h Hw Hh (k + 1)). lia. }
    destruct Hw' as [-> | ->]; nia.
Qed.

(** the height chosen for a wide image *)
Lemma round_aspect_height w h :
  1 ≤ w < 2 ^ 31 → 1 ≤ h < 2 ^ 31 → h < w → 800 < w →
  let aspect := b64_int_div w h in
  let h' := round_aspect (b64_div (b64_of_int 800) aspect)
              (λ n, if n =? 0 then 0 else b64_dist aspect (b64_int_div 800 n)) in
  1 ≤ h' ≤ 800 ∧ h' ≤ h ∧ (h' - 1) * w < 800 * h < (h' + 1) * w.
Proof.
  intros Hw Hh Hwh H800 aspect h'. subst aspect.
  pose proof (Z.div_mod (800 * h) w ltac:(lia)) as Ediv.
  pose proof (Z.mod_pos_bound (800 * h) w ltac:(lia)) as Hmod.
  set (k := 800 * h / w) in *. set (r := (800 * h) mod w) in *.
  assert (Hk0 : 0 ≤ k) by (apply Z.div_pos; lia).
  assert (Hkw : k * w ≤ 800 * h) by lia.
  assert (Hk799 : k < 800) by nia.
  assert (Hkh : k < h) by nia.
  destruct (Z.eq_dec r 0) as [Er|Er].
  - assert (E : 800 * h = k * w) by lia.
    assert (Hk1 : 1 ≤ k) by nia.
    assert (Hh' : h' = k).
    { subst h'. apply round_aspect_exact.
      - done.
      - split.
        + apply (scaled_height_side w h Hw Hh (k - 1)). nia.
        + apply (scaled_height_side w h Hw Hh (k + 1)). nia.
      - cbv beta. destruct (Z.eqb_spec k 0); [lia|].
        rewrite (aspect_of_height w h Hh k Hk1 E). apply b64_dist_same.
      - intros n. cbv beta. destruct (n =? 0); [done|apply b64_dist_nonneg].
      - intros _. destruct (Z.eq_dec k 1) as [|Hne]; [by right|left].
        cbv beta. destruct (Z.eqb_spec (k - 1) 0); [lia|].
        apply b64_dist_pos.
        rewrite <- (aspect_of_height w h Hh k Hk1 E).
        pose proof (b64_int_div_800_gt k ltac:(lia)). lia. }
    rewrite Hh'. nia.
  - assert (Hlt : k * w < 800 * h < (k + 1) * w) by lia.
    assert (Hh' : h' = Z.max k 1 ∨ h' = k + 1).
    { subst h'. apply round_aspect_between; [done|]. split.
      - apply (scaled_height_side w h Hw Hh k). lia.
      - apply (scaled_height_side w h Hw Hh (k + 1)). lia. }
    destruct Hh' as [-> | ->]; nia.
Qed.

(** The size after [thumbnail((800, 800))]: unchanged when the image
    fits; otherwise the longer side becomes 800 and the other is the
    proportional length rounded to a neighbouring integer, and neither
    side grows. *)
Lemma thumbnail_size_spec w h :
  1 ≤ w < 2 ^ 31 → 1 ≤ h < 2 ^ 31 →
  match thumbnail_size w h 800 800 with
  | None => w ≤ 800 ∧ h ≤ 800
  | Some (w', h') =>
      ¬ (w ≤ 800 ∧ h ≤ 800)
      ∧ 1 ≤ w' ≤ 800 ∧ 1 ≤ h' ≤ 800 ∧ w' ≤ w ∧ h' ≤ h
      ∧ ((h' = 800 ∧ w ≤ h ∧ (w' - 1) * h < 800 * w < (w' + 1) * h)
         ∨ (w' = 800 ∧ h < w ∧ (h' - 1) * w < 800 * h < (h' + 1) * w))
  end.
Proof.
  intros Hw Hh. unfold thumbnail_size.
  destruct ((800 >=? w) && (800 >=? h)) eqn:Efit; [lia|].
  assert (Hnofit : ¬ (w ≤ 800 ∧ h ≤ 800)) by lia.
  rewrite (b64_int_div_same 800) by lia.
  destruct (B64_UNIT >=? b64_int_div w h) eqn:Ecase.
  - assert (Hwh : w ≤ h) by (apply aspect_le_one; lia).
    destruct (round_aspect_width w h Hw Hh Hwh ltac:(lia)) as (H1 & H2 & H3).
    split; [done|]. split; [done|]. split; [lia|]. split; [done|].
    split; [lia|]. left. done.
  - assert (Hwh : h < w) by (apply aspect_gt_one; lia).
    destruct (round_aspect_height w h Hw Hh Hwh ltac:(lia)) as (H1 & H2 & H3).
    split; [done|]. split; [lia|]. split; [done|]. split; [lia|].
    split; [done|]. right. done.
Qed.

(** C1. For a decoded image of at least one pixel (a side of an image
    is below 2^31 in the imaging library), the canvas
    [to_exact_canvas_webp] composes is 800 by 800.  The image pasted on
    it is the decoded one when that fits; otherwise it is the decoded
    image resampled to a new size, whose longer side is 800 and whose
    other side is proportional up to rounding.  It is never larger than
    the decoded image nor than the canvas; it is pasted at the integer
    halves of the free space, inside the canvas, the pixels around it
    white; a decoded image of 800 by 800 is pasted at (0, 0).  The
    canvas is what the file written at [dest_path] holds. *)
Theorem to_exact_canvas_webp_spec (S : services) (decoded : image) :
  1 ≤ im_width decoded < 2 ^ 31 → 1 ≤ im_height decoded < 2 ^ 31 →
  let img := thumbnail S decoded TARGET_W TARGET_H in
  let canvas := compose_canvas S decoded in
  let x := fst (paste_offset (im_width img) (im_height img)) in
  let y := snd (paste_offset (im_width img) (im_height img)) in
  let w := im_width decoded in
  let h := im_height decoded in
  (im_width canvas = 800 ∧ im_height canvas = 800)
  ∧ (1 ≤ im_width img ≤ 800 ∧ 1 ≤ im_height img ≤ 800)
  ∧ (im_width img ≤ w ∧ im_height img ≤ h)
  ∧ (w ≤ 800 ∧ h ≤ 800 → img = decoded)
  ∧ (¬ (w ≤ 800 ∧ h ≤ 800) →
     im_px img = resample S decoded (im_width img) (im_height img)
     ∧ ((im_height img = 800 ∧ w ≤ h
         ∧ (im_width img - 1) * h < 800 * w < (im_width img + 1) * h)
        ∨ (im_width img = 800 ∧ h < w
           ∧ (im_height img - 1) * w < 800 * h < (im_height img + 1) * w)))
  ∧ (x = (800 - im_width img) / 2 ∧ y = (800 - im_height img) / 2
     ∧ 0 ≤ x ∧ x + im_width img ≤ 800 ∧ 0 ≤ y ∧ y + im_height img ≤ 800
     ∧ 0 ≤ (800 - im_width img - x) - x ≤ 1
     ∧ 0 ≤ (800 - im_height img - y) - y ≤ 1)
  ∧ (∀ i j,
       im_px canvas i j
       = if in_range x (x + im_width img - 1) i
            && in_range y (y + im_height img - 1) j
         then im_px img (i - x) (j - y) else WHITE)
  ∧ (w = 800 ∧ h = 800 → img = decoded ∧ x = 0 ∧ y = 0)
  ∧ (∀ fs fs1 img_bytes dest_path,
       decode_rgb S img_bytes = Ok decoded →
       mkdir_p fs (parent dest_path) = Ok fs1 →
       fs1 !! dest_path ≠ Some Dir →
       to_exact_canvas_webp S fs img_bytes dest_path
       = Ok (<[dest_path := File canvas]> fs1)).
Proof.
  intros Hw Hh img canvas x y w h.
  pose proof (thumbnail_size_spec w h Hw Hh) as Hsz.
  assert (Himg : (w ≤ 800 ∧ h ≤ 800 ∧ img = decoded)
                 ∨ (¬ (w ≤ 800 ∧ h ≤ 800)
                    ∧ 1 ≤ im_width img ≤ 800 ∧ 1 ≤ im_height img ≤ 800
                    ∧ im_width img ≤ w ∧ im_height img ≤ h
                    ∧ im_px img
                      = resample S decoded (im_width img) (im_height img)
                    ∧ ((im_height img = 800 ∧ w ≤ h
                        ∧ (im_width img - 1) * h < 800 * w < (im_width img + 1) * h)
                       ∨ (im_width img = 800 ∧ h < w
                          ∧ (im_height img - 1) * w < 800 * h
                            < (im_height img + 1) * w)))).
  { subst img. unfold thumbnail. fold w h. change TARGET_W with 800.
    change TARGET_H with 800.
    destruct (thumbnail_size w h 800 800) as [[w' h']|];
      [|left; destruct Hsz; done].
    right. destruct Hsz as (Hnf & Hw' & Hh' & Hsz).
    destruct ((w' =? w) && (h' =? h)) eqn:E; [lia|].
    cbn [im_width im_height im_px]. tauto. }
  assert (Hdims : 1 ≤ im_width img ≤ 800 ∧ 1 ≤ im_height img ≤ 800
                  ∧ im_width img ≤ w ∧ im_height img ≤ h).
  { destruct Himg as [(? & ? & ->)|(_ & ? & ? & ? & ? & _)];
      [fold w h; lia|repeat split; lia]. }
  assert (Hxy : x = (800 - im_width img) / 2 ∧ y = (800 - im_height img) / 2)
    by done.
  destruct Hxy as [Ex Ey].
  pose proof (floor_bounds (800 - im_width img) 2 ltac:(lia)) as Hfx.
  pose proof (floor_bounds (800 - im_height img) 2 ltac:(lia)) as Hfy.
  rewrite <- Ex in Hfx. rewrite <- Ey in Hfy.
  split; [done|]. split; [lia|]. split; [lia|].
  split; [intros ?; destruct Himg as [(_ & _ & ?)|[? _]]; [done|lia]|].
  split; [intros ?; destruct Himg as [(? & ? & _)|(_ & _ & _ & _ & _ & ?)];
          [lia|done]|].
  split; [lia|]. split; [done|]. split.
  - intros [Ew Eh]. destruct Himg as [(_ & _ & E)|[? _]]; [|lia].
    split; [done|]. rewrite Ex, Ey, E. fold w h. rewrite Ew, Eh. done.
  - intros fs fs1 img_bytes dest_path Hdec Hmk Hnd.
    unfold to_exact_canvas_webp. rewrite Hdec. cbn [mbind result_bind].
    rewrite Hmk. cbn [mbind result_bind]. unfold save_image.
    by destruct (fs1 !! dest_path) as [[]|].
Qed.

Lemma to_exact_canvas_webp_spec_witness :
  (im_width (compose_canvas sample_services (new_image 1600 1200 (0, 0, 0))) = 800
   ∧ im_height (compose_canvas sample_services (new_image 1600 1200 (0, 0, 0))) = 800)
  ∧ to_exact_canvas_webp sample_services ∅ [1600; 1200] [u "images"; u "mug"; u "1.webp"]
    = Ok (<[[u "images"; u "mug"; u "1.webp"]
            := File (compose_canvas sample_services (new_image 1600 1200 (0, 0, 0)))]>
            {[ [u "images"] := Dir; [u "images"; u "mug"] := Dir ]}).
Proof.
  destruct (to_exact_canvas_webp_spec sample_services
              (new_image 1600 1200 (0, 0, 0)))
    as (H1 & _ & _ & _ & _ & _ & _ & _ & H9);
    [by vm_compute|by vm_compute|].
  split; [exact H1|].
  assert (Hmk : mkdir_p ∅ (parent [u "images"; u "mug"; u "1.webp"])
                = Ok {[ [u "images"] := Dir; [u "images"; u "mug"] := Dir ]})
    by by vm_compute.
  assert (Hnd : ({[ [u "images"] := Dir; [u "images"; u "mug"] := Dir ]}
                 : filesystem) !! [u "images"; u "mug"; u "1.webp"] ≠ Some Dir)
    by by vm_compute.
  exact (H9 ∅ _ [1600; 1200] [u "images"; u "mug"; u "1.webp"] eq_refl Hmk Hnd).
Defined.

(** how sizes come out: a landscape image is scaled to the canvas width
    and centred vertically; where the two neighbouring widths are
    equally far from the exact proportion, the rounding of the float
    keys decides, here for the larger one *)
Lemma compose_canvas_example :
  let img := thumbnail sample_services (new_image 1600 1200 (0, 0, 0)) 800 800 in
  (im_width img, im_height img) = (800, 600)
  ∧ paste_offset (im_width img) (im_height img) = (0, 100)
  ∧ paste_offset 800 800 = (0, 0)
  ∧ thumbnail_size 543 960 800 800 = Some (453, 800)
  ∧ paste_offset 453 800 = (173, 0)
  ∧ thumbnail_size 1604 402 800 800 = Some (800, 201)
  ∧ thumbnail_size 1000 1 800 800 = Some (800, 1)
  ∧ thumbnail_size 800 800 800 800 = None.
Proof. by vm_compute. Qed.

(** ** Lines without URLs *)

Lemma nonempty_parts_nil raw :
  nonempty_parts raw = [] ↔ Forall (λ e, py_strip e = []) (split_on 59 raw).
Proof.
  unfold nonempty_parts. induction (split_on 59 raw) as [|e r IH]; cbn.
  - split; [constructor|done].
  - rewrite Forall_cons. destruct (py_strip e); cbn; [tauto|].
    split; [done|]. by intros [? _].
Qed.

(** C8. A line whose URL part has no non-empty entry after trimming:
    [process_line] returns normally, having only printed the warning,
    with the file system as it was; and the loop of [main] goes on with
    the lines that follow. *)
Theorem process_line_no_urls (S : services) (U : runtime) (w : world)
    (line : str) (idx : Z) :
  Forall (λ e, py_strip e = []) (split_on 59 (parse_line line idx).1) →
  let w' := print (no_urls_warning idx) w in
  process_line S U w line idx = Some (w', Ok tt)
  ∧ w_fs w' = w_fs w
  ∧ w_out w' = w_out w ++ [no_urls_warning idx]
  ∧ ∀ rest,
      process_lines S U w (line :: rest) idx
      = process_lines S U w' rest (idx + 1).
Proof.
  intros Hurls w'. apply nonempty_parts_nil in Hurls.
  assert (E : process_line S U w line idx = Some (w', Ok tt)).
  { unfold process_line. destruct (parse_line line idx) as [urls_part title].
    cbn [fst] in Hurls.
    destruct (ensure_unique_folder_total (w_fs w) OUT_ROOT
                (short_title_slug U title)) as [out_dir ->].
    by rewrite Hurls. }
  split; [done|]. split; [done|]. split; [done|].
  intros rest. cbn [process_lines]. by rewrite E.
Qed.

Lemma process_line_no_urls_witness :
  process_line sample_services latin1_runtime
    {| w_fs := {[ [u "images"] := Dir ]}; w_out := [] |}
    (u " ; ;" ++ [9] ++ u "Blue Mug") 7
  = Some (print (no_urls_warning 7)
            {| w_fs := {[ [u "images"] := Dir ]}; w_out := [] |},
          Ok tt).
Proof.
  apply (process_line_no_urls sample_services latin1_runtime
           {| w_fs := {[ [u "images"] := Dir ]}; w_out := [] |}
           (u " ; ;" ++ [9] ++ u "Blue Mug") 7).
  repeat constructor.
Defined.

(** a line with a title and no URL between two good lines: the two
    folders are made, none for the line in between *)
Lemma process_lines_example :
  ∃ w', process_lines sample_services latin1_runtime
          {| w_fs := {[ [u "images"] := Dir ]}; w_out := [] |}
          [ [2; 2] ++ [9] ++ u "Blue Mug";
            u ";" ++ [9] ++ u "Red Mug";
            [3; 3] ++ [9] ++ u "Green Mug" ] 1
        = Some (w', Ok tt)
    ∧ path_exists (w_fs w') [u "images"; u "blue-mug"; u "1.webp"] = true
    ∧ path_exists (w_fs w') [u "images"; u "red-mug"] = false
    ∧ path_exists (w_fs w') [u "images"; u "green-mug"; u "1.webp"] = true.
Proof. eexists. split; [by vm_compute|]. by vm_compute. Qed.

(** ** Pushing the rows *)

Lemma mapM_result_Ok {A B} (f : A → result B) l k :
  mapM f l = Ok k ↔ Forall2 (λ x y, f x = Ok y) l k.
Proof.
  revert k. induction l as [|x l IH]; intros k; cbn; unfold mret, result_ret.
  - split; [intros [= <-]; constructor|by inversion 1].
  - destruct (f x) as [y|e] eqn:Ex; cbn.
    + destruct (mapM f l) as [k'|e] eqn:El; cbn; unfold mret, result_ret.
      * split.
        -- intros [= <-]. constructor; [done|]. by apply IH.
        -- inversion 1 as [|? y' ? k'' Hy Hk]; subst.
           apply IH in Hk. congruence.
      * split; [done|]. inversion 1 as [|? y' ? k'' Hy Hk]; subst.
        by apply IH in Hk.
    + split; [done|]. inversion 1; congruence.
Qed.

Lemma mapM_result_total {A B} (f : A → result B) l :
  Forall (λ x, ∃ y, f x = Ok y) l → ∃ k, mapM f l = Ok k.
Proof.
  induction 1 as [|x l [y Hy] _ [k Hk]]; cbn.
  - by exists [].
  - rewrite Hy. cbn. rewrite Hk. cbn. by eexists.
Qed.

Lemma overlay_nil data : overlay data [] = data.
Proof. induction data as [|r data IH]; cbn; congruence. Qed.

(** C9 (as amended). With no rows [push_to_sheet] raises, and whenever
    it raises the spreadsheet is as before, no call having been made on
    it.  With rows that all carry the keys of the first one it returns
    normally: the tab then holds the keys of the first record, in their
    order, and under them one line per record with its values in that
    order, in a grid of exactly that size; so for such rows it raises
    exactly when there are none. *)
Theorem push_to_sheet_spec (ss : spreadsheet) (rows : list row) :
  push_to_sheet ss [] = (ss, Raise ValueError)
  ∧ (∀ ss' e, push_to_sheet ss rows = (ss', Raise e) → ss' = ss)
  ∧ (uniform_rows rows → rows ≠ [] →
     ∃ ss' ws headers body,
       push_to_sheet ss rows = (ss', Ok tt)
       ∧ Some headers = map fst <$> head rows
       ∧ Forall2 (λ d vals, Forall2 (λ h v, dict_get d h = Ok v) headers vals)
           rows body
       ∧ ss_sheets ss' !! OUTPUT_WORKSHEET_NAME = Some ws
       ∧ ws_cells ws = headers :: body
       ∧ ws_rows ws = Z.of_nat (length rows) + 1
       ∧ ws_cols ws = Z.of_nat (length headers)
       ∧ ∃ calls, ss_calls ss' = ss_calls ss ++ calls
           ∧ last calls
             = Some (CallUpdate OUTPUT_WORKSHEET_NAME (u "A1") (headers :: body)))
  ∧ (uniform_rows rows →
     (rows = [] ↔ ∃ ss' e, push_to_sheet ss rows = (ss', Raise e))).
Proof.
  assert (Hok : uniform_rows rows → rows ≠ [] →
    ∃ ss' ws headers body,
       push_to_sheet ss rows = (ss', Ok tt)
       ∧ Some headers = map fst <$> head rows
       ∧ Forall2 (λ d vals, Forall2 (λ h v, dict_get d h = Ok v) headers vals)
           rows body
       ∧ ss_sheets ss' !! OUTPUT_WORKSHEET_NAME = Some ws
       ∧ ws_cells ws = headers :: body
       ∧ ws_rows ws = Z.of_nat (length rows) + 1
       ∧ ws_cols ws = Z.of_nat (length headers)
       ∧ ∃ calls, ss_calls ss' = ss_calls ss ++ calls
           ∧ last calls
             = Some (CallUpdate OUTPUT_WORKSHEET_NAME (u "A1") (headers :: body))).
  { intros Hu Hne. destruct rows as [|first rest]; [done|].
    specialize (Hu first rest eq_refl).
    set (headers := map fst first) in *.
    destruct (mapM_result_total (row_values headers) (first :: rest))
      as [body Hbody].
    { eapply Forall_impl; [exact Hu|]. intros d Hd.
      by apply mapM_result_total. }
    assert (Hlen : length body = length (first :: rest)).
    { apply mapM_result_Ok in Hbody. symmetry. by eapply Forall2_length. }
    unfold push_to_sheet. fold headers. rewrite Hbody.
    set (name := OUTPUT_WORKSHEET_NAME).
    set (data := headers :: body).
    set (rows_n := Z.of_nat (length data)).
    set (cols_n := Z.of_nat (length headers)).
    assert (Hfinal : ∀ ws0,
      ws_update_A1 data (ws_resize rows_n cols_n (ws_clear ws0))
      = {| ws_rows := rows_n; ws_cols := cols_n; ws_cells := data |}).
    { intros ws0. unfold ws_update_A1, ws_resize, ws_clear. cbn.
      by rewrite take_nil, overlay_nil. }
    cbn [ss_sheets log_call].
    destruct (ss_sheets ss !! name) as [ws0|] eqn:Elook;
      eexists _, _, headers, body;
      (split; [reflexivity|]); (split; [done|]);
      (split; [apply mapM_result_Ok in Hbody;
               eapply Forall2_impl; [exact Hbody|];
               intros d vals Hv; by apply mapM_result_Ok in Hv|]);
      cbn [ss_sheets set_sheet log_call ss_calls];
      (split; [apply lookup_insert_eq|]); rewrite Hfinal; cbn [ws_cells ws_rows ws_cols];
      (split; [done|]);
      (split; [subst rows_n data; cbn [length] in *; lia|]);
      (split; [done|]);
      rewrite <- !app_assoc; eexists; (split; [reflexivity|]); done. }
  split; [done|]. split; [|split; [exact Hok|]].
  - intros ss' e H. unfold push_to_sheet in H.
    destruct rows as [|first rest]; [congruence|].
    destruct (mapM _ _) as [body|e']; [|congruence].
    by destruct (ss_sheets (log_call _ ss) !! _).
  - intros Hu. split.
    + intros ->. by exists ss, ValueError.
    + intros (ss' & e & H). destruct rows as [|first rest]; [done|].
      destruct (Hok Hu ltac:(done)) as (? & ? & ? & ? & E & _). congruence.
Qed.

Lemma push_to_sheet_spec_witness :
  ∃ ss' ws,
    push_to_sheet {| ss_sheets := ∅; ss_calls := [] |}
      [ [(u "Product Title", u "Mug"); (u "Brand", u "Acme")];
        [(u "Brand", u "Zed"); (u "Product Title", u "Cup")] ]
    = (ss', Ok tt)
    ∧ ss_sheets ss' !! OUTPUT_WORKSHEET_NAME = Some ws
    ∧ ws_cells ws
      = [ [u "Product Title"; u "Brand"]; [u "Mug"; u "Acme"]; [u "Cup"; u "Zed"] ].
Proof.
  destruct (push_to_sheet_spec {| ss_sheets := ∅; ss_calls := [] |}
      [ [(u "Product Title", u "Mug"); (u "Brand", u "Acme")];
        [(u "Brand", u "Zed"); (u "Product Title", u "Cup")] ])
    as (_ & _ & H & _).
  destruct H as (ss' & ws & headers & body & E & Hh & Hb & Hl & Hc & _).
  - intros first rest [= <- <-]. repeat constructor; by eexists.
  - done.
  - exists ss', ws. split; [done|]. split; [done|]. rewrite Hc.
    injection Hh as ->. f_equal.
    repeat match goal with
    | H : Forall2 _ (_ :: _) _ |- _ => apply Forall2_cons_inv_l in H as (? & ? & ? & ? & ->)
    | H : Forall2 _ [] _ |- _ => apply Forall2_nil_inv_l in H as ->
    | H : dict_get _ _ = Ok _ |- _ => vm_compute in H; injection H as <-
    end.
    done.
Defined.

(** C9 as stated fails: rows whose later record lacks a key of the
    first make the building of the grid raise, though there are rows. *)
Lemma push_to_sheet_counterexample :
  push_to_sheet {| ss_sheets := ∅; ss_calls := [] |}
    [ [(u "a", u "1")]; [(u "b", u "2")] ]
  = ({| ss_sheets := ∅; ss_calls := [] |}, Raise KeyError).
Proof. reflexivity. Qed.

(** ** The image folder of a metadata row *)

Lemma build_row_fields U r title x :
  build_row U r title = Ok x →
  dict_get x (u "Image Folder") = Ok (u "images/" ++ short_title_slug U title)
  ∧ dict_get x (u "Main Image File") = Ok (u "1.webp")
  ∧ dict_get x (u "Product Title") = Ok title
  ∧ map fst x = ROW_KEYS.
Proof.
  unfold build_row. destruct (best_price U r) as [price|]; [|done].
  destruct (extract_main_image r) as [main_image_url|]; [|done].
  cbn [mbind result_bind]. intros [= <-]. repeat split; reflexivity.
Qed.

(** C10. Every row [build_rows] emits belongs to a record with a title,
    in order; its "Image Folder" is ["images/"] followed by the slug of
    that title, a function of the title alone, and its "Main Image
    File" is ["1.webp"].  Rows are emitted whenever the price and image
    cells of the titled records can be read. *)
Theorem build_rows_image_folder (U : runtime) (records : list record) :
  (∀ rows, build_rows U records = Ok rows →
     Forall2 (λ r x,
         dict_get x (u "Image Folder")
         = Ok (u "images/" ++ short_title_slug U (record_title U r))
         ∧ dict_get x (u "Main Image File") = Ok (u "1.webp")
         ∧ dict_get x (u "Product Title") = Ok (record_title U r)
         ∧ map fst x = ROW_KEYS)
       (List.filter (has_title U) records) rows)
  ∧ (Forall (λ r, has_title U r = true →
                  (∃ p, best_price U r = Ok p)
                  ∧ ∃ m, extract_main_image r = Ok m) records →
     ∃ rows, build_rows U records = Ok rows).
Proof.
  split.
  - induction records as [|r rest IH]; intros rows H; cbn [build_rows] in H.
    + injection H as <-. constructor.
    + cbn [List.filter]. unfold has_title at 1.
      fold (record_title U r) in H.
      destruct (str_nonempty (record_title U r)); [|by apply IH].
      destruct (build_row U r (record_title U r)) as [x|] eqn:Ex; [|done].
      destruct (build_rows U rest) as [rows'|]; [|done].
      cbn [mbind result_bind] in H. injection H as <-.
      constructor; [by apply build_row_fields in Ex|by apply IH].
  - induction 1 as [|r rest Hr _ [rows IH]]; [by exists []|].
    cbn [build_rows]. fold (record_title U r). fold (has_title U r).
    destruct (has_title U r); [|by exists rows].
    destruct Hr as [[p Hp] [m Hm]]; [done|].
    unfold build_row. rewrite Hp, Hm, IH. cbn [mbind result_bind]. by eexists.
Qed.

Lemma build_rows_image_folder_witness :
  ∃ x, build_rows latin1_runtime
         [ {[ u "Title" := PStr (u " Blue Mug (350 ml) ");
              u "New: Current" := PStr (u "7.5") ]};
           {[ u "Title" := PStr (u "  "); u "Brand" := PStr (u "Acme") ]} ]
       = Ok [x]
    ∧ dict_get x (u "Image Folder") = Ok (u "images/blue-mug-350-ml")
    ∧ dict_get x (u "Main Image File") = Ok (u "1.webp").
Proof.
  set (records := [ {[ u "Title" := PStr (u " Blue Mug (350 ml) ");
                       u "New: Current" := PStr (u "7.5") ]};
                    {[ u "Title" := PStr (u "  "); u "Brand" := PStr (u "Acme") ]} ]
                  : list record).
  destruct (build_rows latin1_runtime records) as [rows|] eqn:E;
    [|by vm_compute in E].
  pose proof (proj1 (build_rows_image_folder latin1_runtime records) rows E) as H.
  change (List.filter (has_title latin1_runtime) records)
    with [ ({[ u "Title" := PStr (u " Blue Mug (350 ml) ");
               u "New: Current" := PStr (u "7.5") ]} : record) ] in H.
  apply Forall2_cons_inv_l in H as (x & rows' & (H1 & H2 & _) & Hnil & ->).
  apply Forall2_nil_inv_l in Hnil as ->.
  exists x. split; [done|]. split; [|done].
  rewrite H1. by vm_compute.
Defined.

(** The download pipeline and the metadata disagree once a slug
    collides: the second product of a title is stored under the
    suffixed folder, its row still names the plain one. *)
Lemma image_folder_ignores_collision_suffix :
  ensure_unique_folder {[ [u "images"] := Dir; [u "images"; u "blue-mug"] := Dir ]}
    OUT_ROOT (short_title_slug latin1_runtime (u "Blue Mug"))
  = Some [u "images"; u "blue-mug-2"]
  ∧ ∃ x, build_rows latin1_runtime [ {[ u "Title" := PStr (u "Blue Mug") ]} ]
         = Ok [x]
       ∧ dict_get x (u "Image Folder") = Ok (u "images/blue-mug").
Proof. split; [by vm_compute|]. eexists. split; by vm_compute. Qed.

(** * Further properties of the scripts *)

(** ** Stripping is stable *)

Lemma lstrip_with_id p s :
  (∀ c, head s = Some c → p c = false) → lstrip_with p s = s.
Proof. destruct s as [|a r]; [done|]. intros H. cbn. by rewrite H. Qed.

Lemma rstrip_with_id p s :
  (∀ c, last s = Some c → p c = false) → rstrip_with p s = s.
Proof.
  induction s as [|a r IH]; [done|]. intros H. cbn [rstrip_with].
  destruct r as [|b r'].
  - cbn. by rewrite H.
  - rewrite IH; [done|]. intros c Hc. apply H. by rewrite last_cons_cons.
Qed.

Lemma strip_with_id p s :
  (∀ c, head s = Some c → p c = false) →
  (∀ c, last s = Some c → p c = false) → strip_with p s = s.
Proof.
  intros Hh Hl. unfold strip_with. by rewrite lstrip_with_id, rstrip_with_id.
Qed.

Lemma strip_with_idem p s : strip_with p (strip_with p s) = strip_with p s.
Proof.
  apply strip_with_id.
  - intros c Hc. unfold strip_with in Hc.
    by apply rstrip_with_head, lstrip_with_head in Hc.
  - intros c. apply rstrip_with_last.
Qed.

Lemma Forall_head_last (P : Z → Prop) s :
  Forall P s →
  (∀ c, head s = Some c → P c) ∧ (∀ c, last s = Some c → P c).
Proof.
  intros H. rewrite Forall_forall in H. split; intros c Hc; apply H.
  - destruct s; [done|]. injection Hc as ->. constructor.
  - apply last_Some in Hc as [l' ->]. apply elem_of_app. right. constructor.
Qed.

(** ** More on the slug *)

(** X1. The slug does not depend on the white space around the title:
    the metadata export, which strips the title first, and the download
    script, which does not, name the same folder. *)
Theorem short_title_slug_strip (U : runtime) (title : str)
    (max_words max_len : Z) :
  short_title_slug_with U (py_strip title) max_words max_len
  = short_title_slug_with U title max_words max_len
  ∧ short_title_slug U (py_strip title) = short_title_slug U title.
Proof.
  assert (E : ∀ a b, cleaned_slug U (py_strip title) a b = cleaned_slug U title a b).
  { intros a b. unfold cleaned_slug, py_strip. by rewrite strip_with_idem. }
  unfold short_title_slug, short_title_slug_with. by rewrite !E.
Qed.

(** X2. Whatever the word and length limits, the slug has no two dashes
    in a row and no dash at either end; it is the fallback or has at
    most [max_len] characters, and the fallback is returned whatever
    [max_len] is. *)
Theorem short_title_slug_with_shape (U : runtime) (title : str)
    (max_words max_len : Z) :
  0 ≤ max_len →
  let s := short_title_slug_with U title max_words max_len in
  s ≠ []
  ∧ no_double is_dash s ∧ head s ≠ Some 45 ∧ last s ≠ Some 45
  ∧ (s = u "product" ∨ Z.of_nat (length s) ≤ max_len)
  ∧ (cleaned_slug U title max_words max_len = [] → s = u "product").
Proof.
  intros Hlen. unfold short_title_slug_with.
  assert (Hl : (length (cleaned_slug U title max_words max_len) ≤ Z.to_nat max_len)%nat).
  { unfold cleaned_slug. etrans; [apply length_rstrip_with|].
    by apply length_slice_to. }
  pose proof (slug_tail_shape
    (str_lower U (join (u "-") (slice_to max_words (split_on 32
       (py_strip (re_sub_runs isspace 1 (u " ") []
          (List.filter (λ c, is_word U c || isspace c || is_dash c)
             (py_strip title)))))))) max_len) as Hshape.
  change (rstrip_with is_dash _) with (cleaned_slug U title max_words max_len)
    in Hshape.
  destruct (cleaned_slug U title max_words max_len) as [|c r] eqn:E; cbv zeta.
  - split; [done|].
    split; [vm_compute; repeat split; by intros [? ?]|].
    split; [done|]. split; [done|].
    split; [by left|done].
  - destruct Hshape as (H1 & H2 & H3).
    split; [done|]. split; [done|]. split; [done|]. split; [done|].
    split; [right; lia|done].
Qed.

Lemma short_title_slug_with_shape_witness :
  short_title_slug_with latin1_runtime (u "!!!") 6 3 = u "product"
  ∧ Z.of_nat (length (short_title_slug_with latin1_runtime (u "Blue Mug") 6 3)) ≤ 3.
Proof.
  destruct (short_title_slug_with_shape latin1_runtime (u "!!!") 6 3 ltac:(lia))
    as (_ & _ & _ & _ & _ & H).
  destruct (short_title_slug_with_shape latin1_runtime (u "Blue Mug") 6 3 ltac:(lia))
    as (_ & _ & _ & _ & [H'|H'] & _).
  - by vm_compute in H'.
  - split; [apply H; reflexivity|exact H'].
Defined.

Lemma ascii_lower_folder_char c :
  ascii_isalnum c = true ∨ is_dash c = true ∨ c = 95 →
  folder_char (ascii_lower c) = true.
Proof.
  unfold folder_char, ascii_lower, ascii_isalnum, ascii_isupper, ascii_islower,
    ascii_isdigit, is_dash, in_range.
  intros H. destruct ((65 <=? c) && (c <=? 90)) eqn:E; lia.
Qed.

Lemma cleaned_slug_ascii_chars U title max_words max_len :
  Forall (λ c, is_ascii c = true) title →
  Forall (λ c, folder_char c = true) (cleaned_slug U title max_words max_len).
Proof.
  intros Ht. unfold cleaned_slug.
  set (Q5 := λ c, is_ascii c = true
                  ∧ (ascii_isalnum c = true ∨ is_dash c = true ∨ c = 95)).
  set (Q3 := λ c, c = 32 ∨ Q5 c).
  apply Forall_rstrip_with, Forall_slice_to, Forall_strip_with.
  apply Forall_re_sub_runs; [by repeat constructor|done|].
  match goal with |- Forall _ (str_lower U ?j) => assert (Hj : Forall Q5 j) end.
  { apply Forall_join; [repeat constructor; by right; left|].
    apply Forall_slice_to.
    eapply Forall_impl; [apply (Forall_split_on Q3)|].
    - apply Forall_strip_with, Forall_re_sub_runs_all; [by repeat constructor; left|].
      eapply Forall_impl;
        [apply Forall_List_filter, Forall_strip_with, Ht|].
      intros c [Ha Hf] Hs. right. split; [done|].
      unfold is_word in Hf. rewrite Ha, Hs in Hf.
      destruct (Z.eqb_spec c 95); [by right; right|].
      rewrite !orb_false_r in Hf. apply orb_true_iff in Hf. tauto.
    - intros w Hw. eapply Forall_impl; [exact Hw|].
      by intros c [[->|H] Hne]. }
  rewrite str_lower_ascii by (eapply Forall_impl; [exact Hj|by intros c [? _]]).
  apply Forall_map. eapply Forall_impl; [exact Hj|].
  intros c [_ H]. by apply ascii_lower_folder_char.
Qed.

(** X3. For a title of ASCII characters the slug is made of lowercase
    letters, digits, dashes and underscores only, whatever the limits:
    it holds no path separator, no dot and no white space, so it names
    a single folder. *)
Theorem short_title_slug_filesystem_safe (U : runtime) (title : str)
    (max_words max_len : Z) :
  Forall (λ c, is_ascii c = true) title →
  let s := short_title_slug_with U title max_words max_len in
  Forall (λ c, folder_char c = true) s
  ∧ (47 ∉ s) ∧ (46 ∉ s) ∧ (92 ∉ s)
  ∧ Forall (λ c, isspace c = false) s.
Proof.
  intros Ht s.
  assert (H : Forall (λ c, folder_char c = true) s).
  { subst s. unfold short_title_slug_with.
    pose proof (cleaned_slug_ascii_chars U title max_words max_len Ht) as Hc.
    destruct (cleaned_slug U title max_words max_len); [|done].
    by repeat constructor. }
  split; [done|]. rewrite Forall_forall in H.
  assert (Hno : ∀ c, folder_char c = false → c ∉ s).
  { intros c Hc Hin. apply H in Hin. congruence. }
  split; [by apply Hno|]. split; [by apply Hno|]. split; [by apply Hno|].
  apply Forall_forall. intros c Hc. apply H in Hc.
  unfold folder_char, ascii_islower, ascii_isdigit, is_dash, isspace, in_range
    in *. lia.
Qed.

Lemma short_title_slug_filesystem_safe_witness :
  47 ∉ short_title_slug_with latin1_runtime (u "AC/DC: Back_in Black.") 6 48.
Proof.
  apply (short_title_slug_filesystem_safe latin1_runtime
           (u "AC/DC: Back_in Black.") 6 48).
  apply Forall_forall. intros c Hc. apply list_elem_of_In in Hc.
  vm_compute in Hc. repeat (destruct Hc as [<-|Hc]; [reflexivity|]). done.
Defined.

Lemma List_filter_Forall {A} (f : A → bool) l :
  Forall (λ x, f x = true) l → List.filter f l = l.
Proof. induction 1 as [|a r Ha Hr IH]; simpl; [done|]. by rewrite Ha, IH. Qed.

Lemma re_sub_runs_none p min rep s :
  Forall (λ c, p c = false) s → re_sub_runs p min rep [] s = s.
Proof.
  induction 1 as [|c r Hc Hr IH]; cbn [re_sub_runs]; [done|].
  rewrite Hc. cbn. by rewrite IH.
Qed.

(** collapsing runs of two or more changes nothing where no two
    neighbours are of the class *)
Lemma re_sub_runs_2_id p rep s : ∀ run,
  Forall (λ c, p c = true) run → (length run ≤ 1)%nat →
  no_double p (rev run ++ s) →
  re_sub_runs p 2 rep run s = rev run ++ s.
Proof.
  induction s as [|c r IH]; intros run Hrun Hlen Hnd; cbn [re_sub_runs].
  - rewrite app_nil_r. unfold flush_run. destruct run as [|a [|b run']]; try done.
    cbn in Hlen. lia.
  - destruct (p c) eqn:Ec.
    + destruct run as [|a run'].
      * apply (IH [c]); [by repeat constructor|cbn; lia|done].
      * destruct run' as [|b run']; [|cbn in Hlen; lia].
        apply Forall_cons in Hrun as [Ha _]. cbn in Hnd.
        destruct Hnd as [Hnd _]. by destruct Hnd.
    + assert (Hfl : flush_run 2 rep run = rev run).
      { unfold flush_run. destruct run as [|a [|b run']]; try done.
        cbn in Hlen. lia. }
      rewrite Hfl. do 2 f_equal. apply (IH []); [done|cbn; lia|].
      apply no_double_app_r in Hnd. cbn. destruct r; [done|].
      cbn in Hnd. apply Hnd.
Qed.

Lemma split_on_none sep s :
  Forall (λ c, c ≠ sep) s → split_on sep s = [s].
Proof.
  induction 1 as [|c r Hc Hr IH]; cbn [split_on]; [done|].
  by rewrite (proj2 (Z.eqb_neq c sep) Hc), IH.
Qed.

(** A text that already has the form of a slug is its own slug. *)
Lemma short_title_slug_fixed U s :
  s ≠ [] → (length s ≤ 48)%nat →
  Forall (λ c, folder_char c = true) s →
  no_double is_dash s → head s ≠ Some 45 → last s ≠ Some 45 →
  short_title_slug U s = s.
Proof.
  intros Hne Hlen Hch Hnd Hh Hl.
  assert (Hfacts : Forall (λ c, isspace c = false ∧ c ≠ 32 ∧ is_ascii c = true
                            ∧ ascii_lower c = c
                            ∧ is_word U c || isspace c || is_dash c = true) s).
  { eapply Forall_impl; [exact Hch|]. intros c Hc.
    assert (Ha : is_ascii c = true)
      by (unfold folder_char, ascii_islower, ascii_isdigit, is_dash, is_ascii,
            in_range in *; lia).
    unfold is_word. rewrite Ha.
    unfold folder_char, ascii_lower, ascii_isalnum, ascii_isupper,
      ascii_islower, ascii_isdigit, is_dash, isspace, in_range in *.
    repeat split; try lia;
      destruct ((65 <=? c) && (c <=? 90)) eqn:E; lia. }
  assert (Hstrip : py_strip s = s).
  { destruct (Forall_head_last (λ c, isspace c = false) s) as [H1 H2];
      [eapply Forall_impl; [exact Hfacts|]; by intros ? (?&?&?&?&?)|].
    by apply strip_with_id. }
  assert (Hdash : strip_with is_dash s = s).
  { apply strip_with_id; intros c Hc; unfold is_dash;
      apply Z.eqb_neq; congruence. }
  unfold short_title_slug, short_title_slug_with, cleaned_slug.
  rewrite Hstrip.
  rewrite List_filter_Forall
    by (eapply Forall_impl; [exact Hfacts|]; by intros ? (?&?&?&?&?)).
  rewrite (re_sub_runs_none isspace 1 (u " ") s)
    by (eapply Forall_impl; [exact Hfacts|]; by intros ? (?&?&?&?&?)).
  rewrite Hstrip.
  rewrite split_on_none
    by (eapply Forall_impl; [exact Hfacts|]; by intros ? (?&?&?&?&?)).
  change (slice_to 6 [s]) with [s]. cbn [join].
  rewrite str_lower_ascii
    by (eapply Forall_impl; [exact Hfacts|]; by intros ? (?&?&?&?&?)).
  replace (map ascii_lower s) with s.
  2:{ clear -Hfacts. induction Hfacts as [|c r Hc Hr IH]; [done|].
      cbn. rewrite <- IH. f_equal. symmetry. by destruct Hc as (?&?&?&?&?). }
  rewrite (re_sub_runs_2_id is_dash (u "-") s []) by (done || cbn; lia).
  cbn [rev app]. rewrite Hdash.
  unfold slice_to. change (48 <? 0) with false. cbv iota.
  rewrite take_ge by (change (Z.to_nat 48) with 48%nat; lia).
  replace (rstrip_with is_dash s) with s.
  - by destruct s.
  - symmetry. apply rstrip_with_id. intros c Hc. unfold is_dash.
    apply Z.eqb_neq. congruence.
Qed.

(** X4. Slugging is idempotent on ASCII titles: the slug of a slug is
    that slug, so a folder name fed back as a title names the same
    folder. *)
Theorem short_title_slug_idempotent (U : runtime) (title : str) :
  Forall (λ c, is_ascii c = true) title →
  short_title_slug U (short_title_slug U title) = short_title_slug U title.
Proof.
  intros Ht. unfold short_title_slug at 2 3, short_title_slug_with.
  pose proof (cleaned_slug_ascii_chars U title 6 48 Ht) as Hch.
  assert (Hlen : (length (cleaned_slug U title 6 48) ≤ 48)%nat).
  { unfold cleaned_slug. etrans; [apply length_rstrip_with|].
    etrans; [apply length_slice_to; lia|]. lia. }
  assert (Hshape : no_double is_dash (cleaned_slug U title 6 48)
                   ∧ head (cleaned_slug U title 6 48) ≠ Some 45
                   ∧ last (cleaned_slug U title 6 48) ≠ Some 45)
    by apply slug_tail_shape.
  destruct (cleaned_slug U title 6 48) as [|c r] eqn:E.
  - reflexivity.
  - destruct Hshape as (H1 & H2 & H3). by apply short_title_slug_fixed.
Qed.

Lemma short_title_slug_idempotent_witness :
  short_title_slug latin1_runtime
    (short_title_slug latin1_runtime (u "  Blue -- Cotton_T-Shirt (L)  "))
  = short_title_slug latin1_runtime (u "  Blue -- Cotton_T-Shirt (L)  ").
Proof.
  apply (short_title_slug_idempotent latin1_runtime
           (u "  Blue -- Cotton_T-Shirt (L)  ")).
  apply Forall_forall. intros c Hc. apply list_elem_of_In in Hc.
  vm_compute in Hc. repeat (destruct Hc as [<-|Hc]; [reflexivity|]). done.
Defined.

(** ** More on the metadata rows *)

Lemma trim_to_length_length text limit :
  1 ≤ limit → Z.of_nat (length (trim_to_length text limit)) ≤ limit.
Proof.
  intros Hlim. unfold trim_to_length.
  destruct (Z.leb_spec (Z.of_nat (length (py_strip text))) limit); [done|].
  destruct (trim_words_spec (u " ") limit (split_ws (py_strip text)) eq_refl [] 0)
    as (k & _ & E1 & E2 & _); [done|lia|].
  cbn [app] in E1, E2. rewrite E1, length_app.
  change (length [ELLIPSIS]) with 1%nat.
  pose proof (length_rstrip_with (char_in (u ",.;:-"))
                (join (u " ") (take k (split_ws (py_strip text))))).
  lia.
Qed.

(** every row comes from a record with a title, through [build_row] *)
Lemma build_rows_rows U records rows :
  build_rows U records = Ok rows →
  Forall2 (λ r x, build_row U r (record_title U r) = Ok x)
    (List.filter (has_title U) records) rows.
Proof.
  revert rows. induction records as [|r rest IH]; intros rows H;
    cbn [build_rows] in H.
  - injection H as <-. constructor.
  - cbn [List.filter]. unfold has_title at 1. fold (record_title U r) in H.
    destruct (str_nonempty (record_title U r)) eqn:Et; [|by apply IH].
    destruct (build_row U r (record_title U r)) as [x|] eqn:Ex; [|done].
    destruct (build_rows U rest) as [rows'|]; [|done].
    cbn [mbind result_bind] in H. injection H as <-.
    constructor; [done|by apply IH].
Qed.

(** what [build_row] puts in a row *)
Lemma build_row_make U r title x :
  build_row U r title = Ok x →
  ∃ brand category price rating asin main_image_url,
    x = make_row U title brand category price rating asin
          (short_title_slug U title) main_image_url
    ∧ brand ≠ [] ∧ category ≠ []
    ∧ best_price U r = Ok price
    ∧ extract_main_image r = Ok main_image_url.
Proof.
  unfold build_row. destruct (best_price U r) as [price|]; [|done].
  destruct (extract_main_image r) as [m|]; [|done].
  cbn [mbind result_bind]. intros [= <-].
  eexists _, _, price, _, _, m. split; [reflexivity|].
  repeat split; unfold str_or;
    match goal with |- context [str_nonempty ?s] => by destruct s end.
Qed.

(** X5. The length limits in the column names hold: in every row of
    [build_rows] the SEO title has at most 60 characters and the meta
    description at most 160. *)
Theorem build_rows_text_limits (U : runtime) (records : list record)
    (rows : list row) :
  build_rows U records = Ok rows →
  Forall (λ x, ∃ seo meta,
            dict_get x (u "SEO Title (<=60)") = Ok seo
            ∧ (length seo ≤ 60)%nat
            ∧ dict_get x (u "Meta Description (<=160)") = Ok meta
            ∧ (length meta ≤ 160)%nat) rows.
Proof.
  intros H. apply build_rows_rows in H.
  induction H as [|r x rs xs Hx _ IH]; constructor; [|done].
  apply build_row_make in Hx as (brand & category & price & rating & asin & m
                                 & -> & _).
  eexists _, _. split; [reflexivity|]. split.
  - pose proof (trim_to_length_length (record_title U r) 60 ltac:(lia)). lia.
  - split; [reflexivity|].
    match goal with |- (length (trim_to_length ?t 160) ≤ _)%nat =>
      pose proof (trim_to_length_length t 160 ltac:(lia)) end.
    lia.
Qed.

Lemma build_rows_text_limits_witness :
  ∃ x seo,
    build_rows latin1_runtime
      [ {[ u "Title" := PStr (u "Stainless Steel Insulated Travel Mug with Handle and Leakproof Lid, 500 ml") ]} ]
    = Ok [x]
    ∧ dict_get x (u "SEO Title (<=60)") = Ok seo
    ∧ (length seo ≤ 60)%nat.
Proof.
  destruct (build_rows latin1_runtime
      [ {[ u "Title" := PStr (u "Stainless Steel Insulated Travel Mug with Handle and Leakproof Lid, 500 ml") ]} ])
    as [rows|] eqn:E; [|by vm_compute in E].
  pose proof (build_rows_text_limits _ _ _ E) as H.
  pose proof (build_rows_rows _ _ _ E) as H2.
  apply Forall2_length in H2. destruct rows as [|x [|y rows]]; try done.
  apply Forall_cons in H as [(seo & meta & H1 & H3 & _) _].
  by exists x, seo.
Defined.

Lemma detect_gender_loop_label U table lower :
  detect_gender_loop U table lower ∈ u "Unisex" :: map snd table.
Proof.
  induction table as [|[t g] rest IH]; cbn [detect_gender_loop map snd].
  - constructor.
  - destruct (word_search U t lower).
    + apply elem_of_cons. right. constructor.
    + apply elem_of_cons in IH as [->|IH]; [constructor|].
      do 2 apply list_elem_of_further. done.
Qed.

(** X6. [detect_gender] only ever answers "Women", "Men" or "Unisex". *)
Theorem detect_gender_labels (U : runtime) (title : str) :
  detect_gender U title = u "Women"
  ∨ detect_gender U title = u "Men"
  ∨ detect_gender U title = u "Unisex".
Proof.
  pose proof (detect_gender_loop_label U GENDER_KEYWORDS (str_lower U title)) as H.
  fold (detect_gender U title) in H.
  cbn [GENDER_KEYWORDS map snd] in H.
  repeat (apply elem_of_cons in H as [H|H]; [rewrite H; tauto|]).
  by apply not_elem_of_nil in H.
Qed.

(** X7. Every row of [build_rows] has a title that is not empty and
    carries no white space around it, a brand and a category that are
    not empty (defaults fill them in), and the thirteen columns in
    their order. *)
Theorem build_rows_filled (U : runtime) (records : list record)
    (rows : list row) :
  build_rows U records = Ok rows →
  Forall (λ x, ∃ title brand category,
            dict_get x (u "Product Title") = Ok title
            ∧ title ≠ [] ∧ py_strip title = title
            ∧ dict_get x (u "Brand") = Ok brand ∧ brand ≠ []
            ∧ dict_get x (u "Category (Suggested)") = Ok category
            ∧ category ≠ []
            ∧ map fst x = ROW_KEYS) rows.
Proof.
  intros H. apply build_rows_rows in H.
  assert (Ht : Forall (λ r, has_title U r = true) (List.filter (has_title U) records)).
  { apply Forall_forall. intros r Hr. by apply elem_of_List_filter in Hr as [_ ?]. }
  induction H as [|r x rs xs Hx _ IH]; [constructor|].
  apply Forall_cons in Ht as [Hr Ht]. constructor; [|by apply IH].
  apply build_row_make in Hx as (brand & category & price & rating & asin & m
                                 & -> & Hb & Hc & _).
  exists (record_title U r), brand, category.
  split; [reflexivity|].
  split; [unfold has_title in Hr; by destruct (record_title U r)|].
  split; [apply strip_with_idem|]. done.
Qed.

Lemma build_rows_filled_witness :
  ∃ x brand,
    build_rows latin1_runtime [ {[ u "Title" := PStr (u " Mug ") ]} ] = Ok [x]
    ∧ dict_get x (u "Brand") = Ok brand ∧ brand ≠ [].
Proof.
  destruct (build_rows latin1_runtime [ {[ u "Title" := PStr (u " Mug ") ]} ])
    as [rows|] eqn:E; [|by vm_compute in E].
  pose proof (build_rows_filled _ _ _ E) as H.
  pose proof (build_rows_rows _ _ _ E) as H2.
  apply Forall2_length in H2. destruct rows as [|x [|y rows]]; try done.
  apply Forall_cons in H as [(title & brand & category & _ & _ & _ & Hb & Hne & _) _].
  by exists x, brand.
Defined.

(** ** Prices and images of a record *)

Lemma normalise_price_text U s : ∃ p, normalise_price U (PStr s) = Ok p.
Proof.
  unfold normalise_price. destruct (truthy (PStr s)); cbn [negb]; [|by eexists].
  destruct (py_strip s) as [|c r]; [by eexists|].
  destruct (startswith [POUND] (c :: r)); [by eexists|].
  destruct (float_of_str U (c :: r)); by eexists.
Qed.

Lemma normalise_price_empty U v :
  normalise_price U v = Ok [] ↔ blank_cell v = true.
Proof.
  unfold normalise_price, blank_cell.
  destruct v as [|s|n|x].
  - done.
  - destruct (truthy (PStr s)) eqn:Et; cbn [negb].
    + destruct (py_strip s) as [|c r] eqn:Es; [done|]. cbn [str_nonempty negb].
      destruct (startswith [POUND] (c :: r)); [done|].
      by destruct (float_of_str U (c :: r)).
    + cbn in Et. destruct s; [done|]. by rewrite bool_decide_eq_false_2 in Et.
  - destruct (truthy (PInt n)); cbn [negb]; [|done].
    by destruct (float_of_int n).
  - by destruct (truthy (PFloat x)).
Qed.

(** X8. [best_price] takes the cells in the order Buy Box, New, List
    Price and answers with the first price that is not empty, without
    looking at the cells after it; its answer is empty exactly when all
    three cells are blank. *)
Theorem best_price_priority (U : runtime) (r : record) :
  let buy := record_get r KEY_BUY_BOX in
  let new := record_get r (u "New: Current") in
  let lst := record_get r (u "List Price: Current") in
  (∀ p, normalise_price U buy = Ok p → p ≠ [] → best_price U r = Ok p)
  ∧ (∀ p, blank_cell buy = true → normalise_price U new = Ok p → p ≠ [] →
          best_price U r = Ok p)
  ∧ (blank_cell buy = true → blank_cell new = true →
     best_price U r = normalise_price U lst)
  ∧ (best_price U r = Ok []
     ↔ blank_cell buy = true ∧ blank_cell new = true ∧ blank_cell lst = true).
Proof.
  intros buy new lst. unfold best_price. fold buy new lst.
  split; [|split; [|split]].
  - intros p -> Hp. cbn [mbind result_bind]. by destruct p.
  - intros p Hb -> Hp. apply (normalise_price_empty U) in Hb. rewrite Hb.
    cbn [mbind result_bind str_nonempty]. by destruct p.
  - intros Hb Hn. apply (normalise_price_empty U) in Hb.
    apply (normalise_price_empty U) in Hn. by rewrite Hb, Hn.
  - rewrite <- !(normalise_price_empty U).
    destruct (normalise_price U buy) as [[|c p]|e]; cbn [mbind result_bind str_nonempty].
    + destruct (normalise_price U new) as [[|c p]|e];
        cbn [mbind result_bind str_nonempty];
        [split; [done|by intros (_ & _ & ?)]| |];
        (split; [done|by intros (_ & [=] & _)]).
    + split; [done|by intros ([=] & _)].
    + split; [done|by intros ([=] & _)].
Qed.

Lemma best_price_priority_witness :
  best_price latin1_runtime
    {[ KEY_BUY_BOX := PStr (u " "); u "New: Current" := PStr (u "12.5");
       u "List Price: Current" := PInt (10 ^ 400) ]}
  = Ok (POUND :: u "12.50").
Proof.
  apply (best_price_priority latin1_runtime
    {[ KEY_BUY_BOX := PStr (u " "); u "New: Current" := PStr (u "12.5");
       u "List Price: Current" := PInt (10 ^ 400) ]}); by vm_compute.
Defined.

Lemma head_List_filter {A} (f : A → bool) l x :
  head (List.filter f l) = Some x →
  ∃ pre post, l = pre ++ x :: post
              ∧ Forall (λ y, f y = false) pre ∧ f x = true.
Proof.
  induction l as [|a r IH]; cbn [List.filter]; [done|].
  destruct (f a) eqn:Ea.
  - intros [= ->]. by exists [], r.
  - intros H. destruct (IH H) as (pre & post & -> & Hpre & Hx).
    exists (a :: pre), post. split; [done|]. split; [by constructor|done].
Qed.

Lemma head_List_filter_None {A} (f : A → bool) l :
  head (List.filter f l) = None ↔ Forall (λ y, f y = false) l.
Proof.
  induction l as [|a r IH]; cbn [List.filter]; [by split|].
  rewrite Forall_cons. destruct (f a); cbn; [|tauto].
  split; [done|by intros [? _]].
Qed.

(** X9. For a text "Image" cell [extract_main_image] gives the first
    entry between semicolons that is not blank, stripped, which holds
    no semicolon; it gives the empty string exactly when all entries
    are blank, and also when the record has no "Image" cell. *)
Theorem extract_main_image_first (r : record) :
  (r !! u "Image" = None → extract_main_image r = Ok [])
  ∧ (∀ s, r !! u "Image" = Some (PStr s) →
       ∃ x, extract_main_image r = Ok x
         ∧ py_strip x = x ∧ (59 ∉ x)
         ∧ (x = [] ↔ Forall (λ e, py_strip e = []) (split_on 59 s))
         ∧ (x ≠ [] →
            ∃ pre e post,
              split_on 59 s = pre ++ e :: post
              ∧ Forall (λ e', py_strip e' = []) pre
              ∧ x = py_strip e)).
Proof.
  unfold extract_main_image, record_get_str. split.
  - by intros ->.
  - intros s ->. change (default (PStr []) (Some (PStr s))) with (PStr s).
    assert (Hparts : ∀ e, e ∈ split_on 59 s →
              py_strip (py_strip e) = py_strip e ∧ 59 ∉ py_strip e).
    { intros e He. split; [apply strip_with_idem|].
      pose proof (Forall_split_on (λ _, True) 59 s ltac:(by apply Forall_true)) as H.
      rewrite Forall_forall in H. specialize (H e He).
      apply (Forall_strip_with _ isspace) in H.
      rewrite Forall_forall in H. intros Hin. by destruct (H _ Hin). }
    set (f := λ e, str_nonempty (py_strip e)).
    assert (Hmap : nonempty_parts s = map py_strip (List.filter f (split_on 59 s))).
    { unfold nonempty_parts. clear. induction (split_on 59 s) as [|e l IH]; [done|].
      cbn [map List.filter]. unfold f at 1.
      destruct (str_nonempty (py_strip e)); cbn [map]; by rewrite IH. }
    assert (Hblank : ∀ l, Forall (λ y, f y = false) l
                          ↔ Forall (λ e, py_strip e = []) l).
    { intros l. apply Forall_iff. intros e. unfold f. by destruct (py_strip e). }
    destruct (truthy (PStr s)) eqn:Et; cbv beta iota delta [negb].
    + rewrite Hmap. destruct (head (List.filter f (split_on 59 s))) as [e|] eqn:Eh.
      * destruct (head_List_filter _ _ _ Eh) as (pre & post & Esplit & Hpre & He).
        assert (e ∈ split_on 59 s)
          by (rewrite Esplit; apply elem_of_app; right; constructor).
        destruct (Hparts e) as [H1 H2]; [done|].
        exists (py_strip e).
        destruct (List.filter f (split_on 59 s)) as [|e' l'] eqn:Ef; [done|].
        injection Eh as ->. cbn [map head default].
        split; [done|]. split; [done|]. split; [done|].
        unfold f in He. split.
        -- split; [intros E; by rewrite E in He|].
           rewrite Esplit. intros Hall. apply Forall_app in Hall as [_ Hall].
           apply Forall_cons in Hall as [Hall _]. by rewrite Hall in He.
        -- intros _. exists pre, e, post. split; [done|]. by rewrite <- Hblank.
      * exists []. assert (List.filter f (split_on 59 s) = []) as ->
          by (by destruct (List.filter f (split_on 59 s))).
        cbn. split; [done|]. split; [done|]. split; [apply not_elem_of_nil|].
        split; [|done]. split; [|done]. intros _.
        apply Hblank, head_List_filter_None. done.
    + exists []. split; [done|]. split; [done|]. split; [apply not_elem_of_nil|].
      cbn in Et. destruct s; [|by rewrite bool_decide_eq_false_2 in Et].
      split; [|done]. split; [|done]. intros _. by repeat constructor.
Qed.

Lemma extract_main_image_first_witness :
  extract_main_image {[ u "Image" := PStr (u " ; https://a/1.jpg ;https://a/2.jpg") ]}
  = Ok (u "https://a/1.jpg")
  ∧ extract_main_image {[ u "Title" := PStr (u "Mug") ]} = Ok [].
Proof.
  destruct (extract_main_image_first
              {[ u "Image" := PStr (u " ; https://a/1.jpg ;https://a/2.jpg") ]})
    as [_ H].
  destruct (H (u " ; https://a/1.jpg ;https://a/2.jpg") eq_refl)
    as (x & E & _).
  split.
  - rewrite E. by vm_compute in E.
  - apply (extract_main_image_first {[ u "Title" := PStr (u "Mug") ]}).
    reflexivity.
Defined.

(** ** When [build_rows] returns and when it raises *)

Lemma record_get_text (r : record) key :
  (∀ k v, r !! k = Some v → ∃ s, v = PStr s) →
  record_get r key = PNone ∨ ∃ s, record_get r key = PStr s.
Proof.
  intros H. unfold record_get. destruct (r !! key) as [v|] eqn:E; [|by left].
  right. destruct (H _ _ E) as [s ->]. by exists s.
Qed.

Lemma best_price_text (U : runtime) (r : record) :
  (∀ k v, r !! k = Some v → ∃ s, v = PStr s) → ∃ p, best_price U r = Ok p.
Proof.
  intros H.
  assert (Hn : ∀ key, ∃ p, normalise_price U (record_get r key) = Ok p).
  { intros key. destruct (record_get_text r key H) as [->|[s ->]];
      [by exists []|apply normalise_price_text]. }
  unfold best_price.
  destruct (Hn KEY_BUY_BOX) as [a ->]. cbn [mbind result_bind].
  destruct (str_nonempty a); [by eexists|].
  destruct (Hn (u "New: Current")) as [b ->]. cbn [mbind result_bind].
  destruct (str_nonempty b); [by eexists|]. apply Hn.
Qed.

Lemma extract_main_image_text (r : record) :
  (∀ k v, r !! k = Some v → ∃ s, v = PStr s) → ∃ m, extract_main_image r = Ok m.
Proof.
  intros H. unfold extract_main_image, record_get_str.
  destruct (r !! u "Image") as [v|] eqn:E; [|by eexists].
  destruct (H _ _ E) as [s ->].
  change (default (PStr []) (Some (PStr s))) with (PStr s).
  destruct (negb (truthy (PStr s))); by eexists.
Qed.

(** X10. When every cell of every record is text, [build_rows] raises
    nothing and gives exactly one row for each record whose title is
    not blank. *)
Theorem build_rows_text_records (U : runtime) (records : list record) :
  Forall (λ r : record, ∀ k v, r !! k = Some v → ∃ s, v = PStr s) records →
  ∃ rows, build_rows U records = Ok rows
    ∧ length rows = length (List.filter (has_title U) records).
Proof.
  induction 1 as [|r rest Hr _ (rows & IH & Hlen)]; [by exists []|].
  cbn [build_rows List.filter]. fold (record_title U r). fold (has_title U r).
  destruct (has_title U r); [|by exists rows].
  destruct (best_price_text U r Hr) as [p Hp].
  destruct (extract_main_image_text r Hr) as [m Hm].
  unfold build_row. rewrite Hp, Hm, IH. cbn [mbind result_bind].
  eexists. split; [done|]. cbn. by rewrite Hlen.
Qed.

Lemma build_rows_text_records_witness :
  ∃ rows,
    build_rows latin1_runtime
      [ {[ u "Title" := PStr (u "Mug"); u "New: Current" := PStr (u "n/a") ]};
        {[ u "Brand" := PStr (u "Acme") ]};
        {[ u "Title" := PStr (u "Cup"); u "Image" := PStr (u ";") ]} ]
    = Ok rows
    ∧ length rows = 2%nat.
Proof.
  destruct (build_rows_text_records latin1_runtime
      [ {[ u "Title" := PStr (u "Mug"); u "New: Current" := PStr (u "n/a") ]};
        {[ u "Brand" := PStr (u "Acme") ]};
        {[ u "Title" := PStr (u "Cup"); u "Image" := PStr (u ";") ]} ])
    as (rows & E & Hl).
  - constructor; [|constructor; [|constructor; [|constructor]]];
      intros k v Hk;
      repeat (apply lookup_insert_Some in Hk as [[_ <-]|[_ Hk]]; [by eexists|]);
      apply lookup_singleton_Some in Hk as [_ <-]; by eexists.
  - exists rows. split; [exact E|]. rewrite Hl. reflexivity.
Defined.

(** X11. An "Image" cell that holds a number other than zero makes
    [build_rows] raise, whatever the other records are: the record has
    a title, its price can be read, and the number has no [split]. *)
Theorem build_rows_numeric_image (U : runtime) (r : record)
    (rest : list record) (v : pyval) (p : str) :
  has_title U r = true →
  best_price U r = Ok p →
  r !! u "Image" = Some v →
  truthy v = true →
  (∀ s, v ≠ PStr s) →
  build_rows U (r :: rest) = Raise AttributeError.
Proof.
  intros Ht Hp Hv Htr Hns. cbn [build_rows].
  fold (record_title U r). fold (has_title U r). rewrite Ht.
  unfold build_row. rewrite Hp. cbn [mbind result_bind].
  unfold extract_main_image, record_get_str. rewrite Hv.
  change (default (PStr []) (Some v)) with v.
  rewrite Htr. cbn [negb]. destruct v; try done. by destruct (Hns s).
Qed.

Lemma build_rows_numeric_image_witness :
  build_rows latin1_runtime
    [ {[ u "Title" := PStr (u "Mug"); u "Image" := PInt 7 ]};
      {[ u "Title" := PStr (u "Cup") ]} ]
  = Raise AttributeError.
Proof.
  apply (build_rows_numeric_image latin1_runtime
           {[ u "Title" := PStr (u "Mug"); u "Image" := PInt 7 ]}
           [ {[ u "Title" := PStr (u "Cup") ]} ] (PInt 7) []);
    by vm_compute.
Defined.

(** ** The export as a whole *)

Lemma push_to_sheet_built ss first rest body :
  mapM (row_values (map fst first)) (first :: rest) = Ok body →
  ∃ ss', push_to_sheet ss (first :: rest) = (ss', Ok tt)
    ∧ ss_sheets ss'
      = <[OUTPUT_WORKSHEET_NAME :=
            {| ws_rows := Z.of_nat (S (length body));
               ws_cols := Z.of_nat (length (map fst first));
               ws_cells := map fst first :: body |}]> (ss_sheets ss).
Proof.
  intros Hbody. unfold push_to_sheet. rewrite Hbody.
  set (headers := map fst first). set (name := OUTPUT_WORKSHEET_NAME).
  set (data := headers :: body).
  assert (Hfinal : ∀ ws0,
    ws_update_A1 data (ws_resize (Z.of_nat (length data))
                         (Z.of_nat (length headers)) (ws_clear ws0))
    = {| ws_rows := Z.of_nat (S (length body));
         ws_cols := Z.of_nat (length headers); ws_cells := data |}).
  { intros ws0. unfold ws_update_A1, ws_resize, ws_clear. cbn.
    by rewrite take_nil, overlay_nil. }
  cbn [ss_sheets log_call].
  destruct (ss_sheets ss !! name) as [ws0|] eqn:Elook;
    eexists; (split; [reflexivity|]);
    cbn [ss_sheets set_sheet log_call]; rewrite Hfinal;
    by rewrite ?insert_insert_eq.
Qed.

Lemma push_to_sheet_failed ss rows ss' e :
  push_to_sheet ss rows = (ss', Raise e) → ss' = ss.
Proof.
  unfold push_to_sheet. destruct rows as [|first rest]; [congruence|].
  destruct (mapM _ _) as [body|e']; [|congruence].
  by destruct (ss_sheets (log_call _ ss) !! _).
Qed.

(** X12. [push_to_sheet] is a full replacement of one tab: the other
    tabs are left as they were; what the output tab holds after a
    successful push depends on the rows only, not on what the
    spreadsheet held; and pushing the same rows again changes nothing. *)
Theorem push_to_sheet_replaces (ss : spreadsheet) (rows : list row) :
  (∀ name, name ≠ OUTPUT_WORKSHEET_NAME →
     ss_sheets (push_to_sheet ss rows).1 !! name = ss_sheets ss !! name)
  ∧ ((push_to_sheet ss rows).2 = Ok tt →
     ∀ ss2,
       (push_to_sheet ss2 rows).2 = Ok tt
       ∧ ss_sheets (push_to_sheet ss2 rows).1 !! OUTPUT_WORKSHEET_NAME
         = ss_sheets (push_to_sheet ss rows).1 !! OUTPUT_WORKSHEET_NAME)
  ∧ ((push_to_sheet ss rows).2 = Ok tt →
     ss_sheets (push_to_sheet (push_to_sheet ss rows).1 rows).1
     = ss_sheets (push_to_sheet ss rows).1).
Proof.
  destruct rows as [|first rest]; [by cbn|].
  destruct (mapM (row_values (map fst first)) (first :: rest)) as [body|e] eqn:Eb.
  - assert (H : ∀ s, ∃ s', push_to_sheet s (first :: rest) = (s', Ok tt)
              ∧ ss_sheets s'
                = <[OUTPUT_WORKSHEET_NAME :=
                      {| ws_rows := Z.of_nat (S (length body));
                         ws_cols := Z.of_nat (length (map fst first));
                         ws_cells := map fst first :: body |}]> (ss_sheets s))
      by (intros s; by apply push_to_sheet_built).
    destruct (H ss) as (ss' & E & Hs). rewrite E. cbn [fst snd].
    split; [|split].
    + intros name Hn. rewrite Hs. by apply lookup_insert_ne.
    + intros _ ss2. destruct (H ss2) as (ss2' & E2 & Hs2). rewrite E2.
      cbn [fst snd]. split; [done|]. by rewrite Hs, Hs2, !lookup_insert_eq.
    + intros _. destruct (H ss') as (ss3 & E3 & Hs3). rewrite E3. cbn [fst].
      by rewrite Hs3, Hs, insert_insert_eq.
  - unfold push_to_sheet. rewrite Eb. by cbn.
Qed.

Lemma push_to_sheet_replaces_witness :
  ss_sheets
    (push_to_sheet
       {| ss_sheets := {[ OUTPUT_WORKSHEET_NAME :=
                            {| ws_rows := 9; ws_cols := 9;
                               ws_cells := [[u "old"; u "old"]; [u "old"]] |} ]};
          ss_calls := [] |}
       [ [(u "Brand", u "Acme")] ]).1 !! OUTPUT_WORKSHEET_NAME
  = ss_sheets
      (push_to_sheet {| ss_sheets := ∅; ss_calls := [] |}
         [ [(u "Brand", u "Acme")] ]).1 !! OUTPUT_WORKSHEET_NAME.
Proof.
  apply (push_to_sheet_replaces {| ss_sheets := ∅; ss_calls := [] |}
           [ [(u "Brand", u "Acme")] ]).
  reflexivity.
Defined.

Lemma dict_get_app_fresh (pre : row) k v suf :
  k ∉ map fst pre → dict_get (pre ++ (k, v) :: suf) k = Ok v.
Proof.
  induction pre as [|[k' v'] pre IH]; cbn [app dict_get map fst]; intros Hk.
  - by rewrite bool_decide_eq_true_2.
  - apply not_elem_of_cons in Hk as [Hne Hk].
    rewrite bool_decide_eq_false_2 by done. by apply IH.
Qed.

Lemma row_values_own (d : row) :
  NoDup (map fst d) → row_values (map fst d) d = Ok (map snd d).
Proof.
  unfold row_values.
  enough (H : ∀ suf pre, NoDup (map fst (pre ++ suf)) →
            mapM (dict_get (pre ++ suf)) (map fst suf) = Ok (map snd suf))
    by (intros Hd; apply (H d []); done).
  induction suf as [|[k v] suf IH]; intros pre Hnd; [done|].
  cbn [map fst snd mapM].
  rewrite dict_get_app_fresh.
  - cbn [mbind result_bind].
    replace (pre ++ (k, v) :: suf) with ((pre ++ [(k, v)]) ++ suf)
      by (by rewrite <- app_assoc).
    rewrite IH; [done|]. by rewrite <- app_assoc.
  - rewrite map_app in Hnd. apply NoDup_app in Hnd as (_ & Hd & _).
    intros Hin. apply (Hd k Hin). constructor.
Qed.

Lemma NoDup_ROW_KEYS : NoDup ROW_KEYS.
Proof. apply (bool_decide_unpack (NoDup ROW_KEYS)). by vm_compute. Qed.

(** X13. The export end to end: when [build_rows] returns no row
    (no record has a title) [main] raises [ValueError] and leaves the
    spreadsheet alone; otherwise the output tab holds the thirteen
    column names and under them the values of each row in that order,
    in a grid of that size, the other tabs are untouched, and the line
    printed names the number of rows, which is the number of records
    with a title, the tab and the spreadsheet. *)
Theorem export_main_spec (U : runtime) (ss : spreadsheet)
    (records : list record) (rows : list row) :
  build_rows U records = Ok rows →
  (rows = [] ↔ List.filter (has_title U) records = [])
  ∧ length rows = length (List.filter (has_title U) records)
  ∧ (rows = [] → export_main U ss records = (ss, Raise ValueError))
  ∧ (rows ≠ [] →
     ∃ ss',
       export_main U ss records
       = (ss',
          Ok ([0x2705] ++ u " Exported " ++ str_of_int (Z.of_nat (length rows))
                ++ u " product rows to worksheet '" ++ OUTPUT_WORKSHEET_NAME
                ++ u "' in spreadsheet " ++ SPREADSHEET_ID))
       ∧ ss_sheets ss' !! OUTPUT_WORKSHEET_NAME
         = Some {| ws_rows := Z.of_nat (length rows) + 1;
                   ws_cols := 13;
                   ws_cells := ROW_KEYS :: map (map snd) rows |}
       ∧ ∀ name, name ≠ OUTPUT_WORKSHEET_NAME →
                 ss_sheets ss' !! name = ss_sheets ss !! name).
Proof.
  intros Hrows. pose proof (build_rows_rows _ _ _ Hrows) as H2.
  split; [|split; [|split]].
  - apply Forall2_length in H2.
    destruct rows, (List.filter (has_title U) records); naive_solver.
  - symmetry. by apply Forall2_length in H2.
  - intros ->. unfold export_main. by rewrite Hrows.
  - intros Hne. destruct rows as [|first rest]; [done|].
    assert (Hkeys : Forall (λ x : row, map fst x = ROW_KEYS) (first :: rest)).
    { clear -H2. induction H2 as [|r x rs xs Hx _ IH]; constructor; [|done].
      by apply build_row_fields in Hx as (_ & _ & _ & ?). }
    assert (Hfirst : map fst first = ROW_KEYS) by by apply Forall_cons in Hkeys as [? _].
    assert (Hbody : mapM (row_values (map fst first)) (first :: rest)
                    = Ok (map (map snd) (first :: rest))).
    { rewrite Hfirst. apply mapM_result_Ok. clear -Hkeys.
      induction Hkeys as [|x xs Hx _ IH]; cbn [map]; constructor; [|done].
      rewrite <- Hx. apply row_values_own. rewrite Hx. apply NoDup_ROW_KEYS. }
    destruct (push_to_sheet_built ss first rest _ Hbody) as (ss' & E & Hs).
    unfold export_main. rewrite Hrows, E. eexists. split; [reflexivity|].
    rewrite Hs, Hfirst. split.
    + rewrite lookup_insert_eq. do 2 f_equal. rewrite length_map. cbn. lia.
    + intros name Hn. by apply lookup_insert_ne.
Qed.

Lemma export_main_spec_witness :
  ∃ ss',
    export_main latin1_runtime
      {| ss_sheets := {[ u "Sheet1" := {| ws_rows := 3; ws_cols := 2;
                                          ws_cells := [] |} ]};
         ss_calls := [] |}
      [ {[ u "Title" := PStr (u " Blue Mug "); u "Brand" := PStr (u "Acme") ]};
        {[ u "Title" := PStr (u "  ") ]};
        {[ u "Title" := PStr (u "Red Mug") ]} ]
    = (ss',
       Ok ([0x2705] ++ u " Exported 2 product rows to worksheet 'Product Metadata' in spreadsheet 1JUn34EdZ98LQznxNswvFTpMTqZrr4Qj0-3hBkfrNqVo"))
    ∧ (ws_rows <$> ss_sheets ss' !! OUTPUT_WORKSHEET_NAME) = Some 3
    ∧ ss_sheets ss' !! u "Sheet1"
      = Some {| ws_rows := 3; ws_cols := 2; ws_cells := [] |}.
Proof.
  destruct (build_rows latin1_runtime
      [ {[ u "Title" := PStr (u " Blue Mug "); u "Brand" := PStr (u "Acme") ]};
        {[ u "Title" := PStr (u "  ") ]};
        {[ u "Title" := PStr (u "Red Mug") ]} ])
    as [rows|] eqn:E; [|by vm_compute in E].
  destruct (export_main_spec latin1_runtime
      {| ss_sheets := {[ u "Sheet1" := {| ws_rows := 3; ws_cols := 2;
                                          ws_cells := [] |} ]};
         ss_calls := [] |} _ rows E) as (_ & Hlen & _ & H).
  change (length rows = 2%nat) in Hlen.
  destruct H as (ss' & Hmain & Htab & Hother);
    [by destruct rows|].
  exists ss'. rewrite Hlen in Hmain, Htab. split; [exact Hmain|].
  split; [by rewrite Htab|].
  rewrite Hother; [|by vm_compute]. by apply lookup_singleton_eq.
Defined.

(** ** Files written for a product *)

Lemma mkdir_from_chain fs todo : ∀ made,
  (∀ k, (1 ≤ k ≤ length todo)%nat → fs !! (made ++ take k todo) = Some Dir) →
  mkdir_from fs made todo = Ok fs.
Proof.
  induction todo as [|c rest IH]; intros made H; [done|].
  cbn [mkdir_from]. pose proof (H 1%nat ltac:(cbn; lia)) as H1.
  change (take 1 (c :: rest)) with (c :: take 0 rest) in H1.
  rewrite take_0 in H1. rewrite H1.
  apply IH. intros k Hk. rewrite <- app_assoc. apply (H (S k)). cbn. lia.
Qed.

Lemma mkdir_p_chain fs p : dir_chain fs p → mkdir_p fs p = Ok fs.
Proof. intros H. apply mkdir_from_chain. intros k Hk. by apply H. Qed.


Lemma parent_joinpath d n : parent (joinpath d n) = d.
Proof. apply removelast_last. Qed.

Lemma webp_path_inj out_dir a b :
  0 ≤ a → 0 ≤ b → webp_path out_dir a = webp_path out_dir b → a = b.
Proof.
  unfold webp_path, joinpath. intros Ha Hb H.
  apply app_inv_head in H. injection H as H. apply app_inv_tail in H.
  by apply str_of_int_inj.
Qed.

Lemma webp_path_not_prefix out_dir i k : take k out_dir ≠ webp_path out_dir i.
Proof.
  intros H. apply (f_equal length) in H. unfold webp_path, joinpath in H.
  rewrite length_take, length_app in H. cbn in H. lia.
Qed.

(** what one pass of the loop does to the files, in a folder that exists *)
Lemma fetch_one_outcome S fs out_dir i url :
  dir_chain fs out_dir →
  fs !! webp_path out_dir i ≠ Some Dir →
  fetch_one S fs out_dir i url
  = match fetch_image S url with
    | Ok img =>
        Ok (<[webp_path out_dir i := File (compose_canvas S img)]> fs,
            webp_path out_dir i)
    | Raise e => Raise e
    end.
Proof.
  intros Hchain Hnd. unfold fetch_one, fetch_image.
  destruct (download_bytes S url) as [b|e]; [|done]. cbn [mbind result_bind].
  fold (webp_path out_dir i). unfold to_exact_canvas_webp.
  destruct (decode_rgb S b) as [img|e]; [|done]. cbn [mbind result_bind].
  replace (parent (webp_path out_dir i)) with out_dir
    by (symmetry; apply parent_joinpath).
  rewrite mkdir_p_chain by done.
  cbn [mbind result_bind]. unfold save_image.
  by destruct (fs !! webp_path out_dir i) as [[]|].
Qed.

Lemma dir_chain_insert_file fs out_dir i c :
  dir_chain fs out_dir → dir_chain (<[webp_path out_dir i := File c]> fs) out_dir.
Proof.
  intros H k Hk. rewrite lookup_insert_ne; [by apply H|].
  intros E. by apply (webp_path_not_prefix out_dir i k).
Qed.

(** X14. The loop over the URLs of a product, in a folder that exists
    and holds no directory named like an image: the [k]-th URL that
    downloads and decodes leaves its 800 by 800 canvas in the file
    numbered by its position; one that fails leaves that file as it
    was and does not disturb the others; no other path changes; and
    one line is printed per URL, in order. *)
Theorem fetch_all_files (S : services) (out_dir : path) (urls : list str) :
  ∀ (w : world) (i : Z),
  0 ≤ i →
  dir_chain (w_fs w) out_dir →
  (∀ j, w_fs w !! webp_path out_dir j ≠ Some Dir) →
  let w' := fetch_all S w out_dir i urls in
  (∀ (k : nat) url, urls !! k = Some url →
     w_fs w' !! webp_path out_dir (i + Z.of_nat k)
     = match fetch_image S url with
       | Ok img => Some (File (compose_canvas S img))
       | Raise _ => w_fs w !! webp_path out_dir (i + Z.of_nat k)
       end)
  ∧ (∀ p, (∀ k : nat, (k < length urls)%nat →
                      p ≠ webp_path out_dir (i + Z.of_nat k)) →
          w_fs w' !! p = w_fs w !! p)
  ∧ w_out w'
    = w_out w ++ imap (λ k url, url_report S out_dir (i + Z.of_nat k) url) urls.
Proof.
  induction urls as [|url rest IH]; intros w i Hi Hchain Hnd; cbn [fetch_all].
  - cbn. split; [done|]. split; [done|]. by rewrite app_nil_r.
  - rewrite fetch_one_outcome by done.
    set (w1 := match fetch_image S url with
               | Ok img =>
                   print ([0x2705] ++ u " " ++ path_str S (webp_path out_dir i))
                     (with_fs (<[webp_path out_dir i := File (compose_canvas S img)]>
                                 (w_fs w)) w)
               | Raise e =>
                   print ([0x274C] ++ u " " ++ url ++ u " -> " ++ describe S e) w
               end).
    assert (Hw1 : fetch_all S
              match
                match fetch_image S url with
                | Ok img =>
                    Ok (<[webp_path out_dir i := File (compose_canvas S img)]>
                          (w_fs w), webp_path out_dir i)
                | Raise e => Raise e
                end
              with
              | Ok (fs, webp) =>
                  print ([0x2705] ++ u " " ++ path_str S webp) (with_fs fs w)
              | Raise e =>
                  print ([0x274C] ++ u " " ++ url ++ u " -> " ++ describe S e) w
              end out_dir (i + 1) rest
            = fetch_all S w1 out_dir (i + 1) rest)
      by (subst w1; by destruct (fetch_image S url)).
    rewrite Hw1. clear Hw1.
    assert (Hfs1 : w_fs w1 = match fetch_image S url with
                             | Ok img => <[webp_path out_dir i
                                            := File (compose_canvas S img)]> (w_fs w)
                             | Raise _ => w_fs w
                             end)
      by (subst w1; by destruct (fetch_image S url)).
    assert (Hout1 : w_out w1 = w_out w ++ [url_report S out_dir i url])
      by (subst w1; unfold url_report; by destruct (fetch_image S url)).
    assert (Hchain1 : dir_chain (w_fs w1) out_dir).
    { rewrite Hfs1. destruct (fetch_image S url); [|done].
      by apply dir_chain_insert_file. }
    assert (Hnd1 : ∀ j, w_fs w1 !! webp_path out_dir j ≠ Some Dir).
    { intros j. rewrite Hfs1. destruct (fetch_image S url); [|done].
      rewrite lookup_insert. case_decide; [done|apply Hnd]. }
    destruct (IH w1 (i + 1) ltac:(lia) Hchain1 Hnd1) as (H1 & H2 & H3).
    split; [|split].
    + intros [|k] url' Hk.
      * injection Hk as <-. rewrite Z.add_0_r, H2.
        -- rewrite Hfs1. destruct (fetch_image S url); [|done].
           by rewrite lookup_insert_eq.
        -- intros k' _ E. apply webp_path_inj in E; lia.
      * cbn in Hk. specialize (H1 k url' Hk).
        replace (i + Z.of_nat (Datatypes.S k)) with (i + 1 + Z.of_nat k) by lia.
        rewrite H1. destruct (fetch_image S url'); [done|].
        rewrite Hfs1. destruct (fetch_image S url); [|done].
        rewrite lookup_insert_ne; [done|].
        intros E. apply webp_path_inj in E; lia.
    + intros p Hp. rewrite H2.
      * rewrite Hfs1. destruct (fetch_image S url); [|done].
        rewrite lookup_insert_ne; [done|]. intros E.
        apply (Hp 0%nat); [cbn; lia|]. by rewrite Z.add_0_r.
      * intros k Hk. replace (i + 1 + Z.of_nat k) with (i + Z.of_nat (Datatypes.S k)) by lia.
        apply Hp. cbn. lia.
    + rewrite H3, Hout1, <- app_assoc. f_equal. cbn [imap app].
      rewrite Z.add_0_r. f_equal. apply imap_ext. intros k x _. cbn.
      f_equal. lia.
Qed.

Lemma fetch_all_files_witness :
  w_fs (fetch_all sample_services
          {| w_fs := {[ [u "images"] := Dir; [u "images"; u "mug"] := Dir ]};
             w_out := [] |}
          [u "images"; u "mug"] 1 [ [1600; 1200]; u "not an image"; [300; 200] ])
    !! [u "images"; u "mug"; u "3.webp"]
  = Some (File (compose_canvas sample_services (new_image 300 200 (0, 0, 0)))).
Proof.
  destruct (fetch_all_files sample_services [u "images"; u "mug"]
              [ [1600; 1200]; u "not an image"; [300; 200] ]
              {| w_fs := {[ [u "images"] := Dir; [u "images"; u "mug"] := Dir ]};
                 w_out := [] |} 1) as (H & _).
  - lia.
  - intros [|[|[|k]]] Hk; cbn in Hk; try lia; by vm_compute.
  - intros j. cbn [w_fs].
    rewrite lookup_insert_ne by (intros E; by apply (f_equal length) in E).
    by rewrite lookup_singleton_ne by (intros E; by apply (f_equal length) in E).
  - apply (H 2%nat [300; 200]). reflexivity.
Defined.

(** ** A line with URLs, and the whole run *)

Lemma ensure_unique_folder_joinpath fs root base p :
  ensure_unique_folder fs root base = Some p →
  (∃ name, p = joinpath root name) ∧ fs !! p = None.
Proof.
  intros H. pose proof (ensure_unique_folder_fresh _ _ _ _ H) as Hfresh.
  unfold ensure_unique_folder in H.
  apply probe_Some in H as (i & _ & -> & _ & _). split.
  - destruct i; cbn [probe_candidate]; by eexists.
  - unfold path_exists in Hfresh. apply bool_decide_eq_false in Hfresh.
    by apply eq_None_not_Some.
Qed.

Lemma mkdir_p_fresh (fs : filesystem) name :
  fs !! OUT_ROOT = Some Dir →
  fs !! joinpath OUT_ROOT name = None →
  mkdir_p fs (joinpath OUT_ROOT name)
  = Ok (<[joinpath OUT_ROOT name := Dir]> fs).
Proof.
  intros Hroot Hnew. unfold mkdir_p.
  change (joinpath OUT_ROOT name) with [u "images"; name] in *.
  cbn [mkdir_from]. change ([] ++ [u "images"]) with OUT_ROOT.
  rewrite Hroot. cbn [mkdir_from].
  change (OUT_ROOT ++ [name]) with [u "images"; name].
  by rewrite Hnew.
Qed.

(** X15. A line with at least one URL, on a file system whose
    [images] folder exists: [process_line] returns normally; it makes
    one folder, which did not exist before; in it the [k]-th URL, when
    it downloads and decodes, has its canvas in the file numbered [k],
    counting from 1, and when it fails that number is missing; nothing
    else on the file system changes. *)
Theorem process_line_files (S : services) (U : runtime) (w : world)
    (line : str) (idx : Z) :
  let urls := nonempty_parts (parse_line line idx).1 in
  w_fs w !! OUT_ROOT = Some Dir →
  fs_closed (w_fs w) →
  urls ≠ [] →
  ∃ out_dir w',
    ensure_unique_folder (w_fs w) OUT_ROOT
      (short_title_slug U (parse_line line idx).2) = Some out_dir
    ∧ process_line S U w line idx = Some (w', Ok tt)
    ∧ w_fs w !! out_dir = None
    ∧ w_fs w' !! out_dir = Some Dir
    ∧ (∀ (k : nat) url, urls !! k = Some url →
         w_fs w' !! webp_path out_dir (1 + Z.of_nat k)
         = match fetch_image S url with
           | Ok img => Some (File (compose_canvas S img))
           | Raise _ => None
           end)
    ∧ (∀ p, p ≠ out_dir →
            (∀ k : nat, (k < length urls)%nat →
                        p ≠ webp_path out_dir (1 + Z.of_nat k)) →
            w_fs w' !! p = w_fs w !! p)
    ∧ ∃ header,
        w_out w'
        = w_out w
          ++ header :: imap (λ k url, url_report S out_dir (1 + Z.of_nat k) url) urls.
Proof.
  intros urls Hroot Hclosed Hurls. subst urls. unfold process_line.
  destruct (parse_line line idx) as [urls_part title]. cbn [fst snd] in *.
  destruct (ensure_unique_folder_total (w_fs w) OUT_ROOT (short_title_slug U title))
    as [out_dir Hout].
  rewrite Hout.
  destruct (ensure_unique_folder_joinpath _ _ _ _ Hout) as [[name ->] Hnew].
  destruct (nonempty_parts urls_part) as [|url0 urls0] eqn:Eu; [done|].
  rewrite <- Eu in *. clear Eu url0 urls0 Hurls.
  match goal with
  | |- context [print ?m w] => set (header := m); set (w0 := print header w)
  end.
  change (w_fs w0) with (w_fs w).
  rewrite (mkdir_p_fresh (w_fs w) name Hroot Hnew).
  set (out_dir := joinpath OUT_ROOT name) in *.
  set (w1 := with_fs (<[out_dir := Dir]> (w_fs w)) w0).
  assert (Hne : ∀ j, webp_path out_dir j ≠ out_dir).
  { intros j E. apply (f_equal length) in E. unfold webp_path, joinpath in E.
    rewrite length_app in E. cbn in E. lia. }
  assert (Hchain : dir_chain (w_fs w1) out_dir).
  { intros k Hk. cbn [w1 w_fs with_fs].
    change (length out_dir) with 2%nat in Hk.
    assert (k = 1 ∨ k = 2)%nat as [-> | ->] by lia.
    - change (take 1 out_dir) with OUT_ROOT.
      rewrite lookup_insert_ne; [done|]. intros E.
      by apply (f_equal length) in E.
    - change (take 2 out_dir) with out_dir. apply lookup_insert_eq. }
  assert (Htargets : ∀ j, w_fs w1 !! webp_path out_dir j = None).
  { intros j. cbn [w1 w_fs with_fs]. rewrite lookup_insert_ne by by apply not_eq_sym.
    by apply Hclosed. }
  destruct (fetch_all_files S out_dir (nonempty_parts urls_part) w1 1
              ltac:(lia) Hchain) as (H1 & H2 & H3).
  { intros j. by rewrite Htargets. }
  exists out_dir, (fetch_all S w1 out_dir 1 (nonempty_parts urls_part)).
  split; [done|]. split; [done|]. split; [done|]. split; [|split; [|split]].
  - rewrite H2; [apply lookup_insert_eq|]. intros k _ E. by apply (Hne (1 + Z.of_nat k)).
  - intros k url Hk. rewrite (H1 k url Hk), Htargets. done.
  - intros p Hp Hother. rewrite H2 by done. cbn [w1 w_fs with_fs].
    by rewrite lookup_insert_ne by by apply not_eq_sym.
  - exists header. rewrite H3. cbn [w1 w0 w_out with_fs print].
    by rewrite <- app_assoc.
Qed.

Lemma process_line_files_witness :
  ∃ w',
    process_line sample_services latin1_runtime
      {| w_fs := {[ [u "images"] := Dir ]}; w_out := [] |}
      ([400; 300] ++ u ";oops;" ++ [900; 900] ++ [9] ++ u "Blue Mug") 1
    = Some (w', Ok tt)
    ∧ w_fs w' !! [u "images"; u "blue-mug"] = Some Dir
    ∧ w_fs w' !! [u "images"; u "blue-mug"; u "2.webp"] = None.
Proof.
  destruct (process_line_files sample_services latin1_runtime
      {| w_fs := {[ [u "images"] := Dir ]}; w_out := [] |}
      ([400; 300] ++ u ";oops;" ++ [900; 900] ++ [9] ++ u "Blue Mug") 1)
    as (out_dir & w' & Hout & E & _ & Hdir & Hfiles & _).
  - reflexivity.
  - intros p a Hp _. cbn [w_fs].
    apply lookup_singleton_ne. intros E. apply (f_equal length) in E.
    rewrite length_app in E. destruct p; [done|]. cbn in E. lia.
  - by vm_compute.
  - vm_compute in Hout. injection Hout as <-.
    exists w'. split; [exact E|]. split; [exact Hdir|].
    apply (Hfiles 1%nat (u "oops")). reflexivity.
Defined.








(** reading the file: a carriage return ends a line as a line feed
    does, and a byte sequence that is not UTF-8 has no lines *)
Lemma read_lines_example :
  read_lines (InputBytes [0x61; 13; 10; 0x62; 13; 0xC3; 0xA9; 10; 10; 0x63])
  = Ok [[0x61; 10]; [0x62; 10]; [0xE9; 10]; [10]; [0x63]]
  ∧ read_lines (InputBytes [0x61; 0xE9; 0x62]) = Raise UnicodeDecodeError
  ∧ read_lines (InputBytes [0xED; 0xA0; 0x80]) = Raise UnicodeDecodeError
  ∧ read_lines (InputBytes [0xC0; 0x80]) = Raise UnicodeDecodeError.
Proof. repeat split; reflexivity. Qed.

(** ** The lines of the sheet reader *)

Lemma split_first_app sep a b :
  Forall (λ c, c ≠ sep) a → split_first sep (a ++ sep :: b) = Some (a, b).
Proof.
  induction 1 as [|c r Hc Hr IH]; cbn [app split_first].
  - by rewrite Z.eqb_refl.
  - by rewrite (proj2 (Z.eqb_neq c sep) Hc), IH.
Qed.

Lemma split_on_app sep a b :
  Forall (λ c, c ≠ sep) a → split_on sep (a ++ sep :: b) = a :: split_on sep b.
Proof.
  induction 1 as [|c r Hc Hr IH]; cbn [app split_on].
  - by rewrite Z.eqb_refl.
  - by rewrite (proj2 (Z.eqb_neq c sep) Hc), IH.
Qed.

Lemma split_on_join sep ws :
  ws ≠ [] → Forall (Forall (λ c, c ≠ sep)) ws →
  split_on sep (join [sep] ws) = ws.
Proof.
  induction ws as [|w rest IH]; intros Hne Hall; [done|].
  inversion_clear Hall as [|? ? Hw Hrest].
  destruct rest as [|w2 rest].
  - cbn [join]. by apply split_on_none.
  - change (join [sep] (w :: w2 :: rest))
      with (w ++ sep :: join [sep] (w2 :: rest)).
    rewrite split_on_app by done. f_equal. by apply IH.
Qed.

Lemma row_urls_text U row :
  forallb (url_cell_ok U) row = true → row_urls U row = Ok (url_cells U row).
Proof.
  induction row as [|[key v] rest IH]; [done|].
  cbn [forallb]. intros [Hkv Hrest]%andb_true_iff.
  unfold url_cells. cbn [row_urls omap list_omap fst snd].
  unfold url_cell_ok in Hkv. cbn [fst snd] in Hkv.
  destruct (url_column U key && truthy v) eqn:E; cbn [negb orb] in Hkv.
  - destruct v as [|s|n|x]; try done.
    cbn [val_strip mbind result_bind]. rewrite (IH Hrest).
    cbn [mbind result_bind]. done.
  - by apply IH.
Qed.

Lemma url_cells_facts U row :
  forallb (url_cell_ok U) row = true →
  Forall (λ url, Forall (λ c, c ≠ 9 ∧ c ≠ 59) url ∧ py_strip url = url)
         (url_cells U row).
Proof.
  induction row as [|[key v] rest IH]; [constructor|].
  cbn [forallb]. intros [Hkv Hrest]%andb_true_iff.
  unfold url_cells. cbn [omap list_omap fst snd].
  unfold url_cell_ok in Hkv. cbn [fst snd] in Hkv.
  destruct (url_column U key && truthy v) eqn:E; cbn [negb orb] in Hkv;
    [|by apply IH].
  destruct v as [|s|n|x]; try done.
  constructor; [|by apply IH]. split.
  - apply Forall_forall. intros c Hc.
    rewrite forallb_forall in Hkv. apply list_elem_of_In, Hkv in Hc.
    apply andb_true_iff in Hc as [H9 H59].
    apply negb_true_iff in H9, H59. by apply Z.eqb_neq in H9, H59.
  - apply strip_with_idem.
Qed.

Lemma reader_line_parse U row line :
  forallb (url_cell_ok U) row = true →
  reader_line U row = Some line →
  row_title row ≠ [] ∧ url_cells U row ≠ []
  ∧ ∀ idx, parse_line line idx = (join (u ";") (url_cells U row), row_title row)
           ∧ nonempty_parts (parse_line line idx).1
             = List.filter str_nonempty (url_cells U row).
Proof.
  intros Hok Hline. pose proof (url_cells_facts U row Hok) as Hfacts.
  assert (Hshape : url_cells U row ≠ [] ∧ row_title row ≠ []
                   ∧ line = join (u ";") (url_cells U row) ++ 9 :: row_title row).
  { unfold reader_line in Hline.
    destruct (url_cells U row) as [|url0 urls0]; [done|].
    destruct (row_title row) as [|t0 title0]; [done|].
    split; [done|]. split; [done|]. injection Hline as <-. reflexivity. }
  destruct Hshape as (Hne & Ht & ->). clear Hline.
  split; [done|]. split; [done|]. intros idx.
  assert (Hparse : parse_line (join (u ";") (url_cells U row) ++ 9 :: row_title row) idx
                   = (join (u ";") (url_cells U row), row_title row)).
  { unfold parse_line. rewrite split_first_app; [done|].
    apply Forall_join; [by repeat constructor|].
    eapply Forall_impl; [exact Hfacts|]. intros url [H _].
    eapply Forall_impl; [exact H|]. by intros c [? _]. }
  rewrite Hparse. split; [done|]. cbn [fst]. unfold nonempty_parts.
  change (u ";") with [59]. rewrite split_on_join; [|done|].
  - f_equal. clear -Hfacts.
    induction Hfacts as [|url urls [_ Hurl] _ IH]; [done|].
    cbn [map]. by rewrite Hurl, IH.
  - eapply Forall_impl; [exact Hfacts|]. intros url [H _].
    eapply Forall_impl; [exact H|]. by intros c [_ ?].
Qed.

Lemma row_line_text U row :
  text_row U row = true → row_line U row = Ok (reader_line U row).
Proof.
  unfold text_row, row_line, reader_line, row_title.
  intros [Ht Hok]%andb_true_iff.
  destruct (items_get_str row (u "Title")) as [|t|n|x]; try done.
  cbn [val_strip mbind result_bind]. rewrite (row_urls_text U row Hok).
  cbn [mbind result_bind].
  destruct (url_cells U row) as [|url0 urls0]; [done|].
  by destruct (py_strip t).
Qed.

Lemma load_sheet_rows_text U records :
  forallb (text_row U) records = true →
  load_sheet_rows U records = Ok (omap (reader_line U) records).
Proof.
  induction records as [|row rest IH]; [done|].
  cbn [forallb]. intros [Hrow Hrest]%andb_true_iff.
  cbn [load_sheet_rows omap list_omap]. rewrite (row_line_text U row Hrow).
  cbn [mbind result_bind]. rewrite (IH Hrest). cbn [mbind result_bind].
  by destruct (reader_line U row).
Qed.

(** X17. On records whose title is text and whose filled URL cells are
    text without a tab or a semicolon inside, [load_sheet_rows] returns;
    every line it gives comes from a record with a non-empty title and
    at least one filled URL cell, and [process_line] reads that line
    back into the stripped title and the stripped URL cells that are
    not blank, in column order; and every such record has its line. *)
Theorem load_sheet_rows_round_trip (U : runtime) (records : list sheet_record) :
  forallb (text_row U) records = true →
  ∃ lines,
    load_sheet_rows U records = Ok lines
    ∧ Forall (λ line, ∃ row,
        row ∈ records ∧ row_title row ≠ [] ∧ url_cells U row ≠ []
        ∧ ∀ idx,
            parse_line line idx
            = (join (u ";") (url_cells U row), row_title row)
            ∧ nonempty_parts (parse_line line idx).1
              = List.filter str_nonempty (url_cells U row)) lines
    ∧ (∀ row, row ∈ records → row_title row ≠ [] → url_cells U row ≠ [] →
         join (u ";") (url_cells U row) ++ [9] ++ row_title row ∈ lines).
Proof.
  intros Hall. exists (omap (reader_line U) records).
  split; [by apply load_sheet_rows_text|]. split.
  - apply Forall_forall. intros line Hline.
    apply list_elem_of_omap in Hline as (row & Hrow & Hl).
    exists row. split; [done|]. apply reader_line_parse; [|done].
    rewrite forallb_forall in Hall. apply list_elem_of_In, Hall in Hrow.
    unfold text_row in Hrow. by apply andb_true_iff in Hrow as [_ ?].
  - intros row Hrow Ht Hu. apply list_elem_of_omap. exists row.
    split; [done|]. unfold reader_line.
    destruct (url_cells U row); [done|]. by destruct (row_title row).
Qed.

Lemma load_sheet_rows_round_trip_witness :
  ∃ lines,
    load_sheet_rows latin1_runtime
      [ [ (u "Title", PStr (u " Blue Mug "));
          (u "URL 1", PStr (u "http://a/1.jpg "));
          (u "Price", PInt 5);
          (u "Url2", PStr (u "  "));
          (u "url_3", PInt 0) ];
        [ (u "Title", PStr []); (u "url", PStr (u "http://a/2.jpg")) ] ]
    = Ok lines
    ∧ length lines = 1%nat.
Proof.
  destruct (load_sheet_rows_round_trip latin1_runtime
      [ [ (u "Title", PStr (u " Blue Mug "));
          (u "URL 1", PStr (u "http://a/1.jpg "));
          (u "Price", PInt 5);
          (u "Url2", PStr (u "  "));
          (u "url_3", PInt 0) ];
        [ (u "Title", PStr []); (u "url", PStr (u "http://a/2.jpg")) ] ])
    as (lines & E & _).
  - reflexivity.
  - exists lines. split; [exact E|].
    vm_compute in E. injection E as <-. reflexivity.
Defined.

Lemma row_urls_exn U row e : row_urls U row = Raise e → e = AttributeError.
Proof.
  induction row as [|[key v] rest IH]; cbn [row_urls]; [done|].
  destruct (url_column U key && truthy v); [|done].
  destruct v as [|s|n|x]; cbn [val_strip mbind result_bind];
    try (by intros [= <-]).
  destruct (row_urls U rest) as [urls|e']; cbn [mbind result_bind]; [done|].
  intros [= <-]. by apply IH.
Qed.

Lemma row_line_exn U row e : row_line U row = Raise e → e = AttributeError.
Proof.
  unfold row_line.
  destruct (items_get_str row (u "Title")) as [|t|n|x];
    cbn [val_strip mbind result_bind]; try (by intros [= <-]).
  destruct (row_urls U row) as [urls|e'] eqn:E; cbn [mbind result_bind].
  - destruct urls; [done|]. by destruct (py_strip t).
  - intros [= <-]. by apply (row_urls_exn U row).
Qed.

Lemma load_sheet_rows_exn U records e :
  load_sheet_rows U records = Raise e → e = AttributeError.
Proof.
  induction records as [|row rest IH]; cbn [load_sheet_rows]; [done|].
  destruct (row_line U row) as [line|e'] eqn:E; cbn [mbind result_bind].
  - destruct (load_sheet_rows U rest) as [lines|e']; cbn [mbind result_bind];
      [done|]. intros [= <-]. by apply IH.
  - intros [= <-]. by apply (row_line_exn U row).
Qed.

Lemma row_urls_bad U row key v :
  (key, v) ∈ row → url_column U key = true → truthy v = true →
  (∀ s, v ≠ PStr s) → ∃ e, row_urls U row = Raise e.
Proof.
  intros Hin Hu Ht Hv.
  induction row as [|[k' v'] rest IH]; [by apply elem_of_nil in Hin|].
  cbn [row_urls]. apply elem_of_cons in Hin as [[= <- <-]|Hin].
  - rewrite Hu, Ht. cbn [andb].
    destruct v as [|s|n|x]; cbn [val_strip mbind result_bind];
      try (by eexists). by destruct (Hv s).
  - destruct (IH Hin) as [e He]. destruct (url_column U k' && truthy v');
      [|by eexists].
    destruct (val_strip v') as [url|e']; cbn [mbind result_bind];
      [|by eexists].
    rewrite He. cbn [mbind result_bind]. by eexists.
Qed.

(** X18. Only text can be stripped: when some record has a title that
    is not text, or a filled cell that is not text under a column whose
    lowered name starts with [url], the whole of [load_sheet_rows]
    raises [AttributeError] and no line is returned, whatever the other
    records hold. *)
Theorem load_sheet_rows_numeric_cell (U : runtime)
    (records : list sheet_record) (row : sheet_record) :
  row ∈ records →
  (∀ t, items_get_str row (u "Title") ≠ PStr t)
  ∨ (∃ key v, (key, v) ∈ row ∧ url_column U key = true ∧ truthy v = true
              ∧ ∀ s, v ≠ PStr s) →
  load_sheet_rows U records = Raise AttributeError.
Proof.
  intros Hrow Hbad.
  assert (Hline : ∃ e, row_line U row = Raise e).
  { unfold row_line. destruct Hbad as [Ht | (key & v & Hin & Hu & Hv & Hs)].
    - destruct (items_get_str row (u "Title")) as [|t|n|x];
        cbn [val_strip mbind result_bind]; try (by eexists). by destruct (Ht t).
    - destruct (val_strip _) as [t|e]; cbn [mbind result_bind]; [|by eexists].
      destruct (row_urls_bad U row key v Hin Hu Hv Hs) as [e ->].
      cbn [mbind result_bind]. by eexists. }
  assert (Hload : ∃ e, load_sheet_rows U records = Raise e).
  { clear Hbad. induction records as [|r rest IH]; [by apply elem_of_nil in Hrow|].
    cbn [load_sheet_rows]. apply elem_of_cons in Hrow as [<-|Hrow].
    - destruct Hline as [e ->]. cbn [mbind result_bind]. by eexists.
    - destruct (row_line U r) as [l|e]; cbn [mbind result_bind]; [|by eexists].
      destruct (IH Hrow) as [e ->]. cbn [mbind result_bind]. by eexists. }
  destruct Hload as [e He]. by rewrite He, (load_sheet_rows_exn U records e He).
Qed.

Lemma load_sheet_rows_numeric_cell_witness :
  load_sheet_rows latin1_runtime
    [ [ (u "Title", PStr (u "Blue Mug")); (u "URL", PStr (u "http://a/1.jpg")) ];
      [ (u "Title", PInt 2024); (u "URL", PStr (u "http://a/2.jpg")) ] ]
  = Raise AttributeError.
Proof.
  apply (load_sheet_rows_numeric_cell latin1_runtime _
           [ (u "Title", PInt 2024); (u "URL", PStr (u "http://a/2.jpg")) ]).
  - apply elem_of_cons. right. apply elem_of_cons. by left.
  - left. intros t. vm_compute. discriminate.
Defined.
